(** * react-native-unarchive: the safe staged extraction engine

    A shallow embedding of the Android engine
    (android/src/main/java/com/unarchive/UnarchiveModule.kt) and of the
    two iOS engines (ios/Unarchive.mm, the first revision with its ZIP
    path, and the hardened revision), over an explicit file-system tree.

    Conventions of the embedding.
    - A [java.io.File] is the list of the names of its path, as written
      (["."] and [".."] are kept); its canonical form resolves them.  There
      are no symbolic links, and relative paths are taken from the root,
      the working directory of an Android process.  Whether a path was
      written as an absolute one is kept where the code depends on it
      ([Path.relativize] in the loop over the entries).
    - [getCanonicalFile] and [getCanonicalPath] throw an [IOException] for
      a file that the platform cannot resolve (a name with a NUL character,
      a path over the length limit); which files it resolves is given by
      the context and the environment.
    - The file system is a tree; every primitive is a total function on it.
      A primitive whose result the code ignores ([delete],
      [deleteRecursively], [parentFile.mkdirs]) does what the tree allows:
      a delete that the platform refuses, or carries out in part, is not
      represented.
    - A directory is listed in the order in which the tree holds its
      entries.  [File.listFiles] and [NSDirectoryEnumerator] promise no
      order; what is stated of a whole list is stated up to its order.
      A primitive whose failure the code handles ([mkdirs] of the staging
      directory, [Files.move], [renameTo], the stream writes) can moreover
      be made to fail by the environment record [env].
    - The archive decoder (7-Zip-JBinding) is a collaborator: the
      environment gives the item sequence it reports, the chunks it feeds
      to the write callback and the result it returns for each item.
    - Coroutine cancellation is the environment's answer to each
      [isActive] poll.  A coroutine that is cancelled before its body has
      begun never runs it; [jobState] tells how far the job has come when
      [cancelUnarchive] reaches it.
    - The decoder paths of the hardened iOS engine are embedded in the
      module [IOSDecode]; UnrarKit, SSZipArchive and the platform calls
      that can fail are collaborators, given by the record
      [IOSDecode.run]. *)

From Stdlib Require Import String Ascii List Bool Arith ZArith Lia DecimalString
  DecimalNat Permutation.
Import ListNotations.
Open Scope string_scope.
Open Scope list_scope.

(* ================================================================== *)
(** * Path strings *)

Definition separatorChar : ascii := "/"%char.

Definition cons_name (h : string) (t : list string) : list string :=
  match h with
  | EmptyString => t
  | _ => h :: t
  end.

(** [split s] cuts [s] at separators: the name under construction at the
    head of [s] and the completed names after it. *)
Fixpoint split (s : string) : string * list string :=
  match s with
  | EmptyString => (EmptyString, [])
  | String c s' =>
      let (h, t) := split s' in
      if Ascii.eqb c separatorChar then (EmptyString, cons_name h t)
      else (String c h, t)
  end.

(** The names of a path string; doubled and trailing separators give no
    name, as [java.io.File] normalises them away. *)
Definition segments (s : string) : list string :=
  let (h, t) := split s in cons_name h t.

Definition File := list string.

(** [File(String)] *)
Definition mkFile (pathname : string) : File := segments pathname.

(** [File(File parent, String child)]: the child is taken below the
    parent, also when it starts with a separator. *)
Definition mkFileIn (parent : File) (child : string) : File :=
  parent ++ segments child.

(** [File.getParentFile]; [null] at the top is modelled by the top itself,
    which is what [File(null, child)] then resolves against. *)
Definition parentFile (f : File) : File := removelast f.

(** [File.getName] *)
Definition fileName (f : File) : string := last f EmptyString.

(** Resolution of ["."] and [".."] against the names already resolved
    (kept innermost first). *)
Fixpoint resolve (acc : list string) (segs : list string) : list string :=
  match segs with
  | [] => rev acc
  | s :: r =>
      if String.eqb s "." then resolve acc r
      else if String.eqb s ".." then resolve (tl acc) r
      else resolve (s :: acc) r
  end.

(** [File.getCanonicalFile] *)
Definition canonicalFile (f : File) : File := resolve [] f.

Definition joinNames (p : list string) : string :=
  fold_right (fun s acc => String separatorChar (s ++ acc)%string) EmptyString p.

(** [File.getPath] of an absolute file: ["/a/b"], and ["/"] for the top. *)
Definition pathString (f : File) : string :=
  match f with
  | [] => String separatorChar EmptyString
  | _ => joinNames f
  end.

Definition canonicalPath (f : File) : string := pathString (canonicalFile f).
Definition absolutePath (f : File) : string := pathString f.

(** [File.isAbsolute]: the path string starts with the separator. *)
Definition isAbsolute (pathname : string) : bool :=
  match pathname with
  | String c _ => Ascii.eqb c separatorChar
  | EmptyString => false
  end.

(** Kotlin's [a.startsWith(b)] *)
Definition startsWith (a b : string) : bool := String.prefix b a.

(** [Path.relativize(...).toString()] for a file below the base: the
    remaining names joined by the separator. *)
Definition relativeString (rel : list string) : string :=
  match rel with
  | [] => EmptyString
  | s :: r => (s ++ joinNames r)%string
  end.

(** Kotlin's ["$index"] *)
Definition showIndex (n : nat) : string :=
  NilEmpty.string_of_uint (Nat.to_uint n).

(* ================================================================== *)
(** * The file-system tree *)

Definition bytes := list Byte.byte.

#[warnings="-register-all"]
Inductive node : Type :=
| FileN (data : bytes)
| DirN (kids : list (string * node)).

Fixpoint find_kid (s : string) (kids : list (string * node)) : option node :=
  match kids with
  | [] => None
  | (k, c) :: r => if String.eqb k s then Some c else find_kid s r
  end.

Definition remove_kid (s : string) (kids : list (string * node))
  : list (string * node) :=
  filter (fun kc => negb (String.eqb (fst kc) s)) kids.

Fixpoint replace_kid (s : string) (c : node) (kids : list (string * node))
  : list (string * node) :=
  match kids with
  | [] => [(s, c)]
  | (k, c0) :: r =>
      if String.eqb k s then (s, c) :: r else (k, c0) :: replace_kid s c r
  end.

Definition set_kid (s : string) (o : option node) (kids : list (string * node))
  : list (string * node) :=
  match o with
  | None => remove_kid s kids
  | Some c => replace_kid s c kids
  end.

Fixpoint lookup_o (p : File) (o : option node) : option node :=
  match p with
  | [] => o
  | s :: p' =>
      match o with
      | Some (DirN kids) => lookup_o p' (find_kid s kids)
      | _ => None
      end
  end.

(** Change what sits at [p]; nothing happens when the directory that
    should hold [p] is missing. *)
Fixpoint alter_o (p : File) (f : option node -> option node) (o : option node)
  : option node :=
  match p with
  | [] => f o
  | s :: p' =>
      match o with
      | Some (DirN kids) =>
          Some (DirN (set_kid s (alter_o p' f (find_kid s kids)) kids))
      | _ => o
      end
  end.

Fixpoint mkdirs_o (p : File) (o : option node) : option node :=
  match o with
  | None =>
      match p with
      | [] => Some (DirN [])
      | s :: p' => Some (DirN (set_kid s (mkdirs_o p' None) []))
      end
  | Some (FileN _) => o
  | Some (DirN kids) =>
      match p with
      | [] => o
      | s :: p' => Some (DirN (set_kid s (mkdirs_o p' (find_kid s kids)) kids))
      end
  end.

Definition unwrap (n : node) (o : option node) : node :=
  match o with Some n' => n' | None => n end.

Definition lookup (p : File) (fs : node) : option node := lookup_o p (Some fs).
Definition alter (p : File) (f : option node -> option node) (fs : node) : node :=
  unwrap fs (alter_o p f (Some fs)).

(** [File.exists], [File.isDirectory], [File.length] at canonical places.
    The length of a directory is left unspecified by the platform; it is 0
    here, as for a missing file. *)
Definition existsAt (p : File) (fs : node) : bool :=
  match lookup p fs with Some _ => true | None => false end.

Definition isDirectoryAt (p : File) (fs : node) : bool :=
  match lookup p fs with Some (DirN _) => true | _ => false end.

Definition isFileAt (p : File) (fs : node) : bool :=
  match lookup p fs with Some (FileN _) => true | _ => false end.

Definition lengthAt (p : File) (fs : node) : Z :=
  match lookup p fs with
  | Some (FileN d) => Z.of_nat (List.length d)
  | _ => 0%Z
  end.

(** [File.mkdirs]: the tree afterwards, and whether the directory was
    created by this call. *)
Definition mkdirsAt (p : File) (fs : node) : node * bool :=
  let fs' := unwrap fs (mkdirs_o p (Some fs)) in
  (fs', negb (existsAt p fs) && isDirectoryAt p fs').

(** [File.delete]: a file or an empty directory goes, anything else stays. *)
Definition delete_one (o : option node) : option node :=
  match o with
  | Some (FileN _) => None
  | Some (DirN []) => None
  | _ => o
  end.

Definition deleteAt (p : File) (fs : node) : node := alter p delete_one fs.

(** Kotlin's [File.deleteRecursively] *)
Definition deleteRecursivelyAt (p : File) (fs : node) : node :=
  alter p (fun _ => None) fs.

(** [FileOutputStream(file, false)]: creates or truncates the file; it
    throws where a directory sits or the parent is missing. *)
Definition open_one (o : option node) : option node :=
  match o with
  | Some (DirN _) => o
  | _ => Some (FileN [])
  end.

Definition openAt (p : File) (fs : node) : option node :=
  let fs' := alter p open_one fs in
  if isFileAt p fs' then Some fs' else None.

(** [FileOutputStream.write] *)
Definition append_one (d : bytes) (o : option node) : option node :=
  match o with
  | Some (FileN d0) => Some (FileN (d0 ++ d))
  | _ => o
  end.

Definition appendAt (p : File) (d : bytes) (fs : node) : node :=
  alter p (append_one d) fs.

Fixpoint isPrefixOf (p q : File) : bool :=
  match p, q with
  | [], _ => true
  | s :: p', t :: q' => String.eqb s t && isPrefixOf p' q'
  | _ :: _, [] => false
  end.

(** What [rename(2)] accepts as a target for [n]: nothing there, a file
    over a file, or a directory over an empty directory. *)
Definition replaceable (n : node) (o : option node) : bool :=
  match o, n with
  | None, _ => true
  | Some (FileN _), FileN _ => true
  | Some (DirN []), DirN _ => true
  | _, _ => false
  end.

(** [File.renameTo] and the move under [Files.move]: [None] when the
    platform refuses. *)
Definition renameAt (src dst : File) (fs : node) : option node :=
  match src, dst, lookup src fs with
  | _ :: _, _ :: _, Some n =>
      if isPrefixOf src dst then None
      else
        let fs1 := alter src (fun _ => None) fs in
        if isDirectoryAt (parentFile dst) fs1 && replaceable n (lookup dst fs1)
        then Some (alter dst (fun _ => Some n) fs1)
        else None
  | _, _, _ => None
  end.


(** The [java.io.File] operations: a file is found at its canonical place. *)
Definition File_exists (f : File) (fs : node) : bool :=
  existsAt (canonicalFile f) fs.

Definition File_isFile (f : File) (fs : node) : bool :=
  isFileAt (canonicalFile f) fs.

Definition File_delete (f : File) (fs : node) : node :=
  deleteAt (canonicalFile f) fs.

Definition File_deleteRecursively (f : File) (fs : node) : node :=
  deleteRecursivelyAt (canonicalFile f) fs.

Definition File_mkdirs (f : File) (fs : node) : node * bool :=
  mkdirsAt (canonicalFile f) fs.

Definition File_renameTo (src dst : File) (fs : node) : option node :=
  renameAt (canonicalFile src) (canonicalFile dst) fs.

(* ================================================================== *)
(** * The collaborators *)

(** The application context: the three application-owned directories,
    and the files that [getCanonicalFile] resolves when [isPathAllowed]
    asks (for the others it throws). *)
Record context : Type := {
  filesDir : File;
  cacheDir : File;
  getExternalFilesDir : option File;
  canonicalizesPath : File -> bool
}.

(** [net.sf.sevenzipjbinding.ExtractOperationResult]; the engine only
    tells [OK] from the rest. *)
Inductive ExtractOperationResult : Type :=
| OK | UNSUPPORTEDMETHOD | DATAERROR | CRCERROR.

Definition isOK (r : ExtractOperationResult) : bool :=
  match r with OK => true | _ => false end.

(** One call of the write callback: the data, and whether the stream
    accepts it ([false]: the write throws). *)
Record chunk : Type := {
  chunk_data : bytes;
  chunk_accepted : bool
}.

(** [ISimpleInArchiveItem], with what [extractSlow] does on it: the chunks
    it feeds, then either an exception or a result. *)
Record item : Type := {
  isFolder : bool;
  path : option string;
  fed : list chunk;
  extractThrows : bool;
  extractResult : ExtractOperationResult
}.

(** The places where the job polls [isActive]. *)
Inductive checkpoint : Type :=
| BeforeStaging
| AfterOpen
| AtEntry (index : nat)
| BeforeMove
| AtDelivery.

(** The three renames of the fallback strategy. *)
Inductive renameStep : Type := BackupAside | StagingIn | RestoreBackup.

(** One run of the platform and of the decoder under the job.
    [canonicalizes] tells the files that [getCanonicalFile] resolves when
    [isSafeEntryPath] asks (for the others it throws). *)
Record env : Type := {
  uuid : string;
  currentTimeMillis : nat;
  backupUuid : string;
  mkdirsPermitted : bool;
  openInArchive : option (list item);
  isActive : checkpoint -> bool;
  atomicMovePermitted : bool;
  renamePermitted : renameStep -> bool;
  canonicalizes : File -> bool
}.

(* ================================================================== *)
(** * The Android engine (UnarchiveModule.kt) *)

Record ExtractedFileInfo : Type := {
  fi_path : string;
  fi_name : string;
  fi_relativePath : string;
  fi_size : Z
}.

(** The diagnostics attached to a rejection ([partialFilesList] is only
    there in debug builds and is left out). *)
Record errorInfo : Type := {
  partialFilesCount : nat;
  tempPath : option string
}.

Inductive settlement : Type :=
| Resolved (files : list ExtractedFileInfo) (outputPath : string)
| Rejected (code : string) (userInfo : option errorInfo).

(** [isPathAllowed]: enforce the allowed output roots. *)
Definition allowedRoots (ctx : context) : list string :=
  canonicalPath (filesDir ctx) :: canonicalPath (cacheDir ctx) ::
  match getExternalFilesDir ctx with
  | Some d => [canonicalPath d]
  | None => []
  end.

(** The files that [isPathAllowed] makes canonical inside its [try]: the
    path and the roots. *)
Definition canonicalized (ctx : context) (path : string) : list File :=
  mkFile path :: filesDir ctx :: cacheDir ctx ::
  match getExternalFilesDir ctx with
  | Some d => [d]
  | None => []
  end.

Definition isPathAllowed (ctx : context) (path : string) : bool :=
  if forallb (canonicalizesPath ctx) (canonicalized ctx path) then
    let file := canonicalFile (mkFile path) in
    let canonicalPath := pathString file in
    existsb (fun root => startsWith canonicalPath root) (allowedRoots ctx)
  else false.

(** [isSafeEntryPath]: zip-slip sanitisation per entry. *)
(** [isSafeEntryPath]: zip-slip sanitisation per entry.  The [catch]
    answers [null] when one of the two canonicalisations throws. *)
Definition isSafeEntryPath (e : env) (entryPath : string) (tempDir : File)
  : option File :=
  if canonicalizes e (mkFileIn tempDir entryPath) && canonicalizes e tempDir
  then
    let destFile := canonicalFile (mkFileIn tempDir entryPath) in
    let tempDirCanonical :=
      (canonicalPath tempDir ++ String separatorChar EmptyString)%string in
    if negb (startsWith (pathString destFile) tempDirCanonical) then None
    else Some destFile
  else None.

Definition tryRename (e : env) (step : renameStep) (src dst : File) (fs : node)
  : option node :=
  if renamePermitted e step then File_renameTo src dst fs else None.

(** [atomicMoveOrFallback]: the atomic move first, then the
    rename-with-backup strategy. *)
Definition atomicMoveOrFallback (e : env) (source dest : File) (fs : node)
  : node * bool :=
  match (if atomicMovePermitted e then File_renameTo source dest fs else None) with
  | Some fs' => (fs', true)
  | None =>
      let backupFile :=
        if File_exists dest fs
        then Some (mkFileIn (parentFile dest)
                     (fileName dest ++ ".backup." ++ backupUuid e)%string)
        else None in
      let moveIn (fs1 : node) : node * bool :=
        match tryRename e StagingIn source dest fs1 with
        | None =>
            (match backupFile with
             | Some b =>
                 if File_exists b fs1
                 then match tryRename e RestoreBackup b dest fs1 with
                      | Some fs2 => fs2
                      | None => fs1
                      end
                 else fs1
             | None => fs1
             end, false)
        | Some fs2 =>
            (match backupFile with
             | Some b => File_delete b fs2
             | None => fs2
             end, true)
        end in
      match backupFile with
      | Some b =>
          match tryRename e BackupAside dest b fs with
          | None => (fs, false)
          | Some fs1 => moveIn fs1
          end
      | None => moveIn fs
      end
  end.

(** The write callback handed to [extractSlow]: the state is whether the
    single stream of the entry is open, and the tree. *)
Definition writeChunk (outputFile : File) (st : bool * node) (c : chunk)
  : bool * node :=
  let (fos, fs) := st in
  let cleanup (fs0 : node) : bool * node :=
    (false, if existsAt outputFile fs0 then deleteAt outputFile fs0 else fs0) in
  match (if fos then Some fs else openAt outputFile fs) with
  | None => cleanup fs
  | Some fs1 =>
      if chunk_accepted c then (true, appendAt outputFile (chunk_data c) fs1)
      else cleanup fs1
  end.

(** [Path.relativize] *)
Fixpoint relativize (base f : File) : list string :=
  match base, f with
  | [], _ => f
  | b :: base', s :: f' =>
      if String.eqb b s then relativize base' f'
      else map (fun _ => "..") base ++ f
  | _ :: _, [] => map (fun _ => "..") base
  end.

Definition describe (file base : File) (len : Z) : ExtractedFileInfo :=
  {| fi_path := absolutePath file;
     fi_name := fileName file;
     fi_relativePath := relativeString (relativize base file);
     fi_size := len |}.

(** The body of the loop for one non-folder item whose path passed the
    sanitiser ([outputFile] is canonical, hence absolute).  [absolute]
    tells whether [tempDir] is an absolute file: for a relative one
    [tempDir.toPath().relativize(outputFile.toPath())] throws an
    [IllegalArgumentException], the two paths being of different type, and
    the [catch] of the entry deletes the file just extracted. *)
Definition stageEntry (absolute : bool) (tempDir : File) (it : item)
    (outputFile : File)
    (extractedFilesList : list ExtractedFileInfo) (fs : node)
  : node * list ExtractedFileInfo :=
  let fs1 := fst (mkdirsAt (parentFile outputFile) fs) in
  let fs2 := if existsAt outputFile fs1 then deleteAt outputFile fs1 else fs1 in
  let (_, fs3) := fold_left (writeChunk outputFile) (fed it) (false, fs2) in
  if extractThrows it then
    (if existsAt outputFile fs3 then deleteAt outputFile fs3 else fs3,
     extractedFilesList)
  else if isOK (extractResult it) && existsAt outputFile fs3
          && (0 <? lengthAt outputFile fs3)%Z then
    if absolute then
      (fs3,
       extractedFilesList
       ++ [describe outputFile tempDir (lengthAt outputFile fs3)])
    else
      (if existsAt outputFile fs3 then deleteAt outputFile fs3 else fs3,
       extractedFilesList)
  else
    (if existsAt outputFile fs3 && (lengthAt outputFile fs3 =? 0)%Z
     then deleteAt outputFile fs3 else fs3,
     extractedFilesList).

Inductive staging : Type :=
| Staged (fs : node) (extractedFilesList : list ExtractedFileInfo)
| Aborted (code : string) (fs : node)
    (extractedFilesList : list ExtractedFileInfo).

Definition itemPath (index : nat) (it : item) : string :=
  match path it with
  | Some p => p
  | None => ("unknown_file_" ++ showIndex index)%string
  end.

(** [for ((index, item) in items.withIndex())] *)
Fixpoint stageItems (e : env) (absolute : bool) (tempDir : File)
    (index : nat)
    (items : list item) (extractedFilesList : list ExtractedFileInfo)
    (fs : node) : staging :=
  match items with
  | [] => Staged fs extractedFilesList
  | it :: rest =>
      if negb (isActive e (AtEntry index)) then
        Aborted "UNARCHIVE_CANCELLED" fs extractedFilesList
      else if negb (isFolder it) then
        match isSafeEntryPath e (itemPath index it) tempDir with
        | None => Aborted "UNARCHIVE_ENTRY_INVALID" fs extractedFilesList
        | Some outputFile =>
            let (fs', l') :=
              stageEntry absolute tempDir it outputFile extractedFilesList fs in
            stageItems e absolute tempDir (S index) rest l' fs'
        end
      else stageItems e absolute tempDir (S index) rest extractedFilesList fs
  end.

(** [enumerateFiles(dir, baseDir)], on the tree found at [dir]. *)
Fixpoint enumerateFiles (dir baseDir : File) (n : node)
  : list ExtractedFileInfo :=
  match n with
  | FileN _ => []
  | DirN kids =>
      flat_map
        (fun kc =>
           let file := dir ++ [fst kc] in
           match snd kc with
           | DirN _ => enumerateFiles file baseDir (snd kc)
           | FileN d => [describe file baseDir (Z.of_nat (List.length d))]
           end)
        kids
  end.

Definition enumerateFrom (outputDir : File) (fs : node)
  : list ExtractedFileInfo :=
  match lookup (canonicalFile outputDir) fs with
  | Some n => enumerateFiles outputDir outputDir n
  | None => []
  end.

Definition tempDirName (e : env) : string :=
  ("unarchive_temp_" ++ uuid e ++ "_" ++ showIndex (currentTimeMillis e))%string.

Definition tempDirOf (e : env) (outputPath : string) : File :=
  mkFileIn (parentFile (mkFile outputPath)) (tempDirName e).

(** Whether [tempDir], which is [File(outputDir.parentFile, tempDirName)],
    is an absolute file: the output path is absolute and has a parent. *)
Definition tempDirIsAbsolute (outputPath : string) : bool :=
  isAbsolute outputPath &&
  match mkFile outputPath with [] => false | _ => true end.

Definition diagnostics (l : list ExtractedFileInfo) (tempDir : File)
  : option errorInfo :=
  Some {| partialFilesCount := List.length l;
          tempPath := Some (absolutePath tempDir) |}.

(** The [try] block of the job: the tree it leaves, the value of
    [tempDir] when the block is left, and how the promise is settled. *)
Definition jobBody (e : env) (archivePath outputPath : string) (fs : node)
  : node * option File * settlement :=
  let archiveFile := mkFile archivePath in
  if negb (File_exists archiveFile fs) then
    (fs, None, Rejected "FILE_NOT_FOUND" None)
  else if negb (isActive e BeforeStaging) then
    (fs, None, Rejected "UNARCHIVE_CANCELLED" None)
  else
    let outputDir := mkFile outputPath in
    let tempDir := tempDirOf e outputPath in
    let (fs1, created) :=
      if mkdirsPermitted e then File_mkdirs tempDir fs else (fs, false) in
    if negb created then
      (fs1, Some tempDir, Rejected "TEMP_DIR_CREATION_FAILED" None)
    else
      match (if File_isFile archiveFile fs1 then openInArchive e else None) with
      | None =>
          (fs1, Some tempDir, Rejected "EXTRACTION_ERROR" (diagnostics [] tempDir))
      | Some items =>
          if negb (isActive e AfterOpen) then
            (fs1, Some tempDir, Rejected "UNARCHIVE_CANCELLED" None)
          else
            match
              stageItems e (tempDirIsAbsolute outputPath) tempDir 0 items []
                fs1
            with
            | Aborted code fs2 _ => (fs2, Some tempDir, Rejected code None)
            | Staged fs2 extractedFilesList =>
                if negb (isActive e BeforeMove) then
                  (fs2, Some tempDir, Rejected "UNARCHIVE_CANCELLED" None)
                else
                  let fs3 :=
                    if File_exists outputDir fs2
                    then File_deleteRecursively outputDir fs2 else fs2 in
                  let (fs4, moveSuccess) :=
                    atomicMoveOrFallback e tempDir outputDir fs3 in
                  if negb moveSuccess then
                    (fs4, Some tempDir,
                     Rejected "ATOMIC_MOVE_FAILED"
                       (diagnostics extractedFilesList tempDir))
                  else
                    let finalFilesList := enumerateFrom outputDir fs4 in
                    if negb (isActive e AtDelivery) then
                      (fs4, Some tempDir,
                       Rejected "EXTRACTION_ERROR"
                         (diagnostics extractedFilesList tempDir))
                    else (fs4, Some tempDir, Resolved finalFilesList outputPath)
            end
      end.

(** The module: the busy guard, the job reference and the device's tree. *)
Record module : Type := {
  activeExtraction : bool;
  currentJobRef : bool;
  disk : node
}.

(** The [finally] block of the job. *)
Definition jobFinally (tempDir : option File) (fs : node) : module :=
  let fs' :=
    match tempDir with
    | Some it => if File_exists it fs then File_deleteRecursively it fs else fs
    | None => fs
    end in
  {| activeExtraction := false; currentJobRef := false; disk := fs' |}.

(** The body of the launched job, [finally] block included, run to its
    end.  (A job that is cancelled before its body starts runs none of
    it: see [cancelUnarchive].) *)
Definition job (e : env) (archivePath outputPath : string) (m : module)
  : module * settlement :=
  let '(fs, tempDir, s) := jobBody e archivePath outputPath (disk m) in
  (jobFinally tempDir fs, s).

(** What a call of [unarchive] does before it returns, in order. *)
Inductive action : Type :=
| SetBusy (b : bool)
| Reject (code : string)
| Launch.

(** [unarchive], up to its return: the admission checks, the launch, and
    the store of the job at line 454 (for a job that has ended by then,
    see [requestEndingEarly]). *)
Definition unarchive (ctx : context) (archivePath outputPath : string)
    (m : module)
  : module * list action :=
  if activeExtraction m then (m, [Reject "UNARCHIVE_BUSY"])
  else
    if negb (isPathAllowed ctx outputPath) then
      ({| activeExtraction := false; currentJobRef := currentJobRef m;
          disk := disk m |},
       [SetBusy true; SetBusy false; Reject "UNARCHIVE_INVALID_PATH"])
    else
      ({| activeExtraction := true; currentJobRef := true; disk := disk m |},
       [SetBusy true; Launch]).

Definition launched (l : list action) : bool :=
  existsb (fun a => match a with Launch => true | _ => false end) l.

(** A whole request when nothing else runs in between. *)
Definition request (ctx : context) (e : env) (archivePath outputPath : string)
    (m : module) : module * list action * option settlement :=
  let (m1, acts) := unarchive ctx archivePath outputPath m in
  if launched acts then
    let (m2, s) := job e archivePath outputPath m1 in (m2, acts, Some s)
  else (m1, acts, None).

(* ================================================================== *)
(** * The iOS engine (Unarchive.mm): the part before the decoders *)

(** [-[NSString pathExtension]]: what follows the last period of the last
    path component; a period that opens the component does not count. *)
Fixpoint afterLastPeriod (s : string) : option string :=
  match s with
  | EmptyString => None
  | String c s' =>
      match afterLastPeriod s' with
      | Some e => Some e
      | None => if Ascii.eqb c "."%char then Some s' else None
      end
  end.

Definition pathExtension (p : string) : string :=
  match fileName (segments p) with
  | String _ rest =>
      match afterLastPeriod rest with
      | Some e => e
      | None => EmptyString
      end
  | EmptyString => EmptyString
  end.

Definition lowerChar (c : ascii) : ascii :=
  let n := nat_of_ascii c in
  if ((65 <=? n) && (n <=? 90))%nat then ascii_of_nat (n + 32) else c.

(** [-[NSString lowercaseString]] on ASCII letters *)
Fixpoint lowercaseString (s : string) : string :=
  match s with
  | EmptyString => EmptyString
  | String c s' => String (lowerChar c) (lowercaseString s')
  end.

(** [createDirectoryAtPath:withIntermediateDirectories:YES]: succeeds when
    the directory is there afterwards. *)
Definition createDirectoryAtPath (permitted : bool) (p : File) (fs : node)
  : node * bool :=
  if permitted then
    let fs' := fst (mkdirsAt (canonicalFile p) fs) in
    (fs', isDirectoryAt (canonicalFile p) fs')
  else (fs, false).

Definition fileExistsAtPath (p : File) (fs : node) : bool :=
  File_exists p fs.

Definition removeItemAtPath (p : File) (fs : node) : node :=
  File_deleteRecursively p fs.

Inductive format : Type := RarFamily | ZipFamily | Unsupported.

(** The dispatch on the lower-cased extension. *)
Definition formatOf (archivePath : string) : format :=
  let fileExtension := lowercaseString (pathExtension archivePath) in
  if String.eqb fileExtension "cbr" || String.eqb fileExtension "rar"
  then RarFamily
  else if String.eqb fileExtension "cbz" || String.eqb fileExtension "zip"
  then ZipFamily
  else Unsupported.

(** The first revision: no guard, no staging; the output directory is
    made before the format is looked at. *)
Module IOS1.
Section Engine.
(** [extractCBRFile] and [extractCBZFile] run UnrarKit and SSZipArchive;
    they are taken as given. *)
Variable extractCBRFile : string -> string -> node -> node * settlement.
Variable extractCBZFile : string -> string -> node -> node * settlement.

Definition unarchive (createPermitted : bool)
    (archivePath outputPath : string) (fs : node) : node * settlement :=
  if negb (fileExistsAtPath (mkFile archivePath) fs) then
    (fs, Rejected "FILE_NOT_FOUND" None)
  else
    let (fs1, created) :=
      createDirectoryAtPath createPermitted (mkFile outputPath) fs in
    if negb created then (fs1, Rejected "DIRECTORY_ERROR" None)
    else
      match formatOf archivePath with
      | RarFamily => extractCBRFile archivePath outputPath fs1
      | ZipFamily => extractCBZFile archivePath outputPath fs1
      | Unsupported => (fs1, Rejected "UNSUPPORTED_FORMAT" None)
      end.
End Engine.

(** The ZIP path of the first revision.  [unzip] is what SSZipArchive
    leaves of the tree, [unzipSucceeds] its answer, [directorySize] the
    [NSFileSize] that the platform reports for a directory. *)
Record run : Type := {
  unzip : node -> node;
  unzipSucceeds : bool;
  directorySize : Z
}.

(** The dictionary returned for an entry: [path], [name] and [size].  The
    first revision has no [relativePath]. *)
Record FileInfo : Type := {
  f_path : string;
  f_name : string;
  f_size : Z
}.

Inductive result : Type :=
| Listed (files : list FileInfo) (outputPath : string)
| Failed (code : string).

(** [contentsOfDirectoryAtPath:error:]: the names right under the
    directory; an error when no directory is there. *)
Definition contentsOfDirectoryAtPath (p : File) (fs : node)
  : option (list string) :=
  match lookup (canonicalFile p) fs with
  | Some (DirN kids) => Some (map fst kids)
  | _ => None
  end.

(** [attributes[NSFileSize] ?: @0] *)
Definition fileSize (r : run) (p : File) (fs : node) : Z :=
  match lookup (canonicalFile p) fs with
  | Some (FileN d) => Z.of_nat (List.length d)
  | Some (DirN _) => directorySize r
  | None => 0%Z
  end.

(** [extractCBZFile:outputPath:resolve:reject:] *)
Definition extractCBZFile (r : run) (archivePath outputPath : string)
    (fs : node) : node * result :=
  let fs1 := unzip r fs in
  if negb (unzipSucceeds r) then (fs1, Failed "EXTRACTION_ERROR")
  else
    match contentsOfDirectoryAtPath (mkFile outputPath) fs1 with
    | None => (fs1, Failed "LIST_ERROR")
    | Some contents =>
        (fs1,
         Listed
           (map (fun filename =>
                   let filePath := mkFileIn (mkFile outputPath) filename in
                   {| f_path := absolutePath filePath;
                      f_name := filename;
                      f_size := fileSize r filePath fs1 |})
              contents)
           outputPath)
    end.
End IOS1.

(** The hardened revision: busy guard, sandbox check, staging directory. *)
Module IOS.

Record module : Type := {
  activeExtraction : bool;
  cancellationRequested : bool;
  currentTempPath : option File;
  disk : node
}.

Record sandbox : Type := {
  documentsPath : string;
  cachesPath : string;
  tmpPath : string
}.

Record env : Type := {
  uuid : string;
  seconds : nat;
  createPermitted : bool;
  cancellationSeen : bool
}.

(** [URLByStandardizingPath] then [path] *)
Definition standardizedPath (p : string) : string := canonicalPath (mkFile p).

(** [hasPrefix:] *)
Definition hasPrefix (s p : string) : bool := String.prefix p s.

Definition isOutputPathInSandbox (sb : sandbox) (outputPath : string) : bool :=
  let canonicalOutput := standardizedPath outputPath in
  let isInDocuments := hasPrefix canonicalOutput (standardizedPath (documentsPath sb)) in
  let isInCaches := hasPrefix canonicalOutput (standardizedPath (cachesPath sb)) in
  let isInTmp := hasPrefix canonicalOutput (standardizedPath (tmpPath sb)) in
  negb (negb isInDocuments && negb isInCaches && negb isInTmp).

(** [unarchive:outputPath:resolve:reject:] up to the dispatch of the
    worker block. *)
Definition unarchive (sb : sandbox) (archivePath outputPath : string)
    (m : module)
  : module * list action :=
  if activeExtraction m then (m, [Reject "UNARCHIVE_BUSY"])
  else
    if negb (isOutputPathInSandbox sb outputPath) then
      ({| activeExtraction := false; cancellationRequested := false;
          currentTempPath := currentTempPath m; disk := disk m |},
       [SetBusy true; SetBusy false; Reject "UNARCHIVE_INVALID_PATH"])
    else
      ({| activeExtraction := true; cancellationRequested := false;
          currentTempPath := currentTempPath m; disk := disk m |},
       [SetBusy true; Launch]).

Definition tempDirName (e : env) : string :=
  (".unarchive_temp_" ++ uuid e ++ "_" ++ showIndex (seconds e))%string.

(** [stringByDeletingLastPathComponent] and
    [stringByAppendingPathComponent:] *)
Definition tempPathOf (e : env) (outputPath : string) : File :=
  mkFileIn (parentFile (mkFile outputPath)) (tempDirName e).

Section Worker.
Variable extractCBRFile :
  string -> File -> string -> module -> module * settlement.
Variable extractCBZFile :
  string -> File -> string -> module -> module * settlement.

(** The worker block.  [m] is the module as the block finds it;
    [cancellationSeen] is what the block reads from the cancellation
    flag after the staging directory is made. *)
Definition worker (e : env) (archivePath outputPath : string) (m : module)
  : module * settlement :=
  if negb (fileExistsAtPath (mkFile archivePath) (disk m)) then
    ({| activeExtraction := false;
        cancellationRequested := cancellationRequested m;
        currentTempPath := currentTempPath m; disk := disk m |},
     Rejected "FILE_NOT_FOUND" None)
  else
    let tempPath := tempPathOf e outputPath in
    let (fs1, created) :=
      createDirectoryAtPath (createPermitted e) tempPath (disk m) in
    let m1 := {| activeExtraction := activeExtraction m;
                 cancellationRequested := cancellationRequested m;
                 currentTempPath := Some tempPath; disk := fs1 |} in
    if negb created then
      ({| activeExtraction := false;
          cancellationRequested := cancellationRequested m;
          currentTempPath := None; disk := fs1 |},
       Rejected "DIRECTORY_ERROR" None)
    else if cancellationSeen e then
      ({| activeExtraction := false;
          cancellationRequested := cancellationRequested m;
          currentTempPath := None; disk := removeItemAtPath tempPath fs1 |},
       Rejected "UNARCHIVE_CANCELLED" None)
    else
      match formatOf archivePath with
      | RarFamily => extractCBRFile archivePath tempPath outputPath m1
      | ZipFamily => extractCBZFile archivePath tempPath outputPath m1
      | Unsupported =>
          ({| activeExtraction := false;
              cancellationRequested := cancellationRequested m;
              currentTempPath := None;
              disk := removeItemAtPath tempPath fs1 |},
           Rejected "UNSUPPORTED_FORMAT" None)
      end.
End Worker.
End IOS.

(* ================================================================== *)
(** * Notions used to state the properties *)

Fixpoint noSlash (s : string) : bool :=
  match s with
  | EmptyString => true
  | String c s' => negb (Ascii.eqb c separatorChar) && noSlash s'
  end.

(** A name as it occurs in a path: not empty, no separator in it. *)
Definition plainName (s : string) : Prop :=
  s <> EmptyString /\ noSlash s = true.

Definition notDots (s : string) : bool :=
  negb (String.eqb s ".") && negb (String.eqb s "..").

(** [f] lies under the directory [root], at one level or more. *)
Definition strictlyBelow (root f : File) : Prop :=
  exists rel, rel <> [] /\ f = root ++ rel.

Definition isStrictlyBelow (root f : File) : bool :=
  isPrefixOf root f && negb (List.length f =? List.length root)%nat.

(** The entry path, joined to the staging root and made canonical, does
    not remain under the staging root. *)
Definition escapes (tempDir : File) (entryPath : string) : bool :=
  negb (isStrictlyBelow (canonicalFile tempDir)
          (canonicalFile (mkFileIn tempDir entryPath))).

(** The sandbox validator as the specification words it: the canonical
    output path has a canonical allowed root as a directory prefix, or is
    that root. *)
Definition allowedRootFiles (ctx : context) : list File :=
  canonicalFile (filesDir ctx) :: canonicalFile (cacheDir ctx) ::
  match getExternalFilesDir ctx with
  | Some d => [canonicalFile d]
  | None => []
  end.

Definition validate (ctx : context) (path : string) : bool :=
  existsb (fun root => isPrefixOf root (canonicalFile (mkFile path)))
    (allowedRootFiles ctx).

(** A regular file with content [d] sits in the tree at the relative
    path [rel]. *)
Inductive fileIn : node -> list string -> bytes -> Prop :=
| fileIn_here : forall kids s d,
    In (s, FileN d) kids -> fileIn (DirN kids) [s] d
| fileIn_below : forall kids s kids' rel d,
    In (s, DirN kids') kids -> fileIn (DirN kids') rel d ->
    fileIn (DirN kids) (s :: rel) d.

(** Between [fs] and [fs'] only what lies under the directory [s] has
    changed, and [s] is still a directory. *)
Definition confined (s : File) (fs fs' : node) : Prop :=
  isDirectoryAt s fs' = true /\
  deleteRecursivelyAt s fs' = deleteRecursivelyAt s fs.

(** No non-folder item of [items] (numbered from [index]) is extracted to
    [target] or below it. *)
Fixpoint clearOf (e : env) (target tempDir : File) (index : nat)
    (items : list item) : bool :=
  match items with
  | [] => true
  | it :: rest =>
      (isFolder it ||
       match isSafeEntryPath e (itemPath index it) tempDir with
       | Some outputFile => negb (isPrefixOf target outputFile)
       | None => true
       end)
      && clearOf e target tempDir (S index) rest
  end.


(** All the bytes the decoder feeds for an item, when every write is
    accepted. *)
Definition allAccepted (it : item) : bool :=
  forallb chunk_accepted (fed it).

Definition fedData (it : item) : bytes :=
  flat_map chunk_data (fed it).

Definition cooperative (e : env) : Prop :=
  forall c, isActive e c = true.

(** The tree a staging pass leaves, however it ends. *)
Definition stagingTree (r : staging) : node :=
  match r with
  | Staged fs _ => fs
  | Aborted _ fs _ => fs
  end.

(** A change at one place that never turns it into a directory with
    content and never touches a directory that has content. *)
Definition gentle (f : option node -> option node) : Prop :=
  forall o,
    f o = o \/
    ((f o = None \/ exists d, f o = Some (FileN d)) /\
     (o = None \/ (exists d, o = Some (FileN d)) \/ o = Some (DirN []))).

(** [fs'] comes from [fs] by what the engine does for one entry: gentle
    changes at the entry's file and [mkdirs] of its parent. *)
Inductive worksAt (out : File) (fs : node) : node -> Prop :=
| worksAt_refl : worksAt out fs fs
| worksAt_alter : forall fs' f,
    gentle f -> worksAt out fs fs' -> worksAt out fs (alter out f fs')
| worksAt_mkdirs : forall fs',
    worksAt out fs fs' ->
    worksAt out fs (fst (mkdirsAt (parentFile out) fs')).

(** Some non-folder item of the archive declares a path that escapes. *)
Definition hasUnsafeEntry (tempDir : File) (items : list item) : bool :=
  existsb
    (fun it =>
       negb (isFolder it) &&
       match path it with
       | Some p => escapes tempDir p
       | None => false
       end)
    items.

(* ================================================================== *)
(** * Sample data for the worked cases *)

Module Sample.

Definition ctx : context :=
  {| filesDir := mkFile "/data/user/0/com.app/files";
     cacheDir := mkFile "/data/user/0/com.app/cache";
     getExternalFilesDir := Some (mkFile "/storage/emulated/0/Android/data/com.app/files");
     canonicalizesPath := fun _ => true |}.

Definition b (n : nat) : bytes := repeat Byte.x2a n.

Definition accepted (d : bytes) : chunk :=
  {| chunk_data := d; chunk_accepted := true |}.

Definition fileItem (p : string) (d : bytes) : item :=
  {| isFolder := false; path := Some p; fed := [accepted d];
     extractThrows := false; extractResult := OK |}.


Definition namelessItem (d : bytes) : item :=
  {| isFolder := false; path := None; fed := [accepted d];
     extractThrows := false; extractResult := OK |}.

Definition failedItem (p : string) (d : bytes) : item :=
  {| isFolder := false; path := Some p; fed := [accepted d];
     extractThrows := false; extractResult := CRCERROR |}.

(** A run in which nothing fails and nobody cancels. *)
Definition calm (items : list item) : env :=
  {| uuid := "6f1c"; currentTimeMillis := 1700; backupUuid := "9a2e";
     mkdirsPermitted := true; openInArchive := Some items;
     isActive := fun _ => true;
     atomicMovePermitted := true; renamePermitted := fun _ => true;
     canonicalizes := fun _ => true |}.

(** The same, on a platform that refuses to move the staging directory. *)
Definition stuck (items : list item) : env :=
  {| uuid := "6f1c"; currentTimeMillis := 1700; backupUuid := "9a2e";
     mkdirsPermitted := true; openInArchive := Some items;
     isActive := fun _ => true;
     atomicMovePermitted := false; renamePermitted := fun _ => false;
     canonicalizes := fun _ => true |}.

Definition appDir (kids : list (string * node)) : node :=
  DirN [("data", DirN [("user", DirN [("0", DirN [("com.app",
        DirN [("files", DirN kids); ("cache", DirN [])])])])])].

Definition archivePath : string := "/data/user/0/com.app/files/in.zip".
Definition outputPath : string := "/data/user/0/com.app/files/out".

(** The archive is there, the destination is not. *)
Definition fresh : node := appDir [("in.zip", FileN (b 4))].

(** The archive is there and the destination holds an earlier result. *)
Definition used : node :=
  appDir [("in.zip", FileN (b 4)); ("out", DirN [("old.txt", FileN (b 7))])].

Definition idle (fs : node) : module :=
  {| activeExtraction := false; currentJobRef := false; disk := fs |}.

Definition roundTrip : list item :=
  [fileItem "a.txt" (b 5); fileItem "dir/b.txt" (b 10)].

(** An archive whose second item declares no path. *)
Definition withNameless : list item :=
  [fileItem "a.txt" (b 5); namelessItem (b 6); fileItem "c.txt" (b 2)].

(** The destination written with a closing dot name. *)
Definition dottedPath : string := "/data/user/0/com.app/files/out/.".

(** A destination next to the files directory, with a name that starts
    like it. *)
Definition siblingPath : string := "/data/user/0/com.app/files_evil/out".

(** iOS: the Documents directory with a tar file in it; the worker block
    runs with the guard taken. *)
Definition documents : node :=
  DirN [("Documents", DirN [("in.tar", FileN (b 4))])].

Definition working (fs : node) : IOS.module :=
  {| IOS.activeExtraction := true; IOS.cancellationRequested := false;
     IOS.currentTempPath := None; IOS.disk := fs |}.

Definition iosEnv : IOS.env :=
  {| IOS.uuid := "6F1C"; IOS.seconds := 1700;
     IOS.createPermitted := true; IOS.cancellationSeen := false |}.

(** Stand-ins for the two decoder paths, which the cases below never
    reach. *)
Definition noDecoder (a : string) (t : File) (o : string) (m : IOS.module)
  : IOS.module * settlement := (m, Rejected "EXTRACTION_ERROR" None).

Definition noDecoder1 (a o : string) (fs : node) : node * settlement :=
  (fs, Rejected "EXTRACTION_ERROR" None).

End Sample.

(* ================================================================== *)
(** * The rest of the Android engine: the single-callback guard and the
      cancellation; notions for the further properties *)

(** The chunks fed since the last write that was refused: the longest
    closing run of accepted chunks. *)
Fixpoint sinceRefusal (chunks : list chunk) : list chunk :=
  match chunks with
  | [] => []
  | c :: r => if forallb chunk_accepted (c :: r) then c :: r else sinceRefusal r
  end.

(** The output path ends in a proper name: not a dot name and not the
    staging name of the request (whose UUID text holds no separator). *)
Definition destinationNamed (e : env) (outputPath : string) : bool :=
  noSlash (uuid e) &&
  match mkFile outputPath with [] => false | _ => true end &&
  notDots (fileName (mkFile outputPath)) &&
  negb (String.eqb (fileName (mkFile outputPath)) (tempDirName e)).

(** The setting the engine is written for: the output path ends in a
    proper name, the directory that is to hold the destination is there,
    and nothing sits at the staging name yet. *)
Definition plainDestination (e : env) (outputPath : string) (fs : node)
  : bool :=
  destinationNamed e outputPath &&
  isDirectoryAt (canonicalFile (parentFile (mkFile outputPath))) fs &&
  negb (File_exists (tempDirOf e outputPath) fs).

(** The module at rest over a tree. *)
Definition atRest (fs : node) : module :=
  {| activeExtraction := false; currentJobRef := false; disk := fs |}.

(** The rejections that the job issues before it gets to the commit. *)
Definition beforeCommit : list string :=
  ["FILE_NOT_FOUND"; "UNARCHIVE_CANCELLED"; "TEMP_DIR_CREATION_FAILED";
   "UNARCHIVE_ENTRY_INVALID"].

(** The name the fallback gives to the backup of the destination. *)
Definition backupName (e : env) (dest : File) : string :=
  (fileName dest ++ ".backup." ++ backupUuid e)%string.

(** One invocation's promise behind its single-callback guard: the flag
    [cbInvoked], and what has been handed to the promise so far. *)
Record invocation : Type := {
  cbInvoked : bool;
  handed : list settlement
}.

Definition newInvocation : invocation :=
  {| cbInvoked := false; handed := [] |}.

(** [resolveOnce] and [rejectOnce]: the call goes through when
    [compareAndSet(false, true)] succeeds. *)
Definition resolveOnce (files : list ExtractedFileInfo) (outputPath : string)
    (p : invocation) : invocation :=
  if cbInvoked p then p
  else {| cbInvoked := true;
          handed := handed p ++ [Resolved files outputPath] |}.

Definition rejectOnce (code : string) (userInfo : option errorInfo)
    (p : invocation) : invocation :=
  if cbInvoked p then p
  else {| cbInvoked := true;
          handed := handed p ++ [Rejected code userInfo] |}.

(** A settlement as the call that attempts it. *)
Definition attempt (p : invocation) (s : settlement) : invocation :=
  match s with
  | Resolved files outputPath => resolveOnce files outputPath p
  | Rejected code userInfo => rejectOnce code userInfo p
  end.

(** The state of the coroutine that [currentJobRef] refers to when
    [cancelUnarchive] reads the reference.  [launch] only schedules the
    body on the IO dispatcher: a coroutine that is cancelled before the
    dispatcher has started it never runs its body, the [try] and its
    [finally] block included.  A finished job is found when the job ended
    before line 454 stored it (see [requestEndingEarly]). *)
Inductive jobState : Type :=
| Pending
| Running
| Finished.

(** [cancelUnarchive].  Without a job reference it resolves
    [cancelled: false] and touches nothing.  Otherwise it cancels the job
    and joins it, then resolves [cancelled: true].  For a job whose body
    is running, the job in flight is the request for [archivePath] and
    [outputPath] in the environment [e]: [job.cancel()] is seen by the job
    at the polls of [isActive] that [e] answers with [false], and
    [job.join()] is its run to the end.  For a job that has not started
    or is over, [cancel] and [join] return with nothing run.  The result
    gives the module, how the promise of the request in flight was settled
    if it was, and the [cancelled] flag. *)
Definition cancelUnarchive (st : jobState) (e : env)
    (archivePath outputPath : string)
    (m : module) : module * option settlement * bool :=
  if currentJobRef m then
    match st with
    | Running =>
        let (m', s) := job e archivePath outputPath m in (m', Some s, true)
    | Pending | Finished => (m, None, true)
    end
  else (m, None, false).


(** The same request in a run whose poll at the delivery of the result
    answers [b]. *)
Definition withDelivery (b : bool) (e : env) : env :=
  {| uuid := uuid e; currentTimeMillis := currentTimeMillis e;
     backupUuid := backupUuid e; mkdirsPermitted := mkdirsPermitted e;
     openInArchive := openInArchive e;
     isActive := fun c => match c with AtDelivery => b | _ => isActive e c end;
     atomicMovePermitted := atomicMovePermitted e;
     renamePermitted := renamePermitted e;
     canonicalizes := canonicalizes e |}.

(* ================================================================== *)
(** * The iOS engine, hardened revision: the decoder paths, the listing
      and the cancellation *)

Module IOSDecode.

(** The places where the decoder paths read the cancellation flag. *)
Inductive poll : Type :=
| AfterOpening
| BeforeValidation
| BeforeExtraction
| AfterExtraction
| AfterEnumeration.

(** One run of the libraries and of the platform under the decoder paths:
    UnrarKit's [initWithPath:], [listFilenames:] and [extractFilesTo:],
    SSZipArchive's [unzipFileAtPath:toDestination:], the reads of the
    cancellation flag, [replaceItemAtURL:] and [moveItemAtURL:].  The
    decoders write under the staging directory they are given:
    [extracted] is what it holds when they return.
    [isSafePath:withinBaseURL:] rests on Foundation's path standardisation
    and is taken as given. *)
Record run : Type := {
  opens : bool;
  listFilenames : option (list string);
  isSafePath : string -> bool;
  extracted : list (string * node);
  extractionSucceeds : bool;
  cancellationRequestedAt : poll -> bool;
  replacePermitted : bool;
  movePermitted : bool
}.

(** [NSDirectoryEnumerator]: the relative paths of all that lies under a
    directory, every directory before what it holds. *)
Fixpoint enumeratorAtPath (n : node) : list (list string) :=
  match n with
  | FileN _ => []
  | DirN kids =>
      flat_map
        (fun kc =>
           [fst kc] :: map (cons (fst kc)) (enumeratorAtPath (snd kc)))
        kids
  end.

(** [enumerateFilesRecursively:baseDirectory:fileManager:error:] *)
Definition enumerateFilesRecursively (directoryPath baseDirectory : File)
    (fs : node) : list ExtractedFileInfo :=
  match lookup (canonicalFile directoryPath) fs with
  | Some n =>
      flat_map
        (fun rel =>
           let relativePath := relativeString rel in
           let fullPath := mkFileIn directoryPath relativePath in
           match lookup (canonicalFile fullPath) fs with
           | Some (FileN d) =>
               [{| fi_path := absolutePath (mkFileIn baseDirectory relativePath);
                   fi_name := fileName (mkFile relativePath);
                   fi_relativePath := relativePath;
                   fi_size := Z.of_nat (List.length d) |}]
           | _ => []
           end)
        (enumeratorAtPath n)
  | None => []
  end.

(** The end of every failing path: the staging directory is removed, the
    rejection goes out, the guard is released and the staging path
    forgotten.  (The [NSError] payloads are left out.) *)
Definition rejected (code : string) (tempPath : File) (m : IOS.module)
    (fs : node) : IOS.module * settlement :=
  ({| IOS.activeExtraction := false;
      IOS.cancellationRequested := IOS.cancellationRequested m;
      IOS.currentTempPath := None;
      IOS.disk := removeItemAtPath tempPath fs |},
   Rejected code None).

(** The tree when the decoder returns. *)
Definition decoded (r : run) (tempPath : File) (fs : node) : node :=
  alter (canonicalFile tempPath) (fun _ => Some (DirN (extracted r))) fs.

(** [replaceItemAtURL:withItemAtURL:...]: the item at the staging path
    takes the place of the item at the destination. *)
Definition replaceItemAt (tempPath outputPath : File) (fs : node)
  : option node :=
  let tc := canonicalFile tempPath in
  let oc := canonicalFile outputPath in
  match lookup tc fs with
  | Some n =>
      if isPrefixOf tc oc || isPrefixOf oc tc then None
      else
        let fs1 := alter tc (fun _ => None) fs in
        if isDirectoryAt (parentFile oc) fs1
        then Some (alter oc (fun _ => Some n) fs1)
        else None
  | None => None
  end.

(** The atomic replacement at the end of both decoder paths. *)
Definition replaceOrMove (r : run) (tempPath outputPath : File) (fs : node)
  : option node :=
  if fileExistsAtPath outputPath fs then
    if replacePermitted r then replaceItemAt tempPath outputPath fs else None
  else
    if movePermitted r then File_renameTo tempPath outputPath fs else None.

(** The common end of both decoder paths, from the listing on. *)
Definition deliver (r : run) (tempPath : File) (outputPath : string)
    (m : IOS.module) (fs : node) : IOS.module * settlement :=
  let extractedFiles :=
    enumerateFilesRecursively tempPath (mkFile outputPath) fs in
  if (List.length extractedFiles =? 0)%nat then
    rejected "LIST_ERROR" tempPath m fs
  else if cancellationRequestedAt r AfterEnumeration then
    rejected "UNARCHIVE_CANCELLED" tempPath m fs
  else
    match replaceOrMove r tempPath (mkFile outputPath) fs with
    | Some fs' =>
        ({| IOS.activeExtraction := false;
            IOS.cancellationRequested := IOS.cancellationRequested m;
            IOS.currentTempPath := None;
            IOS.disk := fs' |},
         Resolved extractedFiles outputPath)
    | None => rejected "ATOMIC_REPLACE_ERROR" tempPath m fs
    end.

(** The post-extraction validation of the ZIP path: some item under the
    staging directory has a canonical path that does not start with the
    canonical staging path. *)
Definition escaped (tempPath : File) (fs : node) : bool :=
  match lookup (canonicalFile tempPath) fs with
  | Some n =>
      negb (forallb
              (fun rel =>
                 IOS.hasPrefix (canonicalPath (tempPath ++ rel))
                   (canonicalPath tempPath))
              (enumeratorAtPath n))
  | None => false
  end.

(** [extractCBZFile:tempPath:outputPath:...] *)
Definition extractCBZFile (r : run) (archivePath : string) (tempPath : File)
    (outputPath : string) (m : IOS.module) : IOS.module * settlement :=
  let fs := decoded r tempPath (IOS.disk m) in
  if negb (extractionSucceeds r) then
    rejected "EXTRACTION_ERROR" tempPath m fs
  else if cancellationRequestedAt r AfterExtraction then
    rejected "UNARCHIVE_CANCELLED" tempPath m fs
  else if escaped tempPath fs then
    rejected "UNSAFE_PATH" tempPath m fs
  else deliver r tempPath outputPath m fs.

(** [extractCBRFile:tempPath:outputPath:...] *)
Definition extractCBRFile (r : run) (archivePath : string) (tempPath : File)
    (outputPath : string) (m : IOS.module) : IOS.module * settlement :=
  if negb (opens r) then
    rejected "ARCHIVE_ERROR" tempPath m (IOS.disk m)
  else if cancellationRequestedAt r AfterOpening then
    rejected "UNARCHIVE_CANCELLED" tempPath m (IOS.disk m)
  else
    match listFilenames r with
    | None => rejected "LIST_ERROR" tempPath m (IOS.disk m)
    | Some filenames =>
        if cancellationRequestedAt r BeforeValidation then
          rejected "UNARCHIVE_CANCELLED" tempPath m (IOS.disk m)
        else if negb (forallb (isSafePath r) filenames) then
          rejected "UNSAFE_PATH" tempPath m (IOS.disk m)
        else if cancellationRequestedAt r BeforeExtraction then
          rejected "UNARCHIVE_CANCELLED" tempPath m (IOS.disk m)
        else
          let fs := decoded r tempPath (IOS.disk m) in
          if extractionSucceeds r then deliver r tempPath outputPath m fs
          else rejected "EXTRACTION_ERROR" tempPath m fs
    end.

(** The worker block with its two decoder paths. *)
Definition worker (e : IOS.env) (r : run) (archivePath outputPath : string)
    (m : IOS.module) : IOS.module * settlement :=
  IOS.worker (extractCBRFile r) (extractCBZFile r) e archivePath outputPath m.

(** [cancelUnarchive:reject:], at the call: the flag is set. *)
Definition cancelUnarchive (m : IOS.module) : IOS.module :=
  {| IOS.activeExtraction := IOS.activeExtraction m;
     IOS.cancellationRequested := true;
     IOS.currentTempPath := IOS.currentTempPath m;
     IOS.disk := IOS.disk m |}.

(** [cancelUnarchive:reject:], the block that runs half a second later: a
    staging directory still on record is removed, and the promise is
    resolved; the second component is the [cancelled] flag of the answer. *)
Definition cancelUnarchiveLater (m : IOS.module) : IOS.module * bool :=
  ({| IOS.activeExtraction := IOS.activeExtraction m;
      IOS.cancellationRequested := IOS.cancellationRequested m;
      IOS.currentTempPath := IOS.currentTempPath m;
      IOS.disk :=
        match IOS.currentTempPath m with
        | Some tempPath =>
            if fileExistsAtPath tempPath (IOS.disk m)
            then removeItemAtPath tempPath (IOS.disk m)
            else IOS.disk m
        | None => IOS.disk m
        end |},
   true).

(** The setting the engine is written for, as for Android: the output
    path ends in a proper name, its parent directory is there, and the
    staging name is free. *)
Definition destinationNamed (e : IOS.env) (outputPath : string) : bool :=
  noSlash (IOS.uuid e) &&
  match mkFile outputPath with [] => false | _ => true end &&
  notDots (fileName (mkFile outputPath)) &&
  negb (String.eqb (fileName (mkFile outputPath)) (IOS.tempDirName e)).

Definition plainDestination (e : IOS.env) (outputPath : string) (fs : node)
  : bool :=
  destinationNamed e outputPath &&
  isDirectoryAt (canonicalFile (parentFile (mkFile outputPath))) fs &&
  negb (fileExistsAtPath (IOS.tempPathOf e outputPath) fs).

(** The module after a request is settled: guard released, with the
    staging path [temp] on record over the tree [fs]. *)
Definition settled (m : IOS.module) (temp : option File) (fs : node)
  : IOS.module :=
  {| IOS.activeExtraction := false;
     IOS.cancellationRequested := IOS.cancellationRequested m;
     IOS.currentTempPath := temp;
     IOS.disk := fs |}.

End IOSDecode.

(** No name occurs twice. *)
Fixpoint distinctNames (names : list string) : bool :=
  match names with
  | [] => true
  | s :: r => negb (existsb (String.eqb s) r) && distinctNames r
  end.

(** A tree as a file system holds it: every name is a proper name (not
    empty, without separator, not a dot name), and no directory has two
    entries of one name. *)
Fixpoint properTree (n : node) : bool :=
  match n with
  | FileN _ => true
  | DirN kids =>
      distinctNames (map fst kids) &&
      forallb
        (fun kc =>
           negb (String.eqb (fst kc) EmptyString) && noSlash (fst kc)
           && notDots (fst kc) && properTree (snd kc))
        kids
  end.

(** Further sample data. *)
Module Cases.

(** A run in which every poll of [isActive] finds the job cancelled. *)
Definition cancelled (items : list item) : env :=
  {| uuid := "6f1c"; currentTimeMillis := 1700; backupUuid := "9a2e";
     mkdirsPermitted := true; openInArchive := Some items;
     isActive := fun _ => false;
     atomicMovePermitted := true; renamePermitted := fun _ => true;
     canonicalizes := fun _ => true |}.

(** The module with a job in flight. *)
Definition busy (fs : node) : module :=
  {| activeExtraction := true; currentJobRef := true; disk := fs |}.

(** A platform on which the staging directory cannot be renamed to the
    destination, while the other renames go through. *)
Definition noStagingIn (items : list item) : env :=
  {| uuid := "6f1c"; currentTimeMillis := 1700; backupUuid := "9a2e";
     mkdirsPermitted := true; openInArchive := Some items;
     isActive := fun _ => true;
     atomicMovePermitted := false;
     renamePermitted := fun step =>
       match step with StagingIn => false | _ => true end;
     canonicalizes := fun _ => true |}.

Definition refused (d : bytes) : chunk :=
  {| chunk_data := d; chunk_accepted := false |}.

(** An entry in whose extraction the second write is refused. *)
Definition interrupted : item :=
  {| isFolder := false; path := Some "a.bin";
     fed := [Sample.accepted (Sample.b 5); refused (Sample.b 2);
             Sample.accepted (Sample.b 3)];
     extractThrows := false; extractResult := OK |}.

(** The files directory with an earlier result at [out] and a staged tree
    next to it. *)
Definition files : File := ["data"; "user"; "0"; "com.app"; "files"].

Definition staged : node :=
  Sample.appDir
    [("in.zip", FileN (Sample.b 4));
     ("out", DirN [("old.txt", FileN (Sample.b 7))]);
     ("stage", DirN [("a.txt", FileN (Sample.b 5))])].

(** iOS: the Documents directory with a ZIP archive and an earlier result;
    the worker block runs with the guard taken. *)
Definition documents : node :=
  DirN [("Documents",
         DirN [("in.zip", FileN (Sample.b 4));
               ("out", DirN [("old.txt", FileN (Sample.b 7))])])].

Definition pages : list (string * node) :=
  [("a.txt", FileN (Sample.b 5));
   ("dir", DirN [("b.txt", FileN (Sample.b 10))])].

(** A run in which the decoder extracts [pages] and nothing is refused. *)
Definition smooth : IOSDecode.run :=
  {| IOSDecode.opens := true;
     IOSDecode.listFilenames := Some ["a.txt"; "dir/b.txt"];
     IOSDecode.isSafePath := fun _ => true;
     IOSDecode.extracted := pages;
     IOSDecode.extractionSucceeds := true;
     IOSDecode.cancellationRequestedAt := fun _ => false;
     IOSDecode.replacePermitted := true;
     IOSDecode.movePermitted := true |}.

(** The same, on a platform that refuses the replacement at the end. *)
Definition noReplace : IOSDecode.run :=
  {| IOSDecode.opens := true;
     IOSDecode.listFilenames := Some ["a.txt"; "dir/b.txt"];
     IOSDecode.isSafePath := fun _ => true;
     IOSDecode.extracted := pages;
     IOSDecode.extractionSucceeds := true;
     IOSDecode.cancellationRequestedAt := fun _ => false;
     IOSDecode.replacePermitted := false;
     IOSDecode.movePermitted := false |}.


(** A platform that resolves no file with a NUL character in a name. *)
Fixpoint noNul (s : string) : bool :=
  match s with
  | EmptyString => true
  | String c s' => negb (Ascii.eqb c zero) && noNul s'
  end.

Definition strict (items : list item) : env :=
  {| uuid := "6f1c"; currentTimeMillis := 1700; backupUuid := "9a2e";
     mkdirsPermitted := true; openInArchive := Some items;
     isActive := fun _ => true;
     atomicMovePermitted := true; renamePermitted := fun _ => true;
     canonicalizes := forallb noNul |}.

Definition strictCtx : context :=
  {| filesDir := mkFile "/data/user/0/com.app/files";
     cacheDir := mkFile "/data/user/0/com.app/cache";
     getExternalFilesDir := None;
     canonicalizesPath := forallb noNul |}.

(** An entry name, and an output path in the files directory, with a NUL
    character. *)
Definition nulName : string := String "p" (String zero "g").

Definition nulPath : string :=
  ("/data/user/0/com.app/files/" ++ nulName)%string.

End Cases.

(* ================================================================== *)
(** * Facts about path strings *)

Lemma append_empty_r (s : string) : (s ++ "")%string = s.
Proof. induction s as [|c s IH]; simpl; [reflexivity | now rewrite IH]. Qed.

Lemma append_assoc (a b c : string) :
  ((a ++ b) ++ c)%string = (a ++ (b ++ c))%string.
Proof. induction a as [|x a IH]; simpl; [reflexivity | now rewrite IH]. Qed.

Lemma prefix_cons (c d : ascii) (x y : string) :
  String.prefix (String c x) (String d y) = Ascii.eqb c d && String.prefix x y.
Proof.
  change (String.prefix (String c x) (String d y))
    with (if ascii_dec c d then String.prefix x y else false).
  destruct (ascii_dec c d) as [E|N].
  - subst d. now rewrite Ascii.eqb_refl.
  - apply Ascii.eqb_neq in N. now rewrite N.
Qed.

Lemma prefix_empty (s : string) : String.prefix "" s = true.
Proof. now destruct s. Qed.

Lemma prefix_append (x y z : string) :
  String.prefix (x ++ y) (x ++ z) = String.prefix y z.
Proof.
  induction x as [|c x IH]; [reflexivity|].
  cbn [String.append]. now rewrite prefix_cons, Ascii.eqb_refl, IH.
Qed.

Lemma prefix_of_append (x y : string) : String.prefix x (x ++ y) = true.
Proof.
  rewrite <- (append_empty_r x) at 1. rewrite prefix_append.
  now destruct y.
Qed.

Lemma joinNames_app (a b : list string) :
  joinNames (a ++ b) = (joinNames a ++ joinNames b)%string.
Proof.
  induction a as [|s a IH]; simpl; [reflexivity|].
  now rewrite IH, append_assoc.
Qed.

Lemma noSlash_append (a b : string) :
  noSlash (a ++ b) = noSlash a && noSlash b.
Proof.
  induction a as [|c a IH]; simpl; [reflexivity|].
  now rewrite IH, andb_assoc.
Qed.

Lemma noSlash_string_of_uint (d : Decimal.uint) :
  noSlash (NilEmpty.string_of_uint d) = true.
Proof. induction d; simpl; auto. Qed.

Lemma noSlash_showIndex (n : nat) : noSlash (showIndex n) = true.
Proof. apply noSlash_string_of_uint. Qed.

(** A string without separator is one name. *)
Lemma split_noSlash (s : string) : noSlash s = true -> split s = (s, []).
Proof.
  induction s as [|c s IH]; simpl; intro H; [reflexivity|].
  apply andb_prop in H as [Hc Hs]. rewrite (IH Hs).
  now destruct (Ascii.eqb c separatorChar).
Qed.

Lemma segments_plain (s : string) : plainName s -> segments s = [s].
Proof.
  intros [Hne Hs]. unfold segments. rewrite (split_noSlash _ Hs).
  destruct s; [now elim Hne | reflexivity].
Qed.

Lemma cons_name_plain (h : string) (t : list string) :
  noSlash h = true -> Forall plainName t -> Forall plainName (cons_name h t).
Proof.
  intros Hh Ht. destruct h; simpl; [exact Ht|].
  constructor; [split; [discriminate | exact Hh] | exact Ht].
Qed.

Lemma split_plain (s : string) :
  noSlash (fst (split s)) = true /\ Forall plainName (snd (split s)).
Proof.
  induction s as [|c s [IH1 IH2]]; simpl; [split; [reflexivity | constructor]|].
  destruct (split s) as [h t]. simpl in *.
  destruct (Ascii.eqb c separatorChar) eqn:E; simpl.
  - split; [reflexivity | now apply cons_name_plain].
  - rewrite E. simpl. now split.
Qed.

(** The names of a path string are plain names. *)
Lemma segments_are_plain (s : string) : Forall plainName (segments s).
Proof.
  unfold segments. destruct (split_plain s) as [H1 H2].
  destruct (split s) as [h t]. now apply cons_name_plain.
Qed.

Lemma resolve_plain (segs acc : list string) :
  Forall plainName acc -> Forall plainName segs ->
  Forall plainName (resolve acc segs).
Proof.
  revert acc. induction segs as [|s r IH]; simpl; intros acc Ha Hs.
  - now apply Forall_rev.
  - inversion Hs; subst.
    destruct (String.eqb s "."); [now apply IH|].
    destruct (String.eqb s ".."); [|apply IH; [now constructor | assumption]].
    apply IH; [|assumption]. destruct acc; simpl; [constructor | now inversion Ha].
Qed.

Lemma canonicalFile_plain (f : File) :
  Forall plainName f -> Forall plainName (canonicalFile f).
Proof. intro H. apply resolve_plain; [constructor | exact H]. Qed.

Lemma resolve_app (a b acc : list string) :
  resolve acc (a ++ b) = resolve (rev (resolve acc a)) b.
Proof.
  revert acc. induction a as [|s a IH]; simpl; intro acc.
  - now rewrite rev_involutive.
  - destruct (String.eqb s "."); [apply IH|].
    destruct (String.eqb s ".."); apply IH.
Qed.

Lemma resolve_names (segs acc : list string) :
  forallb notDots segs = true -> resolve acc segs = rev acc ++ segs.
Proof.
  revert acc. induction segs as [|s r IH]; simpl; intros acc H.
  - now rewrite app_nil_r.
  - apply andb_prop in H as [Hs Hr]. unfold notDots in Hs.
    apply andb_prop in Hs as [H1 H2].
    apply negb_true_iff in H1, H2. rewrite H1, H2, (IH _ Hr). simpl.
    now rewrite <- app_assoc.
Qed.

(** Joining names below a file and resolving: the names stay below the
    canonical file when none of them is a dot name. *)
Lemma canonicalFile_app (f names : list string) :
  forallb notDots names = true ->
  canonicalFile (f ++ names) = canonicalFile f ++ names.
Proof.
  intro H. unfold canonicalFile.
  now rewrite resolve_app, (resolve_names _ _ H), rev_involutive.
Qed.

Lemma isPrefixOf_app (p r : File) : isPrefixOf p (p ++ r) = true.
Proof.
  induction p as [|s p IH]; simpl; [reflexivity|].
  now rewrite String.eqb_refl.
Qed.

Lemma isPrefixOf_inv (p q : File) :
  isPrefixOf p q = true -> exists r, q = p ++ r.
Proof.
  revert q. induction p as [|s p IH]; intros q H; simpl in *.
  - now exists q.
  - destruct q as [|t q]; [discriminate|].
    apply andb_prop in H as [H1 H2]. apply String.eqb_eq in H1. subst t.
    destruct (IH _ H2) as [r ->]. now exists r.
Qed.

Lemma isStrictlyBelow_spec (root f : File) :
  isStrictlyBelow root f = true <-> strictlyBelow root f.
Proof.
  unfold isStrictlyBelow, strictlyBelow. split.
  - intro H. apply andb_prop in H as [H1 H2].
    destruct (isPrefixOf_inv _ _ H1) as [r ->]. exists r. split; [|reflexivity].
    intros ->. rewrite app_nil_r, Nat.eqb_refl in H2. discriminate.
  - intros [r [Hr ->]]. rewrite isPrefixOf_app. simpl.
    apply negb_true_iff, Nat.eqb_neq. rewrite length_app.
    destruct r; [now elim Hr | simpl; lia].
Qed.

Lemma prefix_name_cut (a b X Y : string) :
  noSlash a = true -> noSlash b = true ->
  (exists X', X = String separatorChar X') ->
  (Y = EmptyString \/ exists Y', Y = String separatorChar Y') ->
  String.prefix (a ++ X) (b ++ Y) = true ->
  a = b /\ String.prefix X Y = true.
Proof.
  revert b. induction a as [|c a IH]; intros b Ha Hb [X' ->] HY H.
  - destruct b as [|d b]; [now split|].
    cbn [String.append noSlash] in H, Hb. rewrite prefix_cons in H.
    apply andb_prop in Hb as [Hd _]. apply negb_true_iff in Hd.
    rewrite Ascii.eqb_sym, Hd in H. discriminate.
  - cbn [noSlash] in Ha. apply andb_prop in Ha as [Hc Ha].
    apply negb_true_iff in Hc.
    destruct b as [|d b]; cbn [String.append] in H.
    + destruct HY as [->|[Y' ->]]; [discriminate|].
      rewrite prefix_cons, Hc in H. discriminate.
    + cbn [noSlash] in Hb. apply andb_prop in Hb as [_ Hb].
      rewrite prefix_cons in H. apply andb_prop in H as [Hcd H].
      apply Ascii.eqb_eq in Hcd. subst d.
      destruct (IH b Ha Hb (ex_intro _ X' eq_refl) HY H) as [-> HX].
      now split.
Qed.

Lemma joinNames_slash (q : list string) :
  joinNames q = EmptyString \/ exists Y', joinNames q = String separatorChar Y'.
Proof. destruct q; cbn [joinNames fold_right]; [now left | right; eauto]. Qed.

(** On plain names, the string test "starts with the root's path followed
    by a separator" is the test "lies strictly under the root". *)
Lemma joinNames_prefix (s q : list string) :
  Forall plainName s -> Forall plainName q ->
  String.prefix (joinNames s ++ String separatorChar "") (joinNames q) = true ->
  strictlyBelow s q.
Proof.
  revert q. induction s as [|a s IH]; intros q Hs Hq H.
  - destruct q as [|b q]; [discriminate|]. exists (b :: q). now split.
  - destruct q as [|b q]; [discriminate|].
    cbn [joinNames fold_right String.append] in H.
    rewrite prefix_cons, Ascii.eqb_refl in H. cbn [andb] in H.
    inversion Hs as [|? ? [_ Ha] Hs']; inversion Hq as [|? ? [_ Hb] Hq']; subst.
    rewrite append_assoc in H.
    apply prefix_name_cut in H as [<- H]; trivial.
    + destruct (IH q Hs' Hq' H) as [r [Hr ->]]. exists r. now split.
    + destruct s; cbn [fold_right String.append]; eauto.
    + apply joinNames_slash.
Qed.

Lemma pathString_not_below_top (q : list string) :
  Forall plainName q ->
  String.prefix (String separatorChar (String separatorChar "")) (pathString q)
  = false.
Proof.
  intro Hq. destruct q as [|b q]; [reflexivity|].
  cbn [pathString joinNames fold_right].
  inversion Hq as [|? ? [Hne Hb] _]; subst.
  destruct b as [|c b]; [now elim Hne|].
  cbn [noSlash String.append] in *.
  apply andb_prop in Hb as [Hc _]. apply negb_true_iff in Hc.
  now rewrite !prefix_cons, Ascii.eqb_refl, Ascii.eqb_sym, Hc.
Qed.

(** What the sanitiser accepts lies strictly under the staging root. *)
Lemma isSafeEntryPath_inv (e : env) (entryPath : string) (tempDir d : File) :
  Forall plainName tempDir ->
  isSafeEntryPath e entryPath tempDir = Some d ->
  d = canonicalFile (mkFileIn tempDir entryPath) /\
  strictlyBelow (canonicalFile tempDir) d.
Proof.
  intros Ht H. unfold isSafeEntryPath in H.
  destruct (canonicalizes e (mkFileIn tempDir entryPath) && canonicalizes e tempDir);
    [|discriminate].
  destruct (startsWith _ _) eqn:E; cbn [negb] in H; [|discriminate].
  injection H as <-. split; [reflexivity|].
  assert (Hd : Forall plainName (canonicalFile (mkFileIn tempDir entryPath))).
  { apply canonicalFile_plain, Forall_app. split; [exact Ht|].
    apply segments_are_plain. }
  pose proof (canonicalFile_plain _ Ht) as Hc.
  unfold startsWith, canonicalPath in E.
  destruct (canonicalFile tempDir) as [|a tc] eqn:Etc.
  - cbn [pathString String.append] in E.
    now rewrite pathString_not_below_top in E.
  - destruct (canonicalFile (mkFileIn tempDir entryPath)) as [|b q] eqn:Eq.
    + cbn [pathString joinNames fold_right String.append] in E.
      rewrite prefix_cons in E. apply andb_prop in E as [_ E].
      inversion Hc as [|? ? [Hne _] _]; subst.
      destruct a; [now elim Hne | discriminate].
    + now apply joinNames_prefix.
Qed.

(** The sanitiser only accepts where both canonicalisations go through. *)
Lemma isSafeEntryPath_resolves (e : env) (entryPath : string)
    (tempDir d : File) :
  isSafeEntryPath e entryPath tempDir = Some d ->
  canonicalizes e (mkFileIn tempDir entryPath) = true /\
  canonicalizes e tempDir = true.
Proof.
  unfold isSafeEntryPath.
  destruct (canonicalizes e (mkFileIn tempDir entryPath)); [|discriminate].
  destruct (canonicalizes e tempDir); [|discriminate]. now split.
Qed.

(** What lies strictly under the staging root is accepted. *)
Lemma isSafeEntryPath_below (e : env) (entryPath : string) (tempDir : File) :
  canonicalizes e (mkFileIn tempDir entryPath) = true ->
  canonicalizes e tempDir = true ->
  canonicalFile tempDir <> [] ->
  strictlyBelow (canonicalFile tempDir)
    (canonicalFile (mkFileIn tempDir entryPath)) ->
  isSafeEntryPath e entryPath tempDir
  = Some (canonicalFile (mkFileIn tempDir entryPath)).
Proof.
  intros K1 K2 Hne [r [Hr E]].
  unfold isSafeEntryPath, startsWith, canonicalPath.
  rewrite K1, K2. cbn [andb]. rewrite E.
  assert (P : String.prefix
                (pathString (canonicalFile tempDir) ++ String separatorChar "")
                (pathString (canonicalFile tempDir ++ r)) = true).
  { destruct (canonicalFile tempDir) as [|a tc]; [now elim Hne|].
    change (pathString (a :: tc)) with (joinNames (a :: tc)).
    change (pathString ((a :: tc) ++ r)) with (joinNames ((a :: tc) ++ r)).
    rewrite joinNames_app, prefix_append.
    destruct r; [now elim Hr|]. cbn [joinNames fold_right].
    now rewrite prefix_cons, Ascii.eqb_refl, prefix_empty. }
  now rewrite P.
Qed.

Lemma escapes_rejected (e : env) (entryPath : string) (tempDir : File) :
  Forall plainName tempDir ->
  escapes tempDir entryPath = true ->
  isSafeEntryPath e entryPath tempDir = None.
Proof.
  intros Ht He. destruct (isSafeEntryPath e entryPath tempDir) as [d|] eqn:E;
    [|reflexivity].
  destruct (isSafeEntryPath_inv _ _ _ _ Ht E) as [-> Hb].
  apply isStrictlyBelow_spec in Hb. unfold escapes in He. now rewrite Hb in He.
Qed.

Lemma Forall_removelast {A} (P : A -> Prop) (l : list A) :
  Forall P l -> Forall P (removelast l).
Proof.
  induction l as [|a l IH]; simpl; intro H; [constructor|].
  inversion H; subst. destruct l; [constructor|]. constructor; auto.
Qed.

Lemma tempDirOf_plain (e : env) (outputPath : string) :
  Forall plainName (tempDirOf e outputPath).
Proof.
  apply Forall_app. split.
  - apply Forall_removelast, segments_are_plain.
  - apply segments_are_plain.
Qed.

Lemma tempDirName_plain (e : env) :
  noSlash (uuid e) = true -> plainName (tempDirName e).
Proof.
  intro H. split; [discriminate|]. unfold tempDirName.
  rewrite !noSlash_append, H, noSlash_showIndex. reflexivity.
Qed.

(** The staging directory is the canonical parent of the destination
    followed by the staging name. *)
Lemma canonical_tempDirOf (e : env) (outputPath : string) :
  noSlash (uuid e) = true ->
  canonicalFile (tempDirOf e outputPath)
  = canonicalFile (parentFile (mkFile outputPath)) ++ [tempDirName e].
Proof.
  intro H. unfold tempDirOf, mkFileIn.
  rewrite (segments_plain _ (tempDirName_plain _ H)).
  now apply canonicalFile_app.
Qed.

(* ================================================================== *)
(** * Facts about the tree *)

Lemma find_replace_same (s : string) (c : node) kids :
  find_kid s (replace_kid s c kids) = Some c.
Proof.
  induction kids as [|[k c0] r IH]; simpl.
  - now rewrite String.eqb_refl.
  - destruct (String.eqb k s) eqn:E; simpl.
    + now rewrite String.eqb_refl.
    + now rewrite E.
Qed.

Lemma find_replace_other (s t : string) (c : node) kids :
  s <> t -> find_kid s (replace_kid t c kids) = find_kid s kids.
Proof.
  intro N. assert (Nt : String.eqb t s = false).
  { apply String.eqb_neq. congruence. }
  induction kids as [|[k c0] r IH]; simpl.
  - now rewrite Nt.
  - destruct (String.eqb k t) eqn:E; simpl.
    + apply String.eqb_eq in E. subst k. now rewrite Nt.
    + now rewrite IH.
Qed.

Lemma find_remove_same (s : string) kids :
  find_kid s (remove_kid s kids) = None.
Proof.
  induction kids as [|[k c0] r IH]; simpl; [reflexivity|].
  destruct (String.eqb k s) eqn:E; simpl; [exact IH | now rewrite E].
Qed.

Lemma find_remove_other (s t : string) kids :
  s <> t -> find_kid s (remove_kid t kids) = find_kid s kids.
Proof.
  intro N. induction kids as [|[k c0] r IH]; simpl; [reflexivity|].
  destruct (String.eqb k t) eqn:E; simpl.
  - apply String.eqb_eq in E. subst k.
    assert (Nt : String.eqb t s = false) by (apply String.eqb_neq; congruence).
    now rewrite Nt.
  - now rewrite IH.
Qed.

Lemma find_set_same (s : string) (o : option node) kids :
  find_kid s (set_kid s o kids) = o.
Proof.
  destruct o; simpl; [apply find_replace_same | apply find_remove_same].
Qed.

Lemma find_set_other (s t : string) (o : option node) kids :
  s <> t -> find_kid s (set_kid t o kids) = find_kid s kids.
Proof.
  intro N. destruct o; simpl;
    [now apply find_replace_other | now apply find_remove_other].
Qed.

Lemma remove_replace (s : string) (c : node) kids :
  remove_kid s (replace_kid s c kids) = remove_kid s kids.
Proof.
  induction kids as [|[k c0] r IH]; simpl.
  - now rewrite String.eqb_refl.
  - destruct (String.eqb k s) eqn:E; simpl.
    + now rewrite String.eqb_refl.
    + rewrite E. simpl. f_equal. exact IH.
Qed.

Lemma remove_remove (s : string) kids :
  remove_kid s (remove_kid s kids) = remove_kid s kids.
Proof.
  induction kids as [|[k c0] r IH]; simpl; [reflexivity|].
  destruct (String.eqb k s) eqn:E; simpl; [exact IH|].
  rewrite E. simpl. f_equal. exact IH.
Qed.

Lemma remove_set (s : string) (o : option node) kids :
  remove_kid s (set_kid s o kids) = remove_kid s kids.
Proof.
  destruct o; simpl; [apply remove_replace | apply remove_remove].
Qed.

Lemma replace_replace (s : string) (c c' : node) kids :
  replace_kid s c (replace_kid s c' kids) = replace_kid s c kids.
Proof.
  induction kids as [|[k c0] r IH]; simpl.
  - now rewrite String.eqb_refl.
  - destruct (String.eqb k s) eqn:E; simpl.
    + now rewrite String.eqb_refl.
    + rewrite E. f_equal. exact IH.
Qed.

Lemma replace_found (s : string) (c : node) kids :
  find_kid s kids = Some c -> replace_kid s c kids = kids.
Proof.
  induction kids as [|[k c0] r IH]; simpl; [discriminate|].
  destruct (String.eqb k s) eqn:E.
  - intro H. injection H as ->. apply String.eqb_eq in E. now subst k.
  - intro H. f_equal. now apply IH.
Qed.

Lemma remove_absent (s : string) kids :
  find_kid s kids = None -> remove_kid s kids = kids.
Proof.
  induction kids as [|[k c0] r IH]; simpl; [reflexivity|].
  destruct (String.eqb k s) eqn:E; simpl; [discriminate|].
  intro H. f_equal. now apply IH.
Qed.

Lemma find_kid_In (s : string) (c : node) kids :
  find_kid s kids = Some c -> In (s, c) kids.
Proof.
  induction kids as [|[k c0] r IH]; simpl; [discriminate|].
  destruct (String.eqb k s) eqn:E.
  - intro H. injection H as ->. apply String.eqb_eq in E. subst k. now left.
  - intro H. right. now apply IH.
Qed.

Lemma lookup_o_none (p : File) : lookup_o p None = None.
Proof. now destruct p. Qed.

Lemma lookup_o_app (s r : File) (o : option node) :
  lookup_o (s ++ r) o = lookup_o r (lookup_o s o).
Proof.
  revert o. induction s as [|a s IH]; intro o; simpl; [reflexivity|].
  destruct o as [[d|kids]|]; try (now rewrite lookup_o_none). apply IH.
Qed.

Lemma alter_o_app (s r : File) f (o : option node) :
  alter_o (s ++ r) f o = alter_o s (alter_o r f) o.
Proof.
  revert o. induction s as [|a s IH]; intro o; simpl; [reflexivity|].
  destruct o as [[d|kids]|]; try reflexivity. now rewrite IH.
Qed.

Lemma lookup_alter_same (s : File) g (o : option node) (n : node) :
  lookup_o s o = Some n -> lookup_o s (alter_o s g o) = g (Some n).
Proof.
  revert o. induction s as [|a s IH]; intros o H; simpl in *.
  - now subst o.
  - destruct o as [[d|kids]|]; try discriminate.
    rewrite find_set_same. now apply IH.
Qed.

(** What is found under [s] after a change under [s]. *)
Lemma lookup_alter_below (s r : File) g (o : option node) (n : node) :
  lookup_o s o = Some n ->
  lookup_o (s ++ r) (alter_o (s ++ r) g o) = lookup_o r (alter_o r g (Some n)).
Proof.
  intro H. rewrite lookup_o_app, alter_o_app.
  now rewrite (lookup_alter_same _ _ _ _ H).
Qed.

Lemma alter_none_removed (s : File) g (X : option node) :
  alter_o s g X = None -> alter_o s (fun _ => None) X = None.
Proof.
  destruct s as [|a s]; simpl; [reflexivity|].
  destruct X as [[d|kids]|]; intro H; try discriminate; reflexivity.
Qed.

(** Removing [s] forgets every change made at [s]. *)
Lemma remove_after_alter (s : File) g (o : option node) :
  alter_o s (fun _ => None) (alter_o s g o) = alter_o s (fun _ => None) o.
Proof.
  revert o. induction s as [|a s IH]; intro o; simpl; [reflexivity|].
  destruct o as [[d|kids]|]; try reflexivity.
  rewrite find_set_same, IH. f_equal. f_equal.
  destruct (alter_o s (fun _ => None) (find_kid a kids)) as [z|] eqn:Z.
  - destruct (alter_o s g (find_kid a kids)) as [y|] eqn:Y.
    + simpl. apply replace_replace.
    + apply alter_none_removed in Y. congruence.
  - simpl. apply remove_set.
Qed.

Lemma remove_absent_o (s : File) (o : option node) :
  s <> [] -> lookup_o s o = None -> alter_o s (fun _ => None) o = o.
Proof.
  revert o. induction s as [|a s IH]; intros o Hs H; [now elim Hs|].
  simpl in *. destruct o as [[d|kids]|]; try reflexivity.
  destruct s as [|b s].
  - simpl in *. now rewrite (remove_absent _ _ H).
  - destruct (find_kid a kids) as [c|] eqn:E.
    + rewrite IH; [|discriminate|exact H]. simpl.
      now rewrite (replace_found _ _ _ E).
    + simpl. now rewrite (remove_absent _ _ E).
Qed.

Lemma mkdirs_o_app (s r : File) (o : option node) (n : node) :
  lookup_o s o = Some n -> mkdirs_o (s ++ r) o = alter_o s (mkdirs_o r) o.
Proof.
  revert o. induction s as [|a s IH]; intros o H; simpl in *; [reflexivity|].
  destruct o as [[d|kids]|]; try discriminate.
  now rewrite (IH _ H).
Qed.

Lemma mkdirs_o_dir (p : File) (o : option node) kids :
  lookup_o p o = Some (DirN kids) -> mkdirs_o p o = o.
Proof.
  revert o. induction p as [|a p IH]; intros o H; simpl in *.
  - now subst o.
  - destruct o as [[d|ks]|]; try discriminate.
    destruct (find_kid a ks) as [c|] eqn:E;
      [|now rewrite lookup_o_none in H].
    rewrite (IH _ H). simpl. now rewrite (replace_found _ _ _ E).
Qed.

(** Making a directory that was not there and removing it again leaves
    the tree as it was, when the directory above it was there. *)
Lemma remove_after_mkdirs (p : File) (a : string) (o : option node) kids :
  lookup_o p o = Some (DirN kids) -> find_kid a kids = None ->
  alter_o (p ++ [a]) (fun _ => None) (mkdirs_o (p ++ [a]) o) = o.
Proof.
  revert o. induction p as [|b p IH]; intros o H Ha; simpl in *.
  - subst o. simpl. rewrite remove_set. now rewrite (remove_absent _ _ Ha).
  - destruct o as [[d|ks]|]; try discriminate.
    destruct (find_kid b ks) as [c|] eqn:E;
      [|now rewrite lookup_o_none in H].
    specialize (IH _ H Ha).
    destruct (mkdirs_o (p ++ [a]) (Some c)) as [m|] eqn:M.
    + simpl. rewrite find_replace_same, IH. simpl.
      rewrite replace_replace. now rewrite (replace_found _ _ _ E).
    + destruct p; discriminate.
Qed.

Lemma lookup_after_mkdirs (p : File) (a : string) (o : option node) kids :
  lookup_o p o = Some (DirN kids) -> find_kid a kids = None ->
  lookup_o (p ++ [a]) (mkdirs_o (p ++ [a]) o) = Some (DirN []).
Proof.
  intros H Ha. rewrite (mkdirs_o_app _ _ _ _ H), lookup_o_app.
  rewrite (lookup_alter_same _ _ _ _ H). simpl.
  rewrite Ha. simpl. now rewrite find_replace_same.
Qed.

Lemma gentle_delete : gentle delete_one.
Proof.
  intros [[d|[|k ks]]|]; simpl.
  - right. split; [now left | right; left; eauto].
  - right. split; [now left | now right; right].
  - now left.
  - now left.
Qed.

Lemma gentle_open : gentle open_one.
Proof.
  intros [[d|ks]|]; simpl.
  - right. split; [right; eauto | right; left; eauto].
  - now left.
  - right. split; [right; eauto | now left].
Qed.

Lemma gentle_append (d : bytes) : gentle (append_one d).
Proof.
  intros [[d0|ks]|]; simpl.
  - right. split; [right; eauto | right; left; eauto].
  - now left.
  - now left.
Qed.

(** A gentle change at [q] is not seen at [p] unless [q] is [p] or lies
    under it. *)
Lemma frame_alter (q p : File) f (o : option node) :
  gentle f -> isPrefixOf p q = false ->
  lookup_o p (alter_o q f o) = lookup_o p o.
Proof.
  intro G. revert p o. induction q as [|b q IH]; intros p o H.
  - destruct p as [|a p]; [discriminate|]. simpl.
    destruct (G o) as [->|[[->|[d ->]] [->|[[d' ->]| ->]]]]; simpl;
      try reflexivity; now rewrite ?lookup_o_none.
  - destruct p as [|a p]; [discriminate|]. simpl in H |- *.
    destruct o as [[d|kids]|]; try reflexivity. simpl.
    destruct (String.eqb a b) eqn:E.
    + apply String.eqb_eq in E. subst b. rewrite find_set_same. now apply IH.
    + apply String.eqb_neq in E. now rewrite find_set_other.
Qed.

(** A change at [q] is not seen at [p] when neither lies under the other. *)
Lemma frame_apart (q p : File) f (o : option node) :
  isPrefixOf p q = false -> isPrefixOf q p = false ->
  lookup_o p (alter_o q f o) = lookup_o p o.
Proof.
  revert p o. induction q as [|b q IH]; intros p o H1 H2; [discriminate|].
  destruct p as [|a p]; [discriminate|]. simpl in *.
  destruct o as [[d|kids]|]; try reflexivity. simpl.
  destruct (String.eqb a b) eqn:E.
  - apply String.eqb_eq in E. subst b. rewrite String.eqb_refl in H2.
    rewrite find_set_same. now apply IH.
  - apply String.eqb_neq in E. now rewrite find_set_other.
Qed.

Lemma frame_mkdirs (q p : File) (o : option node) :
  isPrefixOf p q = false -> lookup_o p (mkdirs_o q o) = lookup_o p o.
Proof.
  revert p o. induction q as [|b q IH]; intros p o H.
  - destruct p as [|a p]; [discriminate|].
    destruct o as [[d|kids]|]; simpl; try reflexivity.
    now rewrite lookup_o_none.
  - destruct p as [|a p]; [discriminate|]. simpl in H.
    destruct o as [[d|kids]|]; simpl; try reflexivity.
    + destruct (String.eqb a b) eqn:E.
      * apply String.eqb_eq in E. subst b. rewrite find_set_same. now apply IH.
      * apply String.eqb_neq in E. now rewrite find_set_other.
    + destruct (String.eqb a b) eqn:E.
      * apply String.eqb_eq in E. subst b.
        destruct (mkdirs_o q None) as [m|] eqn:M; simpl.
        -- rewrite String.eqb_refl. rewrite <- M, IH by exact H.
           apply lookup_o_none.
        -- apply lookup_o_none.
      * destruct (mkdirs_o q None) as [m|]; simpl;
          [rewrite String.eqb_sym, E|]; apply lookup_o_none.
Qed.

Lemma alter_some (p : File) f (fs : node) :
  p <> [] -> alter_o p f (Some fs) = Some (alter p f fs).
Proof.
  intro H. unfold alter. destruct p as [|a p]; [now elim H|].
  simpl. now destruct fs.
Qed.

Lemma mkdirs_some (p : File) (fs : node) :
  mkdirs_o p (Some fs) = Some (fst (mkdirsAt p fs)).
Proof. unfold mkdirsAt. simpl. now destruct fs, p. Qed.

Lemma lookup_alter_gentle (q p : File) f (fs : node) :
  q <> [] -> gentle f -> isPrefixOf p q = false ->
  lookup p (alter q f fs) = lookup p fs.
Proof.
  intros Hq G H. unfold lookup. rewrite <- (alter_some _ f fs Hq).
  now apply frame_alter.
Qed.

Lemma lookup_alter_apart (q p : File) f (fs : node) :
  isPrefixOf p q = false -> isPrefixOf q p = false ->
  lookup p (alter q f fs) = lookup p fs.
Proof.
  intros H1 H2. unfold lookup. rewrite <- (alter_some q f fs).
  - now apply frame_apart.
  - intros ->. discriminate.
Qed.

Lemma lookup_mkdirs_frame (q p : File) (fs : node) :
  isPrefixOf p q = false -> lookup p (fst (mkdirsAt q fs)) = lookup p fs.
Proof.
  intro H. unfold lookup. rewrite <- mkdirs_some. now apply frame_mkdirs.
Qed.

Lemma lookup_alter_child (out : File) g (fs : node) kids :
  out <> [] -> lookup (parentFile out) fs = Some (DirN kids) ->
  lookup out (alter out g fs) = g (lookup out fs).
Proof.
  intros Ho Hp. unfold lookup in *. rewrite <- (alter_some _ g fs Ho).
  rewrite (app_removelast_last EmptyString Ho) at 1 2 3.
  unfold parentFile in Hp.
  rewrite (lookup_alter_below _ _ _ _ _ Hp), lookup_o_app, Hp. simpl.
  now rewrite find_set_same.
Qed.

Lemma lookup_alter_own (out : File) g (fs n : node) :
  out <> [] -> lookup out fs = Some n ->
  lookup out (alter out g fs) = g (Some n).
Proof.
  intros Ho H. unfold lookup in *. rewrite <- (alter_some _ g fs Ho).
  now apply lookup_alter_same.
Qed.

Lemma isPrefixOf_removelast (p q : File) :
  isPrefixOf p q = false -> isPrefixOf p (removelast q) = false.
Proof.
  intro H. destruct (isPrefixOf p (removelast q)) eqn:E; [|reflexivity].
  destruct (isPrefixOf_inv _ _ E) as [r Hr].
  destruct q as [|a q]; [simpl in *; congruence|].
  assert (Hq : a :: q <> []) by discriminate.
  rewrite (app_removelast_last EmptyString Hq), Hr, <- app_assoc in H.
  now rewrite isPrefixOf_app in H.
Qed.

(** What is done for one entry is not seen outside the entry's file. *)
Lemma worksAt_frame (out p : File) (fs fs' : node) :
  out <> [] -> isPrefixOf p out = false -> worksAt out fs fs' ->
  lookup p fs' = lookup p fs.
Proof.
  intros Ho H W. induction W as [|fs' f G W IH|fs' W IH].
  - reflexivity.
  - now rewrite lookup_alter_gentle.
  - rewrite lookup_mkdirs_frame; [exact IH|]. now apply isPrefixOf_removelast.
Qed.

Lemma confined_refl (s : File) (fs : node) :
  isDirectoryAt s fs = true -> confined s fs fs.
Proof. now split. Qed.

Lemma confined_trans (s : File) (a b c : node) :
  confined s a b -> confined s b c -> confined s a c.
Proof. intros [_ H1] [H2 H3]. split; [exact H2 | congruence]. Qed.

Lemma isDirectoryAt_inv (s : File) (fs : node) :
  isDirectoryAt s fs = true -> exists kids, lookup s fs = Some (DirN kids).
Proof.
  unfold isDirectoryAt. destruct (lookup s fs) as [[d|kids]|]; try discriminate.
  eauto.
Qed.

Lemma remove_same_default (s : File) (a b : node) :
  s <> [] ->
  alter_o s (fun _ => None) (Some a) = alter_o s (fun _ => None) (Some b) ->
  deleteRecursivelyAt s a = deleteRecursivelyAt s b.
Proof.
  intros Hs H. unfold deleteRecursivelyAt.
  assert (E : Some (alter s (fun _ => None) a) = Some (alter s (fun _ => None) b))
    by (rewrite <- !alter_some by exact Hs; exact H).
  now injection E.
Qed.

Lemma confined_alter (s r : File) f (fs : node) :
  s <> [] -> r <> [] -> isDirectoryAt s fs = true ->
  confined s fs (alter (s ++ r) f fs).
Proof.
  intros Hs Hr Hd. destruct (isDirectoryAt_inv _ _ Hd) as [kids Hk].
  assert (Hsr : s ++ r <> []) by (destruct s; [now elim Hs | discriminate]).
  split.
  - unfold isDirectoryAt, lookup. rewrite <- (alter_some _ f fs Hsr).
    rewrite alter_o_app, (lookup_alter_same _ _ _ _ Hk).
    destruct r; [now elim Hr | reflexivity].
  - apply remove_same_default; [exact Hs|].
    rewrite <- (alter_some _ f fs Hsr), alter_o_app.
    apply remove_after_alter.
Qed.

Lemma confined_mkdirs (s r : File) (fs : node) :
  s <> [] -> isDirectoryAt s fs = true ->
  confined s fs (fst (mkdirsAt (s ++ r) fs)).
Proof.
  intros Hs Hd. destruct (isDirectoryAt_inv _ _ Hd) as [kids Hk]. split.
  - unfold isDirectoryAt, lookup.
    rewrite <- mkdirs_some, (mkdirs_o_app _ _ _ _ Hk).
    rewrite (lookup_alter_same _ _ _ _ Hk). now destruct r.
  - apply remove_same_default; [exact Hs|].
    rewrite <- mkdirs_some, (mkdirs_o_app _ _ _ _ Hk).
    apply remove_after_alter.
Qed.

(** What is done for an entry under the staging root stays under it. *)
Lemma worksAt_confined (s out : File) (fs fs' : node) :
  s <> [] -> strictlyBelow s out -> isDirectoryAt s fs = true ->
  worksAt out fs fs' -> confined s fs fs'.
Proof.
  intros Hs [r [Hr ->]] Hd W. induction W as [|fs' f G W IH|fs' W IH].
  - now apply confined_refl.
  - apply (confined_trans _ _ _ _ IH). apply confined_alter; trivial. apply IH.
  - apply (confined_trans _ _ _ _ IH). unfold parentFile.
    rewrite removelast_app by exact Hr. apply confined_mkdirs; trivial. apply IH.
Qed.

Lemma openAt_inv (p : File) (fs fs1 : node) :
  openAt p fs = Some fs1 -> fs1 = alter p open_one fs.
Proof.
  unfold openAt. destruct (isFileAt p (alter p open_one fs)); congruence.
Qed.

Lemma worksAt_delete (out : File) (fs fs' : node) :
  worksAt out fs fs' ->
  worksAt out fs (if existsAt out fs' then deleteAt out fs' else fs').
Proof.
  intro W. destruct (existsAt out fs'); [|exact W].
  apply worksAt_alter; [apply gentle_delete | exact W].
Qed.

Lemma worksAt_writeChunk (out : File) (fs fs' : node) (fos : bool) (c : chunk) :
  worksAt out fs fs' -> worksAt out fs (snd (writeChunk out (fos, fs') c)).
Proof.
  intro W. unfold writeChunk.
  assert (K : forall fs1, worksAt out fs fs1 ->
    worksAt out fs
      (snd (if chunk_accepted c
            then (true, appendAt out (chunk_data c) fs1)
            else (false, if existsAt out fs1 then deleteAt out fs1 else fs1)))).
  { intros fs1 W1. destruct (chunk_accepted c); simpl.
    - apply worksAt_alter; [apply gentle_append | exact W1].
    - now apply worksAt_delete. }
  destruct fos.
  - now apply K.
  - destruct (openAt out fs') as [fs1|] eqn:E.
    + apply K. rewrite (openAt_inv _ _ _ E).
      apply worksAt_alter; [apply gentle_open | exact W].
    + simpl. now apply worksAt_delete.
Qed.

Lemma worksAt_fold (out : File) (fs : node) (chunks : list chunk) :
  forall fos fs', worksAt out fs fs' ->
  worksAt out fs (snd (fold_left (writeChunk out) chunks (fos, fs'))).
Proof.
  induction chunks as [|c cs IH]; intros fos fs' W; cbn [fold_left];
    [exact W|].
  destruct (writeChunk out (fos, fs') c) as [fos1 fs1] eqn:E.
  apply IH. change fs1 with (snd (fos1, fs1)). rewrite <- E.
  now apply worksAt_writeChunk.
Qed.

Lemma worksAt_stageEntry (abs : bool) (tempDir : File) (it : item) (out : File) l (fs : node) :
  worksAt out fs (fst (stageEntry abs tempDir it out l fs)).
Proof.
  unfold stageEntry.
  set (fs1 := fst (mkdirsAt (parentFile out) fs)).
  set (fs2 := if existsAt out fs1 then deleteAt out fs1 else fs1).
  assert (W2 : worksAt out fs fs2).
  { apply worksAt_delete, worksAt_mkdirs, worksAt_refl. }
  pose proof (worksAt_fold out fs (fed it) false fs2 W2) as W3.
  destruct (fold_left (writeChunk out) (fed it) (false, fs2)) as [fos fs3].
  simpl in W3.
  destruct (extractThrows it); simpl; [now apply worksAt_delete|].
  destruct (isOK (extractResult it) && existsAt out fs3
            && (0 <? lengthAt out fs3)%Z); simpl.
  { destruct abs; simpl; [exact W3 | now apply worksAt_delete]. }
  destruct (existsAt out fs3 && (lengthAt out fs3 =? 0)%Z); [|exact W3].
  apply worksAt_alter; [apply gentle_delete | exact W3].
Qed.

(* ================================================================== *)
(** * Facts about the staging pass *)

Lemma strictlyBelow_nonempty (s out : File) : strictlyBelow s out -> out <> [].
Proof.
  intros [r [Hr ->]] E. apply app_eq_nil in E as [_ E]. now elim Hr.
Qed.

(** The staging pass only changes what lies under the staging root. *)
Lemma stageItems_confined (e : env) (abs : bool) (tempDir : File) (items : list item) :
  Forall plainName tempDir -> canonicalFile tempDir <> [] ->
  forall index l fs,
    isDirectoryAt (canonicalFile tempDir) fs = true ->
    confined (canonicalFile tempDir) fs
      (stagingTree (stageItems e abs tempDir index items l fs)).
Proof.
  intros Ht Hne. induction items as [|it rest IH]; intros index l fs Hd; simpl.
  - now apply confined_refl.
  - destruct (isActive e (AtEntry index)); simpl; [|now apply confined_refl].
    destruct (isFolder it); simpl; [now apply IH|].
    destruct (isSafeEntryPath e (itemPath index it) tempDir) as [out|] eqn:E;
      simpl; [|now apply confined_refl].
    destruct (isSafeEntryPath_inv _ _ _ _ Ht E) as [_ Hb].
    pose proof (worksAt_stageEntry abs tempDir it out l fs) as W.
    destruct (stageEntry abs tempDir it out l fs) as [fs' l'] eqn:S. simpl in W.
    pose proof (worksAt_confined _ _ _ _ Hne Hb Hd W) as C.
    apply (confined_trans _ _ _ _ C). apply IH. apply C.
Qed.

(** The staging pass does not change [target] when no entry is extracted
    to it or below it. *)
Lemma stageItems_frame (e : env) (abs : bool) (tempDir target : File) (items : list item) :
  Forall plainName tempDir ->
  forall index l fs,
    clearOf e target tempDir index items = true ->
    lookup target (stagingTree (stageItems e abs tempDir index items l fs))
    = lookup target fs.
Proof.
  intro Ht. induction items as [|it rest IH]; intros index l fs Hc; simpl;
    [reflexivity|].
  simpl in Hc. apply andb_prop in Hc as [Hh Hr].
  destruct (isActive e (AtEntry index)); simpl; [|reflexivity].
  destruct (isFolder it); simpl in *; [now apply IH|].
  destruct (isSafeEntryPath e (itemPath index it) tempDir) as [out|] eqn:E;
    simpl; [|reflexivity].
  destruct (isSafeEntryPath_inv _ _ _ _ Ht E) as [_ Hb].
  pose proof (worksAt_stageEntry abs tempDir it out l fs) as W.
  destruct (stageEntry abs tempDir it out l fs) as [fs' l'] eqn:S. simpl in W.
  rewrite (IH _ _ _ Hr).
  apply (worksAt_frame out); trivial.
  - now apply (strictlyBelow_nonempty (canonicalFile tempDir)).
  - now apply negb_true_iff.
Qed.

Lemma stageItems_app (e : env) (abs : bool) (tempDir : File) (pre rest : list item) :
  forall index l fs,
    stageItems e abs tempDir index (pre ++ rest) l fs
    = match stageItems e abs tempDir index pre l fs with
      | Staged fs' l' =>
          stageItems e abs tempDir (index + List.length pre) rest l' fs'
      | Aborted c fs' l' => Aborted c fs' l'
      end.
Proof.
  induction pre as [|it pre IH]; intros index l fs; simpl.
  - now rewrite Nat.add_0_r.
  - destruct (isActive e (AtEntry index)); simpl; [|reflexivity].
    destruct (isFolder it); simpl.
    + rewrite IH. now rewrite Nat.add_succ_r.
    + destruct (isSafeEntryPath e (itemPath index it) tempDir); [|reflexivity].
      destruct (stageEntry abs tempDir it f l fs) as [fs' l'].
      rewrite IH. now rewrite Nat.add_succ_r.
Qed.

(** With an unsafe non-folder entry and no cancellation, the staging pass
    ends at the sanitiser. *)
Lemma stageItems_unsafe (e : env) (abs : bool) (tempDir : File) (items : list item) :
  Forall plainName tempDir -> cooperative e ->
  hasUnsafeEntry tempDir items = true ->
  forall index l fs, exists fs' l',
    stageItems e abs tempDir index items l fs
    = Aborted "UNARCHIVE_ENTRY_INVALID" fs' l'.
Proof.
  intros Ht Hc. induction items as [|it rest IH]; intros Hu index l fs;
    [discriminate|].
  simpl in *. rewrite Hc. simpl.
  destruct (isFolder it) eqn:F; simpl in *; [now apply IH|].
  destruct (isSafeEntryPath e (itemPath index it) tempDir) as [out|] eqn:E;
    [|eauto].
  destruct (stageEntry abs tempDir it out l fs) as [fs' l'].
  apply IH. apply orb_prop in Hu as [Hu|Hu]; [|exact Hu].
  unfold itemPath in E. destruct (path it) as [p|]; [|discriminate].
  rewrite (escapes_rejected _ _ _ Ht Hu) in E. discriminate.
Qed.


Lemma deleteRecursivelyAt_absent (p : File) (fs : node) :
  existsAt p fs = false -> deleteRecursivelyAt p fs = fs.
Proof.
  unfold existsAt, deleteRecursivelyAt, alter, lookup. intro H.
  destruct p as [|a p]; [discriminate|].
  rewrite remove_absent_o; [reflexivity | discriminate|].
  now destruct (lookup_o (a :: p) (Some fs)).
Qed.

Lemma deleteRecursivelyAt_gone (p : File) (fs : node) :
  p <> [] -> existsAt p (deleteRecursivelyAt p fs) = false.
Proof.
  intro Hp. unfold existsAt, deleteRecursivelyAt, lookup.
  rewrite <- (alter_some _ _ fs Hp).
  rewrite (app_removelast_last EmptyString Hp), alter_o_app, lookup_o_app.
  destruct (lookup_o (removelast p) (Some fs)) as [n|] eqn:L.
  - rewrite (lookup_alter_same _ _ _ _ L). simpl.
    destruct n; [reflexivity|]. simpl. now rewrite find_remove_same.
  - assert (N : lookup_o (removelast p)
                  (alter_o (removelast p)
                     (alter_o [last p EmptyString] (fun _ => None)) (Some fs))
                = None).
    { clear Hp. revert L. generalize (Some fs). generalize (removelast p).
      induction l as [|a l IH]; intros o L; simpl in *; [now subst o|].
      destruct o as [[d|kids]|]; try reflexivity. simpl.
      rewrite find_set_same. now apply IH. }
    rewrite N. reflexivity.
Qed.

(** The [finally] block leaves the tree without the staging directory. *)
Lemma jobFinally_disk (t : File) (fs : node) :
  disk (jobFinally (Some t) fs) = deleteRecursivelyAt (canonicalFile t) fs.
Proof.
  unfold jobFinally, File_exists, File_deleteRecursively. simpl.
  destruct (existsAt (canonicalFile t) fs) eqn:E; [reflexivity|].
  now rewrite deleteRecursivelyAt_absent.
Qed.

(** A directory made where nothing was, in a directory that is there:
    it is empty, and removing it gives the tree back. *)
Lemma fresh_directory (pc : File) (name : string) (fs : node) :
  isDirectoryAt pc fs = true ->
  existsAt (pc ++ [name]) fs = false ->
  lookup (pc ++ [name]) (fst (mkdirsAt (pc ++ [name]) fs)) = Some (DirN []) /\
  deleteRecursivelyAt (pc ++ [name]) (fst (mkdirsAt (pc ++ [name]) fs)) = fs.
Proof.
  intros Hp Hx.
  destruct (isDirectoryAt_inv _ _ Hp) as [kids Hk]. unfold lookup in Hk.
  assert (Ha : find_kid name kids = None).
  { unfold existsAt, lookup in Hx. rewrite lookup_o_app, Hk in Hx. simpl in Hx.
    now destruct (find_kid name kids). }
  split.
  - unfold lookup. rewrite <- mkdirs_some.
    now apply (lookup_after_mkdirs _ _ _ kids).
  - unfold deleteRecursivelyAt, alter. rewrite <- mkdirs_some.
    now rewrite (remove_after_mkdirs _ _ _ kids Hk Ha).
Qed.

(** Creating the staging directory next to the destination. *)
Lemma staging_created (e : env) (outputPath : string) (fs : node) :
  noSlash (uuid e) = true ->
  isDirectoryAt (canonicalFile (parentFile (mkFile outputPath))) fs = true ->
  File_exists (tempDirOf e outputPath) fs = false ->
  let tc := canonicalFile (tempDirOf e outputPath) in
  let fs1 := fst (File_mkdirs (tempDirOf e outputPath) fs) in
  tc <> [] /\
  snd (File_mkdirs (tempDirOf e outputPath) fs) = true /\
  lookup tc fs1 = Some (DirN []) /\
  deleteRecursivelyAt tc fs1 = fs.
Proof.
  intros Hu Hp Hx tc fs1. subst tc fs1.
  unfold File_exists, File_mkdirs in *.
  rewrite (canonical_tempDirOf _ _ Hu) in *.
  set (pc := canonicalFile (parentFile (mkFile outputPath))) in *.
  destruct (fresh_directory pc (tempDirName e) fs Hp Hx) as [L R].
  assert (Hne : pc ++ [tempDirName e] <> []) by (destruct pc; discriminate).
  repeat split; trivial.
  unfold mkdirsAt at 1. cbn [snd]. rewrite Hx. unfold isDirectoryAt.
  change (unwrap fs (mkdirs_o (pc ++ [tempDirName e]) (Some fs)))
    with (fst (mkdirsAt (pc ++ [tempDirName e]) fs)).
  now rewrite L.
Qed.

(* ================================================================== *)
(** * Facts about the job, one entry, and the commit *)

Lemma job_releases (e : env) (archivePath outputPath : string) (m : module) :
  activeExtraction (fst (job e archivePath outputPath m)) = false /\
  currentJobRef (fst (job e archivePath outputPath m)) = false.
Proof.
  unfold job. destruct (jobBody e archivePath outputPath (disk m)) as [[fs t] s].
  now split.
Qed.

Lemma canonical_tempDirOf_nonempty (e : env) (outputPath : string) :
  noSlash (uuid e) = true -> canonicalFile (tempDirOf e outputPath) <> [].
Proof.
  intro H. rewrite (canonical_tempDirOf _ _ H).
  now destruct (canonicalFile (parentFile (mkFile outputPath))).
Qed.

(** The [try] block leaves [tempDir] unset with the tree untouched, or set
    to the staging directory of the request. *)
Lemma jobBody_tempDir (e : env) (archivePath outputPath : string) (fs : node) :
  match jobBody e archivePath outputPath fs with
  | (fs', None, _) => fs' = fs
  | (_, Some t, _) => t = tempDirOf e outputPath
  end.
Proof.
  unfold jobBody.
  destruct (File_exists (mkFile archivePath) fs); simpl; [|reflexivity].
  destruct (isActive e BeforeStaging); simpl; [|reflexivity].
  destruct (if mkdirsPermitted e then File_mkdirs (tempDirOf e outputPath) fs
            else (fs, false)) as [fs1 created].
  destruct created; simpl; [|reflexivity].
  destruct (if File_isFile (mkFile archivePath) fs1 then openInArchive e else None)
    as [items|]; [|reflexivity].
  destruct (isActive e AfterOpen); simpl; [|reflexivity].
  destruct (stageItems e (tempDirIsAbsolute outputPath) (tempDirOf e outputPath) 0 items [] fs1)
    as [fs2 l|code fs2 l]; [|reflexivity].
  destruct (isActive e BeforeMove); simpl; [|reflexivity].
  destruct (atomicMoveOrFallback e (tempDirOf e outputPath) (mkFile outputPath) _)
    as [fs4 ok].
  destruct ok; simpl; [|reflexivity].
  now destruct (isActive e AtDelivery).
Qed.




(** An entry path that starts with a separator is taken below the
    staging root, as [File(File, String)] does, and passes the sanitiser. *)
Lemma absolute_entry_is_taken_below :
  isSafeEntryPath (Sample.calm []) "/etc/passwd" ["data"; "stage"]
  = Some ["data"; "stage"; "etc"; "passwd"].
Proof. reflexivity. Qed.

Lemma remove_keeps_absent (q p : File) (o : option node) :
  lookup_o p o = None -> lookup_o p (alter_o q (fun _ => None) o) = None.
Proof.
  revert p o. induction q as [|b q IH]; intros p o H; simpl.
  - apply lookup_o_none.
  - destruct o as [[d|kids]|]; try exact H.
    destruct p as [|a p]; [discriminate|]. simpl in *.
    destruct (String.eqb a b) eqn:E.
    + apply String.eqb_eq in E. subst b. rewrite find_set_same. now apply IH.
    + apply String.eqb_neq in E. now rewrite find_set_other.
Qed.

Lemma stageItems_codes (e : env) (abs : bool) (tempDir : File) (items : list item) :
  forall index l fs code fs' l',
    stageItems e abs tempDir index items l fs = Aborted code fs' l' ->
    code = "UNARCHIVE_CANCELLED" \/ code = "UNARCHIVE_ENTRY_INVALID".
Proof.
  induction items as [|it rest IH]; intros index l fs code fs' l' H;
    cbn [stageItems] in H; [discriminate|].
  destruct (isActive e (AtEntry index)); cbn [negb] in H;
    [|injection H as <- _ _; now left].
  destruct (isFolder it); cbn [negb] in H; [now apply IH in H|].
  destruct (isSafeEntryPath e (itemPath index it) tempDir) as [out|];
    [|injection H as <- _ _; now right].
  destruct (stageEntry abs tempDir it out l fs) as [fs1 l1]. now apply IH in H.
Qed.

(** A commit that fails on a free destination leaves the tree alone. *)
Lemma move_failure (e : env) (source dest : File) (fs fs' : node) :
  File_exists dest fs = false ->
  atomicMoveOrFallback e source dest fs = (fs', false) -> fs' = fs.
Proof.
  intros Hx. unfold atomicMoveOrFallback, tryRename. rewrite Hx.
  destruct (atomicMovePermitted e);
    destruct (File_renameTo source dest fs) as [fs1|];
    destruct (renamePermitted e StagingIn);
    intro H; try discriminate; now injection H as <-.
Qed.

(** Every output path that the validator of the specification accepts is
    accepted by [isPathAllowed]. *)
Lemma validate_isPathAllowed (ctx : context) (path : string) :
  forallb (canonicalizesPath ctx) (canonicalized ctx path) = true ->
  validate ctx path = true -> isPathAllowed ctx path = true.
Proof.
  intro K0.
  unfold validate, isPathAllowed, allowedRootFiles, allowedRoots, canonicalPath.
  rewrite K0.
  set (c := canonicalFile (mkFile path)).
  assert (K : forall root, isPrefixOf root c = true ->
                startsWith (pathString c) (pathString root) = true).
  { intros root H. destruct (isPrefixOf_inv _ _ H) as [r ->].
    unfold startsWith. destruct root as [|a root].
    - destruct r; [reflexivity|]. cbn [app pathString joinNames fold_right].
      now rewrite prefix_cons, Ascii.eqb_refl, prefix_empty.
    - change (pathString ((a :: root) ++ r)) with (joinNames ((a :: root) ++ r)).
      change (pathString (a :: root)) with (joinNames (a :: root)).
      rewrite joinNames_app. apply prefix_of_append. }
  intro H. destruct (getExternalFilesDir ctx) as [d|]; cbn [existsb] in *;
    repeat (apply orb_prop in H as [H|H]; [rewrite (K _ H)|]);
    rewrite ?orb_true_r; try reflexivity; discriminate.
Qed.

Lemma isFileAt_after_delete (out : File) (fs : node) :
  out <> [] ->
  isFileAt out (if existsAt out fs then deleteAt out fs else fs) = false.
Proof.
  intro Ho. unfold existsAt, isFileAt, deleteAt.
  destruct (lookup out fs) as [n|] eqn:L; [|now rewrite L].
  rewrite (lookup_alter_own out delete_one fs n Ho L).
  now destruct n as [d|[|k ks]].
Qed.

(** An entry is collected only when the decoder reports [OK] without
    throwing and a file with content is there. *)
Lemma stageEntry_collects (abs : bool) (tempDir : File) (it : item) (out : File)
    (l : list ExtractedFileInfo) (fs : node) :
  snd (stageEntry abs tempDir it out l fs) = l \/
  (extractThrows it = false /\ extractResult it = OK /\
   exists len, (0 < len)%Z /\
     snd (stageEntry abs tempDir it out l fs) = l ++ [describe out tempDir len]).
Proof.
  unfold stageEntry.
  destruct (fold_left (writeChunk out) (fed it) _) as [fos fs3].
  destruct (extractThrows it); [now left|].
  destruct (isOK (extractResult it) && existsAt out fs3
            && (0 <? lengthAt out fs3)%Z) eqn:E; [|now left].
  destruct abs; [|now left].
  right. apply andb_prop in E as [E E3]. apply andb_prop in E as [E1 _].
  split; [reflexivity|]. split; [now destruct (extractResult it)|].
  exists (lengthAt out fs3). split; [now apply Z.ltb_lt | reflexivity].
Qed.

(** An entry whose extraction throws leaves no file and is not collected;
    no entry leaves a file without content. *)
Lemma stageEntry_tolerates (abs : bool) (tempDir : File) (it : item) (out : File)
    (l : list ExtractedFileInfo) (fs : node) :
  out <> [] ->
  (extractThrows it = true ->
   isFileAt out (fst (stageEntry abs tempDir it out l fs)) = false /\
   snd (stageEntry abs tempDir it out l fs) = l) /\
  (lengthAt out (fst (stageEntry abs tempDir it out l fs)) = 0%Z ->
   isFileAt out (fst (stageEntry abs tempDir it out l fs)) = false).
Proof.
  intro Ho. unfold stageEntry.
  destruct (fold_left (writeChunk out) (fed it) _) as [fos fs3].
  destruct (extractThrows it); cbn [fst snd].
  - split; [intros _; split; [now apply isFileAt_after_delete | reflexivity]|].
    intros _. now apply isFileAt_after_delete.
  - split; [discriminate|].
    destruct (isOK (extractResult it) && existsAt out fs3
              && (0 <? lengthAt out fs3)%Z) eqn:E; cbn [fst].
    + destruct abs; cbn [fst].
      * apply andb_prop in E as [_ E]. apply Z.ltb_lt in E. intro Z0.
        rewrite Z0 in E. discriminate.
      * intros _. now apply isFileAt_after_delete.
    + destruct (existsAt out fs3 && (lengthAt out fs3 =? 0)%Z) eqn:D.
      * intros _. apply andb_prop in D as [D _].
        pose proof (isFileAt_after_delete out fs3 Ho) as K.
        now rewrite D in K.
      * intro Z0. rewrite Z0 in D. cbn [Z.eqb] in D. rewrite andb_true_r in D.
        unfold isFileAt, existsAt in *. now destruct (lookup out fs3).
Qed.

Lemma ios_tempDirName_plain (e : IOS.env) :
  noSlash (IOS.uuid e) = true -> plainName (IOS.tempDirName e).
Proof.
  intro H. split; [discriminate|]. unfold IOS.tempDirName.
  rewrite !noSlash_append, H, noSlash_showIndex. reflexivity.
Qed.

Lemma canonical_tempPathOf (e : IOS.env) (outputPath : string) :
  noSlash (IOS.uuid e) = true ->
  canonicalFile (IOS.tempPathOf e outputPath)
  = canonicalFile (parentFile (mkFile outputPath)) ++ [IOS.tempDirName e].
Proof.
  intro H. unfold IOS.tempPathOf, mkFileIn.
  rewrite (segments_plain _ (ios_tempDirName_plain _ H)).
  now apply canonicalFile_app.
Qed.

Lemma node_induction (P : node -> Prop) :
  (forall d, P (FileN d)) ->
  (forall kids, Forall (fun kc => P (snd kc)) kids -> P (DirN kids)) ->
  forall n, P n.
Proof.
  intros Hf Hd. fix IH 1. intros [d|kids]; [apply Hf|].
  apply Hd. induction kids as [|kc r IHr]; constructor; [apply IH | exact IHr].
Qed.

Lemma enumerateFiles_sound (base : File) (n : node) :
  forall dir fi,
    In fi (enumerateFiles dir base n) ->
    exists rel d,
      fileIn n rel d /\
      fi = describe (dir ++ rel) base (Z.of_nat (List.length d)).
Proof.
  induction n as [d|kids IH] using node_induction; intros dir fi H;
    [contradiction|].
  simpl in H. apply in_flat_map in H as [[s c] [Hin H]].
  rewrite Forall_forall in IH. specialize (IH _ Hin). simpl in IH, H.
  destruct c as [d|kids'].
  - destruct H as [<-|[]]. exists [s], d. split; [now constructor | reflexivity].
  - destruct (IH _ _ H) as [rel [d [F ->]]].
    exists (s :: rel), d. split; [now apply (fileIn_below _ _ kids')|].
    now rewrite <- app_assoc.
Qed.

Lemma enumerateFiles_complete (base : File) (n : node) rel d :
  fileIn n rel d ->
  forall dir,
    In (describe (dir ++ rel) base (Z.of_nat (List.length d)))
      (enumerateFiles dir base n).
Proof.
  induction 1 as [kids s d Hin|kids s kids' rel d Hin F IH]; intro dir; simpl;
    apply in_flat_map.
  - exists (s, FileN d). split; [exact Hin|]. now left.
  - exists (s, DirN kids'). split; [exact Hin|]. cbn [fst snd].
    specialize (IH (dir ++ [s])). now rewrite <- app_assoc in IH.
Qed.

Lemma fileIn_nonempty (n : node) rel d : fileIn n rel d -> rel <> [].
Proof. destruct 1; discriminate. Qed.

Lemma relativize_app (base rel : File) : relativize base (base ++ rel) = rel.
Proof.
  induction base as [|b base IH]; simpl; [now destruct rel|].
  now rewrite String.eqb_refl.
Qed.

Lemma last_app_nonempty (a r : list string) (d : string) :
  r <> [] -> last (a ++ r) d = last r d.
Proof.
  intro H. induction a as [|x a IH]; simpl; [reflexivity|].
  destruct (a ++ r) eqn:E; [|exact IH].
  apply app_eq_nil in E as [_ E]. now elim H.
Qed.

(** What [describe] says of a file below the base. *)
Lemma describe_below (base rel : File) (len : Z) :
  rel <> [] ->
  describe (base ++ rel) base len
  = {| fi_path := absolutePath (base ++ rel);
       fi_name := fileName rel;
       fi_relativePath := relativeString rel;
       fi_size := len |}.
Proof.
  intro H. unfold describe, fileName.
  now rewrite relativize_app, last_app_nonempty.
Qed.

Lemma jobBody_resolved (e : env) (archivePath outputPath : string)
    (fs fs' : node) (t : option File) files out :
  jobBody e archivePath outputPath fs = (fs', t, Resolved files out) ->
  files = enumerateFrom (mkFile outputPath) fs' /\ out = outputPath.
Proof.
  unfold jobBody.
  destruct (File_exists (mkFile archivePath) fs); cbn [negb]; [|discriminate].
  destruct (isActive e BeforeStaging); cbn [negb]; [|discriminate].
  destruct (if mkdirsPermitted e then File_mkdirs (tempDirOf e outputPath) fs
            else (fs, false)) as [fs1 created].
  destruct created; cbn [negb]; [|discriminate].
  destruct (if File_isFile (mkFile archivePath) fs1 then openInArchive e else None)
    as [items|]; [|discriminate].
  destruct (isActive e AfterOpen); cbn [negb]; [|discriminate].
  destruct (stageItems e (tempDirIsAbsolute outputPath) (tempDirOf e outputPath) 0 items [] fs1)
    as [fs2 l|code fs2 l]; [|discriminate].
  destruct (isActive e BeforeMove); cbn [negb]; [|discriminate].
  destruct (atomicMoveOrFallback e (tempDirOf e outputPath) (mkFile outputPath) _)
    as [fs4 ok].
  destruct ok; cbn [negb]; [|discriminate].
  destruct (isActive e AtDelivery); cbn [negb]; [|discriminate].
  intro H. injection H as <- _ <- <-. now split.
Qed.

Lemma isPrefixOf_app_both (p a b : File) :
  isPrefixOf (p ++ a) (p ++ b) = isPrefixOf a b.
Proof.
  induction p as [|s p IH]; simpl; [reflexivity|].
  now rewrite String.eqb_refl.
Qed.

Lemma mkdirs_fresh_child (p : File) (x : string) (o : option node) :
  lookup_o p o = None -> lookup_o (p ++ [x]) (mkdirs_o p o) = None.
Proof.
  revert o. induction p as [|a p IH]; intros o H.
  - simpl in H. now subst o.
  - destruct o as [[d|kids]|]; simpl in *; try reflexivity.
    + rewrite find_set_same. now apply IH.
    + destruct (mkdirs_o p None) as [c|] eqn:M; simpl.
      * rewrite String.eqb_refl, <- M. apply IH. apply lookup_o_none.
      * apply lookup_o_none.
Qed.

(** The chunks of an entry, all accepted, go to the end of its file. *)
Lemma fold_writeChunk_accepted (out : File) (chunks : list chunk) :
  out <> [] -> forallb chunk_accepted chunks = true ->
  forall acc fs,
    lookup out fs = Some (FileN acc) ->
    exists fs',
      fold_left (writeChunk out) chunks (true, fs) = (true, fs') /\
      lookup out fs' = Some (FileN (acc ++ flat_map chunk_data chunks)).
Proof.
  intros Ho. induction chunks as [|c cs IH]; intros Hc acc fs H;
    cbn [fold_left flat_map].
  - exists fs. now rewrite app_nil_r.
  - cbn [forallb] in Hc. apply andb_prop in Hc as [Hc1 Hc2].
    unfold writeChunk at 2. rewrite Hc1.
    destruct (IH Hc2 (acc ++ chunk_data c) (appendAt out (chunk_data c) fs))
      as [fs' [F L]].
    + unfold appendAt. now rewrite (lookup_alter_own _ _ _ _ Ho H).
    + exists fs'. split; [exact F|]. now rewrite app_assoc.
Qed.

(** An entry whose data arrives whole, at a place that is free in a
    directory that is there, is written out; it is collected when the
    staging directory is an absolute file, and deleted again when it is a
    relative one. *)
Lemma stageEntry_whole (abs : bool) (tempDir : File) (it : item) (out : File)
    (l : list ExtractedFileInfo) (fs : node) :
  out <> [] ->
  isDirectoryAt (parentFile out) fs = true ->
  lookup out fs = None ->
  extractThrows it = false -> extractResult it = OK ->
  allAccepted it = true -> fedData it <> [] ->
  exists fs',
    lookup out fs' = Some (FileN (fedData it)) /\
    stageEntry abs tempDir it out l fs
    = if abs
      then (fs',
            l ++ [describe out tempDir (Z.of_nat (List.length (fedData it)))])
      else (deleteAt out fs', l).
Proof.
  intros Ho Hp Hn Ht Hr Ha Hd.
  destruct (isDirectoryAt_inv _ _ Hp) as [kids Hk].
  unfold stageEntry.
  assert (E1 : fst (mkdirsAt (parentFile out) fs) = fs).
  { unfold mkdirsAt. cbn [fst]. unfold lookup in Hk.
    now rewrite (mkdirs_o_dir _ _ _ Hk). }
  rewrite E1. unfold existsAt at 1. rewrite Hn.
  unfold allAccepted, fedData in *.
  destruct (fed it) as [|c cs]; [now elim Hd|].
  cbn [forallb] in Ha. apply andb_prop in Ha as [Hc1 Hc2].
  cbn [fold_left]. unfold writeChunk at 2. unfold openAt.
  assert (L0 : lookup out (alter out open_one fs) = Some (FileN [])).
  { rewrite (lookup_alter_child _ _ _ _ Ho Hk), Hn. reflexivity. }
  unfold isFileAt at 1. rewrite L0, Hc1.
  destruct (fold_writeChunk_accepted out cs Ho Hc2 (chunk_data c)
              (appendAt out (chunk_data c) (alter out open_one fs)))
    as [fs' [F L]].
  { unfold appendAt. now rewrite (lookup_alter_own _ _ _ _ Ho L0). }
  rewrite F, Ht, Hr. cbn [isOK flat_map] in *.
  unfold existsAt, lengthAt. rewrite L.
  assert (P : (0 <? Z.of_nat (List.length (chunk_data c ++ flat_map chunk_data cs)))%Z
              = true).
  { apply Z.ltb_lt.
    destruct (chunk_data c ++ flat_map chunk_data cs); [now elim Hd|].
    simpl. lia. }
  rewrite P. cbn [andb]. exists fs'. split; [exact L|]. reflexivity.
Qed.

Lemma stageEntry_materializes (tempDir : File) (it : item) (out : File)
    (l : list ExtractedFileInfo) (fs : node) :
  out <> [] ->
  isDirectoryAt (parentFile out) fs = true ->
  lookup out fs = None ->
  extractThrows it = false -> extractResult it = OK ->
  allAccepted it = true -> fedData it <> [] ->
  exists fs',
    stageEntry true tempDir it out l fs
    = (fs', l ++ [describe out tempDir (Z.of_nat (List.length (fedData it)))]) /\
    lookup out fs' = Some (FileN (fedData it)).
Proof.
  intros Ho Hp Hn Ht Hr Ha Hd.
  destruct (stageEntry_whole true tempDir it out l fs Ho Hp Hn Ht Hr Ha Hd)
    as [fs' [L E]].
  exists fs'. now split.
Qed.

(** The same entry under a relative staging directory: nothing is left of
    it, and nothing collected. *)
Lemma stageEntry_relative (tempDir : File) (it : item) (out : File)
    (l : list ExtractedFileInfo) (fs : node) :
  out <> [] ->
  isDirectoryAt (parentFile out) fs = true ->
  lookup out fs = None ->
  extractThrows it = false -> extractResult it = OK ->
  allAccepted it = true -> fedData it <> [] ->
  exists fs',
    stageEntry false tempDir it out l fs = (fs', l) /\
    lookup out fs' = None.
Proof.
  intros Ho Hp Hn Ht Hr Ha Hd.
  destruct (stageEntry_whole false tempDir it out l fs Ho Hp Hn Ht Hr Ha Hd)
    as [fs' [L E]].
  exists (deleteAt out fs'). split; [exact E|].
  unfold deleteAt. now rewrite (lookup_alter_own _ _ _ _ Ho L).
Qed.

Lemma renameAt_lookup (src dst : File) (fs fs' : node) :
  renameAt src dst fs = Some fs' ->
  exists n, lookup src fs = Some n /\ lookup dst fs' = Some n.
Proof.
  unfold renameAt. destruct src as [|a src]; [discriminate|].
  destruct dst as [|b dst]; [discriminate|].
  destruct (lookup (a :: src) fs) as [n|] eqn:L; [|discriminate].
  destruct (isPrefixOf (a :: src) (b :: dst)); [discriminate|].
  destruct (isDirectoryAt (parentFile (b :: dst)) _) eqn:D; [|discriminate].
  destruct (replaceable n _); cbn [andb]; [|discriminate].
  intro H. injection H as <-. exists n. split; [reflexivity|].
  destruct (isDirectoryAt_inv _ _ D) as [kids Hk].
  rewrite (lookup_alter_child _ _ _ kids); [reflexivity | discriminate | exact Hk].
Qed.

(** A commit that succeeds onto a free destination is the move of the
    staging directory. *)
Lemma move_success (e : env) (source dest : File) (fs fs' : node) :
  File_exists dest fs = false ->
  atomicMoveOrFallback e source dest fs = (fs', true) ->
  File_renameTo source dest fs = Some fs'.
Proof.
  intros Hx. unfold atomicMoveOrFallback, tryRename. rewrite Hx.
  destruct (atomicMovePermitted e).
  - destruct (File_renameTo source dest fs) as [fs1|] eqn:R.
    + intro H. now injection H as <-.
    + destruct (renamePermitted e StagingIn); discriminate.
  - destruct (renamePermitted e StagingIn); [|discriminate].
    destruct (File_renameTo source dest fs) as [fs1|]; [|discriminate].
    intro H. now injection H as <-.
Qed.

(** What a resolved [try] block went through. *)
Lemma jobBody_resolved_inv (e : env) (archivePath outputPath : string)
    (fs fs' : node) (t : option File) files out :
  jobBody e archivePath outputPath fs = (fs', t, Resolved files out) ->
  exists fs1 items fs2 l,
    File_mkdirs (tempDirOf e outputPath) fs = (fs1, true) /\
    openInArchive e = Some items /\
    stageItems e (tempDirIsAbsolute outputPath) (tempDirOf e outputPath) 0 items [] fs1 = Staged fs2 l /\
    atomicMoveOrFallback e (tempDirOf e outputPath) (mkFile outputPath)
      (if File_exists (mkFile outputPath) fs2
       then File_deleteRecursively (mkFile outputPath) fs2 else fs2)
    = (fs', true) /\
    t = Some (tempDirOf e outputPath).
Proof.
  unfold jobBody.
  destruct (File_exists (mkFile archivePath) fs); cbn [negb]; [|discriminate].
  destruct (isActive e BeforeStaging); cbn [negb]; [|discriminate].
  destruct (mkdirsPermitted e); [|discriminate].
  destruct (File_mkdirs (tempDirOf e outputPath) fs) as [fs1 created].
  destruct created; cbn [negb]; [|discriminate].
  destruct (File_isFile (mkFile archivePath) fs1); [|discriminate].
  destruct (openInArchive e) as [items|]; [|discriminate].
  destruct (isActive e AfterOpen); cbn [negb]; [|discriminate].
  destruct (stageItems e (tempDirIsAbsolute outputPath) (tempDirOf e outputPath) 0 items [] fs1)
    as [fs2 l|code fs2 l] eqn:S; [|discriminate].
  destruct (isActive e BeforeMove); cbn [negb]; [|discriminate].
  destruct (atomicMoveOrFallback e (tempDirOf e outputPath) (mkFile outputPath) _)
    as [fs4 ok] eqn:M.
  destruct ok; cbn [negb]; [|discriminate].
  destruct (isActive e AtDelivery); cbn [negb]; [|discriminate].
  intro H. injection H as <- <- _ _.
  exists fs1, items, fs2, l. repeat split; trivial.
Qed.

(** A relative path string without a separator names a single entry. *)
Lemma relativeString_one (rel : list string) (name : string) :
  noSlash name = true -> relativeString rel = name ->
  rel <> [] -> rel = [name].
Proof.
  intros Hn E Hr. destruct rel as [|s r]; [now elim Hr|].
  cbn [relativeString] in E. destruct r as [|x r].
  - cbn [joinNames fold_right] in E. rewrite append_empty_r in E. now subst.
  - exfalso. rewrite <- E in Hn. rewrite noSlash_append in Hn.
    apply andb_prop in Hn as [_ Hn]. cbn [joinNames fold_right noSlash] in Hn.
    unfold separatorChar in Hn. now rewrite Ascii.eqb_refl in Hn.
Qed.

Lemma In_find_kid (s : string) (c : node) kids :
  In (s, c) kids -> find_kid s kids <> None.
Proof.
  induction kids as [|[k c0] r IH]; [intros []|].
  intros [H|H]; cbn [find_kid].
  - injection H as -> ->. now rewrite String.eqb_refl.
  - destruct (String.eqb k s); [discriminate | now apply IH].
Qed.

Lemma unknown_name_plain (index : nat) :
  plainName ("unknown_file_" ++ showIndex index).
Proof.
  split; [discriminate|]. now rewrite noSlash_append, noSlash_showIndex.
Qed.

(* ================================================================== *)
(** * Properties of the code *)

Lemma sinceRefusal_accepted (chunks : list chunk) :
  forallb chunk_accepted (sinceRefusal chunks) = true.
Proof.
  induction chunks as [|c r IH]; [reflexivity|].
  cbn [sinceRefusal]. destruct (forallb chunk_accepted (c :: r)) eqn:E; auto.
Qed.

Lemma sinceRefusal_snoc (chunks : list chunk) (c : chunk) :
  sinceRefusal (chunks ++ [c])
  = if chunk_accepted c then sinceRefusal chunks ++ [c] else [].
Proof.
  induction chunks as [|d r IH].
  - cbn. now destruct (chunk_accepted c).
  - cbn [app sinceRefusal]. rewrite IH.
    change (forallb chunk_accepted (d :: r ++ [c]))
      with (forallb chunk_accepted ((d :: r) ++ [c])).
    rewrite forallb_app. cbn [forallb]. rewrite andb_true_r.
    destruct (chunk_accepted c); rewrite ?andb_false_r, ?andb_true_r.
    + destruct (chunk_accepted d && forallb chunk_accepted r); reflexivity.
    + reflexivity.
Qed.

(** After [mkdirs] of a directory, what is found right under it is what
    was found there before. *)
Lemma lookup_child_after_mkdirs (p : File) (x : string) (o : option node) :
  lookup_o (p ++ [x]) (mkdirs_o p o) = lookup_o (p ++ [x]) o.
Proof.
  revert o. induction p as [|a p IH]; intro o.
  - destruct o as [[d|kids]|]; reflexivity.
  - destruct o as [[d|kids]|]; cbn [app mkdirs_o lookup_o].
    + reflexivity.
    + rewrite find_set_same. apply IH.
    + rewrite find_set_same, IH. now rewrite lookup_o_none.
Qed.

(** A change at a place keeps the directory that holds it. *)
Lemma parent_stays (out : File) g (fs : node) kids :
  out <> [] -> lookup (parentFile out) fs = Some (DirN kids) ->
  exists kids', lookup (parentFile out) (alter out g fs) = Some (DirN kids').
Proof.
  intros Ho Hp. unfold lookup, parentFile in *.
  rewrite <- (alter_some _ g fs Ho).
  set (p := removelast out) in *.
  rewrite (app_removelast_last EmptyString Ho). fold p.
  rewrite alter_o_app.
  rewrite (lookup_alter_same _ _ _ _ Hp). cbn. eauto.
Qed.

(** The state of the write callback after the chunks fed so far: the
    stream is open exactly when a chunk has been accepted since the last
    refusal, and the file then holds the data of these chunks. *)
Lemma fold_writeChunk_state (out : File) (chunks : list chunk) (fs : node) kids :
  out <> [] ->
  lookup (parentFile out) fs = Some (DirN kids) ->
  lookup out fs = None ->
  let st := fold_left (writeChunk out) chunks (false, fs) in
  (exists kids', lookup (parentFile out) (snd st) = Some (DirN kids')) /\
  match sinceRefusal chunks with
  | [] => fst st = false /\ lookup out (snd st) = None
  | run => fst st = true /\
           lookup out (snd st) = Some (FileN (flat_map chunk_data run))
  end.
Proof.
  intros Ho Hp Hn. induction chunks as [|c IH] using rev_ind.
  - cbn. split; [eauto | now split].
  - cbv zeta in *. rewrite fold_left_app. cbn [fold_left].
    destruct (fold_left (writeChunk out) IH (false, fs)) as [fos fs1].
    cbn [fst snd] in *. destruct IHIH as [[k1 Hk1] Hrun].
    rewrite sinceRefusal_snoc.
    assert (Del : forall fs0 k0,
              lookup (parentFile out) fs0 = Some (DirN k0) ->
              (exists d, lookup out fs0 = Some (FileN d)) \/ lookup out fs0 = None ->
              let fs' := if existsAt out fs0 then deleteAt out fs0 else fs0 in
              (exists kids', lookup (parentFile out) fs' = Some (DirN kids')) /\
              lookup out fs' = None).
    { intros fs0 k0 H0 Hf. cbv zeta. unfold existsAt, deleteAt.
      destruct Hf as [[d Hd]|Hd]; rewrite Hd.
      - split; [now apply (parent_stays _ _ _ k0)|].
        now rewrite (lookup_alter_own _ _ _ _ Ho Hd).
      - split; eauto. }
    assert (Opn : lookup out fs1 = None \/ (exists d, lookup out fs1 = Some (FileN d)) ->
              lookup out (alter out open_one fs1) = Some (FileN [])).
    { intros [H|[d H]]; rewrite (lookup_alter_child _ _ _ _ Ho Hk1), H; reflexivity. }
    unfold writeChunk.
    destruct (sinceRefusal IH) as [|r0 run] eqn:Run.
    + destruct Hrun as [-> L1]. unfold openAt, isFileAt.
      rewrite (Opn (or_introl L1)).
      destruct (parent_stays out open_one fs1 k1 Ho Hk1) as [k2 Hk2].
      destruct (chunk_accepted c).
      * cbn [fst snd app flat_map]. rewrite app_nil_r. split.
        -- now apply (parent_stays _ _ _ k2).
        -- split; [reflexivity|]. unfold appendAt.
           now rewrite (lookup_alter_own _ _ _ _ Ho (Opn (or_introl L1))).
      * cbn [fst snd].
        destruct (Del (alter out open_one fs1) k2 Hk2) as [D1 D2].
        { left. eexists. apply Opn. now left. }
        split; [exact D1 | now split].
    + destruct Hrun as [-> L1].
      destruct (chunk_accepted c).
      * cbn [fst snd]. split; [now apply (parent_stays _ _ _ k1)|].
        split; [reflexivity|]. unfold appendAt.
        rewrite (lookup_alter_own _ _ _ _ Ho L1).
        change ((r0 :: run) ++ [c]) with (r0 :: (run ++ [c])).
        cbn [append_one flat_map]. rewrite flat_map_app. cbn [flat_map].
        now rewrite app_nil_r, app_assoc.
      * cbn [fst snd].
        destruct (Del fs1 k1 Hk1) as [D1 D2]; [left; eauto|].
        split; [exact D1 | now split].
Qed.

(** X1.  What the loop body leaves for one entry.  The parent directories can
    be made and the entry's place is free or holds a file (or an empty
    directory).  Then the entry's file holds exactly the data fed since
    the last refused write - nothing of what was there before - and there is
    no file when that is no data at all or when the extraction threw.  The
    entry is collected when moreover the decoder reported [OK] and the
    staging directory is an absolute file.  Under a relative staging
    directory an entry that the decoder reported [OK] is never collected,
    and its file is deleted again. *)
Theorem staged_entry_holds_last_run
    (absolute : bool) (tempDir : File) (it : item) (out : File)
    (l : list ExtractedFileInfo) (fs : node) :
  out <> [] ->
  isDirectoryAt (parentFile out) (fst (mkdirsAt (parentFile out) fs)) = true ->
  lookup out fs = None \/ (exists d, lookup out fs = Some (FileN d)) \/
  lookup out fs = Some (DirN []) ->
  let data := flat_map chunk_data (sinceRefusal (fed it)) in
  lookup out (fst (stageEntry absolute tempDir it out l fs))
  = (if extractThrows it then None
     else if isOK (extractResult it) && negb absolute then None
     else match data with [] => None | _ => Some (FileN data) end) /\
  snd (stageEntry absolute tempDir it out l fs)
  = (if negb (extractThrows it) && isOK (extractResult it)
        && negb (Nat.eqb (List.length data) 0) && absolute
     then l ++ [describe out tempDir (Z.of_nat (List.length data))]
     else l).
Proof.
  intros Ho Hp Hfree data. unfold stageEntry.
  set (fs1 := fst (mkdirsAt (parentFile out) fs)) in *.
  destruct (isDirectoryAt_inv _ _ Hp) as [k1 Hk1].
  assert (L1 : lookup out fs1 = lookup out fs).
  { unfold fs1, lookup. rewrite <- mkdirs_some.
    rewrite (app_removelast_last EmptyString Ho) at 1 3.
    apply lookup_child_after_mkdirs. }
  set (fs2 := if existsAt out fs1 then deleteAt out fs1 else fs1).
  assert (H2 : (exists k2, lookup (parentFile out) fs2 = Some (DirN k2)) /\
               lookup out fs2 = None).
  { unfold fs2, existsAt, deleteAt. rewrite L1.
    destruct Hfree as [H|[[d H]|H]]; rewrite H.
    - split; [eauto | now rewrite L1].
    - rewrite <- L1 in H. split; [now apply (parent_stays _ _ _ k1)|].
      now rewrite (lookup_alter_own _ _ _ _ Ho H).
    - rewrite <- L1 in H. split; [now apply (parent_stays _ _ _ k1)|].
      now rewrite (lookup_alter_own _ _ _ _ Ho H). }
  destruct H2 as [[k2 Hk2] Hn2].
  pose proof (fold_writeChunk_state out (fed it) fs2 k2 Ho Hk2 Hn2) as St.
  cbv zeta in St.
  destruct (fold_left (writeChunk out) (fed it) (false, fs2)) as [fos fs3].
  cbn [fst snd] in St. destruct St as [[k3 Hk3] Hrun].
  fold data in Hrun. subst data.
  destruct (extractThrows it); cbn [negb andb fst snd].
  - split; [|reflexivity]. unfold existsAt, deleteAt.
    destruct (sinceRefusal (fed it)) as [|c run].
    + destruct Hrun as [_ L3]. now rewrite L3.
    + destruct Hrun as [_ L3]. rewrite L3.
      now rewrite (lookup_alter_own _ _ _ _ Ho L3).
  - unfold existsAt, lengthAt, deleteAt.
    destruct (sinceRefusal (fed it)) as [|c run].
    + destruct Hrun as [_ L3]. rewrite L3. cbn.
      rewrite !andb_false_r. cbn. rewrite L3.
      split; [|reflexivity].
      now destruct (isOK (extractResult it) && negb absolute).
    + destruct Hrun as [_ L3]. rewrite L3.
      destruct (flat_map chunk_data (c :: run)) as [|b0 bs] eqn:D.
      * cbn [List.length Z.of_nat Z.ltb Z.compare Z.eqb Nat.eqb negb].
        rewrite !andb_false_r. cbn [andb fst snd].
        rewrite (lookup_alter_own _ _ _ _ Ho L3). cbn [delete_one].
        split; [|reflexivity].
        now destruct (isOK (extractResult it) && negb absolute).
      * assert (P : (0 <? Z.of_nat (List.length (b0 :: bs)))%Z = true)
          by (apply Z.ltb_lt; cbn [List.length]; lia).
        rewrite P. cbn [Nat.eqb List.length negb]. rewrite !andb_true_r.
        destruct (isOK (extractResult it)); cbn [andb fst snd].
        -- destruct absolute; cbn [negb fst snd].
           ++ now rewrite L3.
           ++ now rewrite (lookup_alter_own _ _ _ _ Ho L3).
        -- assert (Q : (Z.of_nat (S (List.length bs)) =? 0)%Z = false)
             by (apply Z.eqb_neq; lia).
           rewrite Q. cbn [andb fst snd]. now rewrite L3.
Qed.

Lemma remove_kid_comm (x y : string) kids :
  remove_kid x (remove_kid y kids) = remove_kid y (remove_kid x kids).
Proof.
  unfold remove_kid. induction kids as [|[k c] r IH]; cbn [filter fst];
    [reflexivity|].
  destruct (String.eqb k y) eqn:Ey, (String.eqb k x) eqn:Ex;
    cbn [negb filter fst]; rewrite ?Ey, ?Ex; cbn [negb]; now rewrite IH.
Qed.

Lemma alter_o_below_some (p : File) f (c : node) :
  p <> [] -> exists c', alter_o p f (Some c) = Some c'.
Proof.
  destruct p as [|a p]; [now intros []|]. intros _.
  destruct c as [d|kids]; cbn [alter_o]; eauto.
Qed.

(** Removing two entries of one directory, in either order. *)
Lemma remove_comm (P : File) (x y : string) (o : option node) :
  alter_o (P ++ [x]) (fun _ => None) (alter_o (P ++ [y]) (fun _ => None) o)
  = alter_o (P ++ [y]) (fun _ => None) (alter_o (P ++ [x]) (fun _ => None) o).
Proof.
  revert o. induction P as [|a P IH]; intro o.
  - destruct o as [[d|kids]|]; cbn [app alter_o set_kid]; try reflexivity.
    now rewrite remove_kid_comm.
  - destruct o as [[d|kids]|]; cbn [app alter_o]; try reflexivity.
    destruct (find_kid a kids) as [c|] eqn:E.
    + assert (N : forall z, P ++ [z] <> []) by (intros z; destruct P; discriminate).
      destruct (alter_o_below_some (P ++ [y]) (fun _ => None) c (N y)) as [cy Hy].
      destruct (alter_o_below_some (P ++ [x]) (fun _ => None) c (N x)) as [cx Hx].
      specialize (IH (Some c)). rewrite Hy, Hx in IH.
      rewrite Hy, Hx. cbn [set_kid]. rewrite !find_replace_same, IH.
      destruct (alter_o (P ++ [y]) (fun _ => None) (Some cx)) as [c2|];
        cbn [set_kid].
      * now rewrite !replace_replace.
      * now rewrite !remove_replace.
    + assert (Z : forall z, alter_o (P ++ [z]) (fun _ : option node => None) None
                            = None) by (intros z; destruct P; reflexivity).
      rewrite !Z. cbn [set_kid]. rewrite find_remove_same, !Z. reflexivity.
Qed.

Lemma delete_comm (P : File) (x y : string) (fs : node) :
  deleteRecursivelyAt (P ++ [x]) (deleteRecursivelyAt (P ++ [y]) fs)
  = deleteRecursivelyAt (P ++ [y]) (deleteRecursivelyAt (P ++ [x]) fs).
Proof.
  assert (N : forall z, P ++ [z] <> []) by (intros z; destruct P; discriminate).
  unfold deleteRecursivelyAt.
  assert (E : Some (alter (P ++ [x]) (fun _ => None)
                      (alter (P ++ [y]) (fun _ => None) fs))
              = Some (alter (P ++ [y]) (fun _ => None)
                        (alter (P ++ [x]) (fun _ => None) fs))).
  { rewrite <- !alter_some by apply N. apply remove_comm. }
  now injection E.
Qed.

Lemma delete_after_alter (p : File) g (fs : node) :
  p <> [] ->
  deleteRecursivelyAt p (alter p g fs) = deleteRecursivelyAt p fs.
Proof.
  intro Hp. apply remove_same_default; [exact Hp|].
  rewrite <- (alter_some _ g fs Hp). apply remove_after_alter.
Qed.

Lemma delete_twice (p : File) (fs : node) :
  p <> [] ->
  deleteRecursivelyAt p (deleteRecursivelyAt p fs) = deleteRecursivelyAt p fs.
Proof. intro Hp. unfold deleteRecursivelyAt at 2. now apply delete_after_alter. Qed.

(** The places of a request with a destination that ends in a proper
    name: destination and staging directory are two entries of one
    directory. *)
Lemma destinationNamed_places (e : env) (outputPath : string) :
  destinationNamed e outputPath = true ->
  noSlash (uuid e) = true /\
  canonicalFile (mkFile outputPath)
  = canonicalFile (parentFile (mkFile outputPath))
      ++ [fileName (mkFile outputPath)] /\
  canonicalFile (tempDirOf e outputPath)
  = canonicalFile (parentFile (mkFile outputPath)) ++ [tempDirName e] /\
  fileName (mkFile outputPath) <> tempDirName e.
Proof.
  unfold destinationNamed. intros H.
  apply andb_prop in H as [H H4]. apply andb_prop in H as [H H3].
  apply andb_prop in H as [H1 H2].
  split; [exact H1|]. split; [|split].
  - assert (Hne : mkFile outputPath <> [])
      by (destruct (mkFile outputPath); [discriminate H2 | discriminate]).
    rewrite (app_removelast_last EmptyString Hne) at 1.
    apply canonicalFile_app. cbn [forallb]. fold (fileName (mkFile outputPath)).
    now rewrite H3.
  - now apply canonical_tempDirOf.
  - apply negb_true_iff in H4. now apply String.eqb_neq.
Qed.

Lemma siblings_apart (P : File) (x y : string) (r : File) :
  x <> y -> isPrefixOf (P ++ [x]) (P ++ y :: r) = false.
Proof.
  intro N. rewrite isPrefixOf_app_both. cbn [isPrefixOf].
  apply String.eqb_neq in N. now rewrite N.
Qed.

Lemma apart_sym (P : File) (x y : string) :
  x <> y ->
  isPrefixOf (P ++ [x]) (P ++ [y]) = false /\
  isPrefixOf (P ++ [y]) (P ++ [x]) = false.
Proof.
  intro N. split; apply siblings_apart; congruence.
Qed.

Lemma plainDestination_inv (e : env) (outputPath : string) (fs : node) :
  plainDestination e outputPath fs = true ->
  destinationNamed e outputPath = true /\
  isDirectoryAt (canonicalFile (parentFile (mkFile outputPath))) fs = true /\
  File_exists (tempDirOf e outputPath) fs = false.
Proof.
  unfold plainDestination. intro H.
  apply andb_prop in H as [H H3]. apply andb_prop in H as [H1 H2].
  apply negb_true_iff in H3. now repeat split.
Qed.

Lemma delete_if_exists (p : File) (fs : node) :
  (if existsAt p fs then deleteRecursivelyAt p fs else fs)
  = deleteRecursivelyAt p fs.
Proof.
  destruct (existsAt p fs) eqn:E; [reflexivity|].
  now rewrite deleteRecursivelyAt_absent.
Qed.

Lemma atRest_finally (t : File) (fs fs' : node) :
  deleteRecursivelyAt (canonicalFile t) fs = fs' ->
  jobFinally (Some t) fs = atRest fs'.
Proof.
  intro H. pose proof (jobFinally_disk t fs) as D. rewrite H in D.
  unfold jobFinally, atRest in *. cbn [disk] in D. now rewrite D.
Qed.

(** The two ways a job can go in the setting it is written for.  Either
    it is rejected before the commit, and then it leaves the module at
    rest over the tree it found; or its staging pass went through, with
    only the staging directory changed, and the job ends as the commit
    ends. *)
Lemma job_outcome (e : env) (archivePath outputPath : string) (m : module) :
  plainDestination e outputPath (disk m) = true ->
  (exists code info,
     In code ("EXTRACTION_ERROR" :: beforeCommit) /\
     job e archivePath outputPath m = (atRest (disk m), Rejected code info))
  \/
  (exists items fs1 fs2 l,
     isActive e BeforeStaging = true /\ isActive e AfterOpen = true /\
     isActive e BeforeMove = true /\
     File_mkdirs (tempDirOf e outputPath) (disk m) = (fs1, true) /\
     openInArchive e = Some items /\
     stageItems e (tempDirIsAbsolute outputPath) (tempDirOf e outputPath) 0 items [] fs1 = Staged fs2 l /\
     isDirectoryAt (canonicalFile (tempDirOf e outputPath)) fs2 = true /\
     deleteRecursivelyAt (canonicalFile (tempDirOf e outputPath)) fs2 = disk m /\
     jobBody e archivePath outputPath (disk m)
     = let (fs4, ok) :=
         atomicMoveOrFallback e (tempDirOf e outputPath) (mkFile outputPath)
           (deleteRecursivelyAt (canonicalFile (mkFile outputPath)) fs2) in
       (fs4, Some (tempDirOf e outputPath),
        if ok then
          if isActive e AtDelivery
          then Resolved (enumerateFrom (mkFile outputPath) fs4) outputPath
          else Rejected "EXTRACTION_ERROR"
                 (diagnostics l (tempDirOf e outputPath))
        else Rejected "ATOMIC_MOVE_FAILED"
               (diagnostics l (tempDirOf e outputPath)))).
Proof.
  intro Hpd. destruct (plainDestination_inv _ _ _ Hpd) as [Hn [Hp Hx]].
  destruct (destinationNamed_places _ _ Hn) as [Hu _].
  set (t := tempDirOf e outputPath) in *.
  destruct (staging_created e outputPath (disk m) Hu Hp Hx)
    as [Hne [Hcr [Hl Hrm]]].
  fold t in Hne, Hcr, Hl, Hrm.
  pose proof (tempDirOf_plain e outputPath) as Ht. fold t in Ht.
  unfold job, jobBody. fold t.
  destruct (File_exists (mkFile archivePath) (disk m)); cbn [negb].
  2:{ left. exists "FILE_NOT_FOUND", None. split; [cbn; tauto|].
      now destruct m. }
  destruct (isActive e BeforeStaging); cbn [negb].
  2:{ left. exists "UNARCHIVE_CANCELLED", None. split; [cbn; tauto|].
      now destruct m. }
  destruct (mkdirsPermitted e).
  2:{ left. exists "TEMP_DIR_CREATION_FAILED", None. split; [cbn; tauto|].
      cbn [negb]. f_equal. apply atRest_finally.
      now apply deleteRecursivelyAt_absent. }
  destruct (File_mkdirs t (disk m)) as [fs1 created] eqn:Em.
  cbn [fst snd] in *. subst created. cbn [negb].
  assert (Hd1 : isDirectoryAt (canonicalFile t) fs1 = true)
    by (unfold isDirectoryAt; now rewrite Hl).
  destruct (if File_isFile (mkFile archivePath) fs1 then openInArchive e
            else None) as [items|] eqn:Eo.
  2:{ left. exists "EXTRACTION_ERROR", (diagnostics [] t).
      split; [cbn; tauto|]. f_equal. now apply atRest_finally. }
  destruct (isActive e AfterOpen); cbn [negb].
  2:{ left. exists "UNARCHIVE_CANCELLED", None. split; [cbn; tauto|].
      f_equal. now apply atRest_finally. }
  pose proof (stageItems_confined e (tempDirIsAbsolute outputPath) t items Ht Hne 0 [] fs1 Hd1) as [C1 C2].
  pose proof (stageItems_codes e (tempDirIsAbsolute outputPath) t items 0 [] fs1) as Hcodes.
  destruct (stageItems e (tempDirIsAbsolute outputPath) t 0 items [] fs1) as [fs2 l|code fs2 l] eqn:Es;
    cbn [stagingTree] in C1, C2.
  2:{ left. exists code, None. split.
      - destruct (Hcodes code fs2 l eq_refl) as [->| ->]; cbn; tauto.
      - f_equal. apply atRest_finally. now rewrite C2. }
  destruct (isActive e BeforeMove); cbn [negb].
  2:{ left. exists "UNARCHIVE_CANCELLED", None. split; [cbn; tauto|].
      f_equal. apply atRest_finally. now rewrite C2. }
  right. exists items, fs1, fs2, l.
  assert (Eo' : openInArchive e = Some items)
    by (destruct (File_isFile (mkFile archivePath) fs1); congruence).
  repeat split; trivial; [congruence|].
  unfold File_exists at 1, File_deleteRecursively. rewrite delete_if_exists.
  destruct (atomicMoveOrFallback e t (mkFile outputPath) _) as [fs4 ok].
  destruct ok; cbn [negb]; [|reflexivity].
  now destruct (isActive e AtDelivery).
Qed.

(** What the commit and the [finally] block leave, read at the
    destination and around it. *)
Lemma commit_shape (e : env) (outputPath : string) (fs fs2 fs4 : node)
    (ok : bool) :
  destinationNamed e outputPath = true ->
  deleteRecursivelyAt (canonicalFile (tempDirOf e outputPath)) fs2 = fs ->
  File_exists (tempDirOf e outputPath) fs = false ->
  atomicMoveOrFallback e (tempDirOf e outputPath) (mkFile outputPath)
    (deleteRecursivelyAt (canonicalFile (mkFile outputPath)) fs2) = (fs4, ok) ->
  deleteRecursivelyAt (canonicalFile (mkFile outputPath))
    (deleteRecursivelyAt (canonicalFile (tempDirOf e outputPath)) fs4)
  = deleteRecursivelyAt (canonicalFile (mkFile outputPath)) fs /\
  lookup (canonicalFile (mkFile outputPath))
    (deleteRecursivelyAt (canonicalFile (tempDirOf e outputPath)) fs4)
  = (if ok then lookup (canonicalFile (tempDirOf e outputPath)) fs2 else None) /\
  (ok = true -> exists n,
     lookup (canonicalFile (tempDirOf e outputPath)) fs2 = Some n /\
     lookup (canonicalFile (mkFile outputPath)) fs4 = Some n).
Proof.
  intros Hn Hrm Hx Hmv.
  destruct (destinationNamed_places _ _ Hn) as [Hu [Ed [Et Nd]]].
  set (P := canonicalFile (parentFile (mkFile outputPath))) in *.
  set (d := fileName (mkFile outputPath)) in *.
  set (s := tempDirName e) in *.
  rewrite Ed, Et in *.
  assert (Nne : forall z, P ++ [z] <> []) by (intros z; destruct P; discriminate).
  destruct (apart_sym P d s Nd) as [A1 A2].
  set (g := deleteRecursivelyAt (P ++ [d]) fs2) in *.
  assert (Hxg : File_exists (mkFile outputPath) g = false).
  { unfold File_exists. rewrite Ed. apply deleteRecursivelyAt_gone, Nne. }
  assert (Hg : deleteRecursivelyAt (P ++ [s]) g
               = deleteRecursivelyAt (P ++ [d]) fs).
  { unfold g. now rewrite delete_comm, Hrm. }
  assert (Hxs : existsAt (P ++ [s]) fs = false).
  { unfold File_exists in Hx. now rewrite Et in Hx. }
  assert (Ldg : lookup (P ++ [d]) g = None).
  { pose proof (deleteRecursivelyAt_gone (P ++ [d]) fs2 (Nne d)) as G.
    unfold existsAt in G. fold g in G. now destruct (lookup (P ++ [d]) g). }
  destruct ok.
  - apply move_success in Hmv; [|exact Hxg].
    destruct (renameAt_lookup _ _ _ _ Hmv) as [n [Ln Ldn]].
    rewrite Et in Ln. rewrite Ed in Ldn.
    assert (Ln2 : lookup (P ++ [s]) fs2 = Some n).
    { rewrite <- Ln. unfold g, deleteRecursivelyAt.
      symmetry. now apply lookup_alter_apart. }
    unfold File_renameTo, renameAt in Hmv. rewrite Ed, Et in Hmv.
    destruct (P ++ [s]) as [|a1 r1] eqn:E1; [now elim (Nne s)|].
    destruct (P ++ [d]) as [|a2 r2] eqn:E2; [now elim (Nne d)|].
    rewrite Ln, A2 in Hmv.
    destruct (isDirectoryAt _ _ && replaceable n _); [|discriminate].
    injection Hmv as <-.
    change (alter (a1 :: r1) (fun _ => None) g)
      with (deleteRecursivelyAt (a1 :: r1) g).
    rewrite <- E1, <- E2 in *.
    fold (deleteRecursivelyAt (P ++ [s]) g) in Ldn. rewrite Hg in Ldn |- *.
    split; [|split].
    + rewrite (delete_comm P d s), delete_after_alter by apply Nne.
      rewrite delete_twice by apply Nne.
      rewrite delete_comm. now rewrite (deleteRecursivelyAt_absent _ _ Hxs).
    + rewrite Ln2. unfold deleteRecursivelyAt at 1.
      rewrite lookup_alter_apart by assumption. exact Ldn.
    + intros _. exists n. now split.
  - apply move_failure in Hmv; [|exact Hxg]. subst fs4.
    rewrite Hg. split; [|split; [|discriminate]].
    + now rewrite delete_twice by apply Nne.
    + pose proof (deleteRecursivelyAt_gone (P ++ [d]) fs (Nne d)) as G.
      unfold existsAt in G.
      now destruct (lookup (P ++ [d]) (deleteRecursivelyAt (P ++ [d]) fs)).
Qed.

Lemma stageItems_polls (e : env) (abs : bool) (tempDir : File) (items : list item) :
  forall index l fs fs' l',
    stageItems e abs tempDir index items l fs = Staged fs' l' ->
    forall i, i < List.length items -> isActive e (AtEntry (index + i)) = true.
Proof.
  induction items as [|it rest IH]; intros index l fs fs' l' H i Hi;
    [cbn in Hi; lia|].
  cbn [stageItems] in H.
  destruct (isActive e (AtEntry index)) eqn:A; cbn [negb] in H; [|discriminate].
  destruct i as [|i]; [now rewrite Nat.add_0_r|].
  cbn [List.length] in Hi. rewrite Nat.add_succ_r.
  change (S (index + i)) with (S index + i).
  destruct (isFolder it); cbn [negb] in H.
  - apply (IH _ _ _ _ _ H). lia.
  - destruct (isSafeEntryPath e (itemPath index it) tempDir) as [out|];
      [|discriminate].
    destruct (stageEntry abs tempDir it out l fs) as [fs1 l1].
    apply (IH _ _ _ _ _ H). lia.
Qed.


(** What a resolved request went through and leaves. *)
Lemma resolved_shape
    (e : env) (archivePath outputPath : string) (m m' : module)
    (files : list ExtractedFileInfo) (out : string) :
  plainDestination e outputPath (disk m) = true ->
  job e archivePath outputPath m = (m', Resolved files out) ->
  exists items fs2 l n,
    openInArchive e = Some items /\
    stageItems e (tempDirIsAbsolute outputPath) (tempDirOf e outputPath) 0 items []
      (fst (File_mkdirs (tempDirOf e outputPath) (disk m))) = Staged fs2 l /\
    lookup (canonicalFile (tempDirOf e outputPath)) fs2 = Some n /\
    lookup (canonicalFile (mkFile outputPath)) (disk m') = Some n /\
    File_exists (tempDirOf e outputPath) (disk m') = false /\
    files = enumerateFiles (mkFile outputPath) (mkFile outputPath) n /\
    out = outputPath.
Proof.
  intros Hpd Hj. destruct (plainDestination_inv _ _ _ Hpd) as [Hn [_ Hx]].
  destruct (destinationNamed_places _ _ Hn) as [Hu _].
  destruct (job_outcome e archivePath outputPath m Hpd)
    as [[code' [info' [_ E]]]|
        [items [fs1 [fs2 [l [_ [_ [_ [Em [Ho [Hs [_ [Hrm B]]]]]]]]]]]]].
  - rewrite E in Hj. discriminate.
  - unfold job in Hj. rewrite B in Hj.
    destruct (atomicMoveOrFallback e (tempDirOf e outputPath) (mkFile outputPath) _)
      as [fs4 ok] eqn:Hmv.
    destruct (commit_shape e outputPath (disk m) fs2 fs4 ok Hn Hrm Hx Hmv)
      as [_ [L K]].
    destruct ok; [|discriminate]. destruct (K eq_refl) as [n [Ln Ld]].
    destruct (isActive e AtDelivery); [|discriminate].
    injection Hj as <- <- <-.
    exists items, fs2, l, n. rewrite Em. cbn [fst].
    repeat split; trivial.
    + change (lookup (canonicalFile (mkFile outputPath))
                (disk (jobFinally (Some (tempDirOf e outputPath)) fs4)) = Some n).
      rewrite jobFinally_disk, L. exact Ln.
    + change (File_exists (tempDirOf e outputPath)
                (disk (jobFinally (Some (tempDirOf e outputPath)) fs4)) = false).
      rewrite jobFinally_disk. unfold File_exists.
      apply deleteRecursivelyAt_gone. now apply canonical_tempDirOf_nonempty.
    + unfold enumerateFrom. now rewrite Ld.
Qed.

(** X4.  What a resolved request leaves at the destination.  The
    destination is the directory that the staging pass built, whole and
    nothing else - what the destination held before is gone - the staging
    directory no longer exists, and the files of the result are the
    regular files of that directory. *)
Theorem committed_destination_is_staged_tree
    (e : env) (archivePath outputPath : string) (m m' : module)
    (files : list ExtractedFileInfo) (out : string) :
  plainDestination e outputPath (disk m) = true ->
  job e archivePath outputPath m = (m', Resolved files out) ->
  exists items fs2 l n,
    openInArchive e = Some items /\
    stageItems e (tempDirIsAbsolute outputPath) (tempDirOf e outputPath) 0 items []
      (fst (File_mkdirs (tempDirOf e outputPath) (disk m))) = Staged fs2 l /\
    lookup (canonicalFile (tempDirOf e outputPath)) fs2 = Some n /\
    lookup (canonicalFile (mkFile outputPath)) (disk m') = Some n /\
    File_exists (tempDirOf e outputPath) (disk m') = false /\
    files = enumerateFiles (mkFile outputPath) (mkFile outputPath) n /\
    out = outputPath.
Proof. exact (resolved_shape e archivePath outputPath m m' files out). Qed.

(** X5.  A request only resolves when no poll saw a cancellation: the polls
    before the staging directory is made, after the archive is opened,
    at every item of the archive, before the move and at the delivery of
    the result all found the job active. *)
Theorem resolved_means_never_cancelled
    (e : env) (archivePath outputPath : string) (m m' : module)
    (files : list ExtractedFileInfo) (out : string) :
  job e archivePath outputPath m = (m', Resolved files out) ->
  isActive e BeforeStaging = true /\
  isActive e AfterOpen = true /\
  isActive e BeforeMove = true /\
  isActive e AtDelivery = true /\
  exists items,
    openInArchive e = Some items /\
    forall i, i < List.length items -> isActive e (AtEntry i) = true.
Proof.
  unfold job.
  destruct (jobBody e archivePath outputPath (disk m)) as [[fsb tb] sb] eqn:B.
  intro H. injection H as _ ->.
  destruct (jobBody_resolved_inv _ _ _ _ _ _ _ _ B)
    as [fs1 [items [fs2 [l [_ [Ho [Hs _]]]]]]].
  revert B. unfold jobBody.
  destruct (File_exists (mkFile archivePath) (disk m)); cbn [negb];
    [|discriminate].
  destruct (isActive e BeforeStaging); cbn [negb]; [|discriminate].
  destruct (if mkdirsPermitted e
            then File_mkdirs (tempDirOf e outputPath) (disk m)
            else (disk m, false)) as [fs1' created].
  destruct created; cbn [negb]; [|discriminate].
  destruct (if File_isFile (mkFile archivePath) fs1' then openInArchive e
            else None) as [items'|]; [|discriminate].
  destruct (isActive e AfterOpen); cbn [negb]; [|discriminate].
  destruct (stageItems e (tempDirIsAbsolute outputPath) (tempDirOf e outputPath) 0 items' [] fs1')
    as [fs2' l'|code fs2' l']; [|discriminate].
  destruct (isActive e BeforeMove); cbn [negb]; [|discriminate].
  destruct (atomicMoveOrFallback e (tempDirOf e outputPath) (mkFile outputPath) _)
    as [fs4 ok].
  destruct ok; cbn [negb]; [|discriminate].
  destruct (isActive e AtDelivery); cbn [negb]; [|discriminate].
  intros _. repeat split. exists items. split; [exact Ho|].
  intros i Hi.
  exact (stageItems_polls e _ _ items 0 [] fs1 fs2 l Hs i Hi).
Qed.

(** X6.  What the sanitiser accepts, exactly.  For a staging root that is
    not the top of the tree, [isSafeEntryPath] returns a file for an entry
    path exactly when the platform resolves both the joined path and the
    staging root (no canonicalisation throws) and the path, joined to the
    staging root and made canonical, lies strictly under the canonical
    staging root; the file it returns is that canonical place.  The string
    test with the closing separator is the test on whole names.  An entry
    that resolves to the staging root itself is refused, and so is one
    that the platform cannot resolve. *)
Theorem sanitiser_accepts_exactly
    (e : env) (entryPath : string) (tempDir d : File) :
  Forall plainName tempDir -> canonicalFile tempDir <> [] ->
  (isSafeEntryPath e entryPath tempDir = Some d <->
   canonicalizes e (mkFileIn tempDir entryPath) = true /\
   canonicalizes e tempDir = true /\
   d = canonicalFile (mkFileIn tempDir entryPath) /\
   strictlyBelow (canonicalFile tempDir) d).
Proof.
  intros Ht Hne. split.
  - intro H. destruct (isSafeEntryPath_resolves _ _ _ _ H) as [K1 K2].
    split; [exact K1|]. split; [exact K2|]. now apply (isSafeEntryPath_inv e).
  - intros [K1 [K2 [-> Hb]]]. now apply isSafeEntryPath_below.
Qed.

Lemma sanitiser_accepts_exactly_witness :
  isSafeEntryPath (Sample.calm []) "pages/../cover.jpg" ["data"; "stage"]
  = Some ["data"; "stage"; "cover.jpg"] /\
  isSafeEntryPath (Sample.calm []) "pages/.." ["data"; "stage"] = None /\
  isSafeEntryPath (Cases.strict []) Cases.nulName ["data"; "stage"] = None.
Proof.
  assert (Ht : Forall plainName ["data"; "stage"])
    by (repeat constructor; discriminate).
  assert (Hne : canonicalFile ["data"; "stage"] <> []) by discriminate.
  split; [|split; reflexivity].
  apply (proj2 (sanitiser_accepts_exactly (Sample.calm [])
                  "pages/../cover.jpg"
                  ["data"; "stage"] ["data"; "stage"; "cover.jpg"] Ht Hne)).
  split; [reflexivity|]. split; [reflexivity|]. split; [reflexivity|].
  exists ["cover.jpg"]. split; [discriminate|reflexivity].
Defined.

(** X7.  The admission of an output path.  A call that finds the guard
    free takes it and launches the job, leaving the tree alone, whenever
    the platform resolves the output path and the three roots and the
    canonical names of the output path start with the canonical names of
    the files directory, the cache directory or the external files
    directory.  When the canonicalisation of the path or of a root throws,
    the call is refused with [UNARCHIVE_INVALID_PATH] and the guard
    released, wherever the path lies. *)
Theorem allowed_path_is_admitted
    (ctx : context) (archivePath outputPath : string) (m : module) :
  activeExtraction m = false ->
  (forallb (canonicalizesPath ctx) (canonicalized ctx outputPath) = true ->
   validate ctx outputPath = true ->
   unarchive ctx archivePath outputPath m
   = ({| activeExtraction := true; currentJobRef := true; disk := disk m |},
      [SetBusy true; Launch])) /\
  (forallb (canonicalizesPath ctx) (canonicalized ctx outputPath) = false ->
   unarchive ctx archivePath outputPath m
   = ({| activeExtraction := false; currentJobRef := currentJobRef m;
         disk := disk m |},
      [SetBusy true; SetBusy false; Reject "UNARCHIVE_INVALID_PATH"])).
Proof.
  intro Hb. unfold unarchive. rewrite Hb. split.
  - intros K Hv. now rewrite (validate_isPathAllowed _ _ K Hv).
  - intro K. unfold isPathAllowed. now rewrite K.
Qed.

Lemma allowed_path_is_admitted_witness :
  validate Sample.ctx "/data/user/0/com.app/cache/../files/comics/1" = true /\
  unarchive Sample.ctx Sample.archivePath
    "/data/user/0/com.app/cache/../files/comics/1" (Sample.idle Sample.fresh)
  = ({| activeExtraction := true; currentJobRef := true;
        disk := Sample.fresh |},
     [SetBusy true; Launch]) /\
  validate Cases.strictCtx Cases.nulPath = true /\
  unarchive Cases.strictCtx Sample.archivePath Cases.nulPath
    (Sample.idle Sample.fresh)
  = (Sample.idle Sample.fresh,
     [SetBusy true; SetBusy false; Reject "UNARCHIVE_INVALID_PATH"]).
Proof.
  split; [reflexivity|]. split.
  - exact (proj1 (allowed_path_is_admitted Sample.ctx Sample.archivePath
                    "/data/user/0/com.app/cache/../files/comics/1"
                    (Sample.idle Sample.fresh) eq_refl) eq_refl eq_refl).
  - split; [reflexivity|].
    exact (proj2 (allowed_path_is_admitted Cases.strictCtx Sample.archivePath
                    Cases.nulPath (Sample.idle Sample.fresh) eq_refl) eq_refl).
Defined.

Lemma append_inj_l (a x y : string) : (a ++ x = a ++ y)%string -> x = y.
Proof.
  induction a as [|c a IH]; simpl; intro H; [exact H|].
  injection H as H. now apply IH.
Qed.

Lemma showIndex_inj (i j : nat) : showIndex i = showIndex j -> i = j.
Proof.
  unfold showIndex. intro H. apply Unsigned.to_uint_inj.
  assert (E : Some (Nat.to_uint i) = Some (Nat.to_uint j)).
  { rewrite <- !NilEmpty.usu. now rewrite H. }
  now injection E.
Qed.

(** X8.  Entries without a declared path never share a name: the names
    made up for two of them are equal exactly when the two stand at the
    same position in the archive. *)
Theorem nameless_names_are_distinct
    (i j : nat) (it it' : item) :
  path it = None -> path it' = None ->
  String.eqb (itemPath i it) (itemPath j it') = Nat.eqb i j.
Proof.
  unfold itemPath. intros -> ->.
  destruct (Nat.eqb i j) eqn:E.
  - apply Nat.eqb_eq in E. subst j. apply String.eqb_refl.
  - apply String.eqb_neq. intro H. apply Nat.eqb_neq in E. apply E.
    apply showIndex_inj. exact (append_inj_l _ _ _ H).
Qed.

Lemma nameless_names_are_distinct_witness :
  itemPath 9 (Sample.namelessItem (Sample.b 1)) = "unknown_file_9" /\
  itemPath 10 (Sample.namelessItem (Sample.b 2)) = "unknown_file_10" /\
  String.eqb (itemPath 9 (Sample.namelessItem (Sample.b 1)))
    (itemPath 10 (Sample.namelessItem (Sample.b 2))) = false.
Proof.
  split; [reflexivity|]. split; [reflexivity|].
  exact (nameless_names_are_distinct 9 10 (Sample.namelessItem (Sample.b 1))
           (Sample.namelessItem (Sample.b 2)) eq_refl eq_refl).
Defined.



(** X10.  The single-callback guard.  However many times and in whatever
    order [resolveOnce] and [rejectOnce] are called for one invocation,
    the promise is handed exactly the first of the calls and nothing
    after it. *)
Theorem single_callback (calls : list settlement) :
  handed (fold_left attempt calls newInvocation) = firstn 1 calls /\
  cbInvoked (fold_left attempt calls newInvocation)
  = negb (Nat.eqb (List.length calls) 0).
Proof.
  assert (K : forall calls p, cbInvoked p = true ->
                fold_left attempt calls p = p).
  { induction calls0 as [|s r IH]; intros p Hp; [reflexivity|].
    cbn [fold_left]. destruct s; cbn [attempt];
      unfold resolveOnce, rejectOnce; rewrite Hp; now apply IH. }
  destruct calls as [|s r]; [now split|].
  cbn [fold_left]. destruct s; cbn [attempt];
    unfold resolveOnce, rejectOnce; cbn; now rewrite K.
Qed.



Lemma isPrefixOf_longer (P r q : File) :
  isPrefixOf P q = false -> isPrefixOf (P ++ r) q = false.
Proof.
  intro H. destruct (isPrefixOf (P ++ r) q) eqn:E; [|reflexivity].
  destruct (isPrefixOf_inv _ _ E) as [r' ->].
  now rewrite <- app_assoc, isPrefixOf_app in H.
Qed.

Lemma isPrefixOf_of_child (q P : File) (x : string) :
  isPrefixOf q (P ++ [x]) = true -> isPrefixOf q P = true \/ q = P ++ [x].
Proof.
  revert P. induction q as [|a q IH]; intros P H; [now left|].
  destruct P as [|b P]; cbn [app isPrefixOf] in *.
  - apply andb_prop in H as [H1 H2]. apply String.eqb_eq in H1. subst a.
    destruct q; [now right | discriminate].
  - apply andb_prop in H as [H1 H2]. apply String.eqb_eq in H1. subst b.
    rewrite String.eqb_refl. cbn [andb].
    destruct (IH _ H2) as [K| ->]; [now left | now right].
Qed.

(** A place that has nothing to do with the directory [P] has nothing to
    do with an entry of [P]. *)
Lemma apart_from_child (q P : File) (x : string) :
  isPrefixOf P q = false -> isPrefixOf q P = false ->
  isPrefixOf q (P ++ [x]) = false /\ isPrefixOf (P ++ [x]) q = false.
Proof.
  intros H1 H2. split; [|now apply isPrefixOf_longer].
  destruct (isPrefixOf q (P ++ [x])) eqn:E; [|reflexivity].
  destruct (isPrefixOf_of_child _ _ _ E) as [K| ->]; [congruence|].
  now rewrite isPrefixOf_app in H1.
Qed.

Lemma lookup_child_dir (P : File) (x : string) (fs n : node) :
  lookup (P ++ [x]) fs = Some n -> exists kids, lookup P fs = Some (DirN kids).
Proof.
  unfold lookup. rewrite lookup_o_app.
  destruct (lookup_o P (Some fs)) as [[d|kids]|]; cbn; try discriminate.
  eauto.
Qed.

(** A rename between two entries of one directory: what is found in the
    directory afterwards, and that nothing changes elsewhere. *)
Lemma renameAt_sibling (P : File) (x y : string) (fs n : node) :
  lookup (P ++ [x]) fs = Some n -> x <> y ->
  replaceable n (lookup (P ++ [y]) fs) = true ->
  exists fs',
    renameAt (P ++ [x]) (P ++ [y]) fs = Some fs' /\
    lookup (P ++ [y]) fs' = Some n /\
    lookup (P ++ [x]) fs' = None /\
    (forall z, z <> x -> z <> y ->
       lookup (P ++ [z]) fs' = lookup (P ++ [z]) fs) /\
    (forall q, isPrefixOf P q = false -> isPrefixOf q P = false ->
       lookup q fs' = lookup q fs).
Proof.
  intros Lx N R. destruct (lookup_child_dir _ _ _ _ Lx) as [kids Hk].
  assert (Nne : forall z, P ++ [z] <> []) by (intros z; destruct P; discriminate).
  assert (Par : forall z, parentFile (P ++ [z]) = P)
    by (intro z; apply removelast_last).
  destruct (apart_sym P x y N) as [A1 A2].
  set (fs1 := alter (P ++ [x]) (fun _ => None) fs).
  assert (Hk1 : exists k1, lookup P fs1 = Some (DirN k1)).
  { rewrite <- (Par x). apply (parent_stays _ _ _ kids); [apply Nne|].
    now rewrite Par. }
  destruct Hk1 as [k1 Hk1].
  assert (Ly1 : lookup (P ++ [y]) fs1 = lookup (P ++ [y]) fs)
    by (unfold fs1; now apply lookup_alter_apart).
  exists (alter (P ++ [y]) (fun _ => Some n) fs1).
  split; [|split; [|split; [|split]]].
  - unfold renameAt.
    assert (G : (if isDirectoryAt (parentFile (P ++ [y])) fs1
                    && replaceable n (lookup (P ++ [y]) fs1)
                 then Some (alter (P ++ [y]) (fun _ => Some n) fs1) else None)
                = Some (alter (P ++ [y]) (fun _ => Some n) fs1)).
    { unfold isDirectoryAt. now rewrite Par, Hk1, Ly1, R. }
    unfold fs1 in G |- *.
    destruct (P ++ [x]) as [|a1 r1] eqn:E1; [now elim (Nne x)|].
    destruct (P ++ [y]) as [|a2 r2] eqn:E2; [now elim (Nne y)|].
    now rewrite Lx, A1.
  - rewrite (lookup_alter_child _ _ _ k1); [reflexivity | apply Nne|].
    now rewrite Par.
  - rewrite lookup_alter_apart by assumption.
    unfold fs1. rewrite (lookup_alter_child _ _ _ kids); [reflexivity | apply Nne|].
    now rewrite Par.
  - intros z Zx Zy.
    destruct (apart_sym P z y Zy) as [B1 B2].
    destruct (apart_sym P z x Zx) as [C1 C2].
    rewrite lookup_alter_apart by assumption.
    unfold fs1. now apply lookup_alter_apart.
  - intros q Q1 Q2.
    destruct (apart_from_child q P y Q1 Q2) as [B1 B2].
    destruct (apart_from_child q P x Q1 Q2) as [C1 C2].
    rewrite lookup_alter_apart by assumption.
    unfold fs1. now apply lookup_alter_apart.
Qed.

Lemma backupName_notDots (d u : string) :
  d <> EmptyString -> notDots (d ++ ".backup." ++ u) = true.
Proof.
  intro Hd. destruct d as [|c d]; [now elim Hd|].
  unfold notDots. cbn [String.append String.eqb].
  destruct (Ascii.eqb c "."); [|reflexivity].
  destruct d as [|c' d]; cbn [String.append String.eqb]; [reflexivity|].
  destruct (Ascii.eqb c' "."); [|reflexivity].
  destruct d as [|c'' d]; reflexivity.
Qed.

Lemma append_not_self (d x : string) :
  x <> EmptyString -> (d ++ x)%string <> d.
Proof.
  intros Hx H. apply Hx. apply (append_inj_l d).
  now rewrite append_empty_r.
Qed.

(** The places of the fallback for a destination [P/d] written with
    proper names: the backup is the entry [d.backup.<uuid>] of [P]. *)
Lemma fallback_places (e : env) (P : File) (d : string) :
  forallb notDots (P ++ [d]) = true -> plainName d ->
  noSlash (backupUuid e) = true ->
  canonicalFile (P ++ [d]) = P ++ [d] /\
  canonicalFile (mkFileIn (parentFile (P ++ [d])) (backupName e (P ++ [d])))
  = P ++ [backupName e (P ++ [d])] /\
  backupName e (P ++ [d]) <> d.
Proof.
  intros Hn [Hd1 Hd2] Hu.
  assert (C : forall l, forallb notDots l = true -> canonicalFile l = l).
  { intros l Hl. unfold canonicalFile. now rewrite (resolve_names _ _ Hl). }
  assert (HP : forallb notDots P = true).
  { rewrite forallb_app in Hn. now apply andb_prop in Hn as [Hn _]. }
  assert (Eb : backupName e (P ++ [d]) = (d ++ ".backup." ++ backupUuid e)%string).
  { unfold backupName, fileName. now rewrite last_last. }
  split; [now apply C|]. split.
  - unfold parentFile, mkFileIn. rewrite removelast_last, Eb.
    rewrite segments_plain.
    + apply C. rewrite forallb_app, HP. cbn [forallb].
      now rewrite backupName_notDots.
    + split; [destruct d; [now elim Hd1 | discriminate]|].
      rewrite !noSlash_append, Hd2, Hu. reflexivity.
  - rewrite Eb. apply append_not_self. discriminate.
Qed.

Lemma renameAt_refused (P : File) (x y : string) (fs n : node) :
  lookup (P ++ [x]) fs = Some n -> x <> y ->
  replaceable n (lookup (P ++ [y]) fs) = false ->
  renameAt (P ++ [x]) (P ++ [y]) fs = None.
Proof.
  intros Lx N R. destruct (apart_sym P x y N) as [A1 A2].
  assert (Nne : forall z, P ++ [z] <> []) by (intros z; destruct P; discriminate).
  assert (G : (if isDirectoryAt (parentFile (P ++ [y]))
                    (alter (P ++ [x]) (fun _ => None) fs)
                  && replaceable n
                       (lookup (P ++ [y]) (alter (P ++ [x]) (fun _ => None) fs))
               then Some (alter (P ++ [y]) (fun _ => Some n)
                            (alter (P ++ [x]) (fun _ => None) fs))
               else None) = None).
  { rewrite (lookup_alter_apart (P ++ [x]) (P ++ [y])) by assumption.
    now rewrite R, andb_false_r. }
  unfold renameAt.
  destruct (P ++ [x]) as [|a1 r1] eqn:E1; [now elim (Nne x)|].
  destruct (P ++ [y]) as [|a2 r2] eqn:E2; [now elim (Nne y)|].
  now rewrite Lx, A1.
Qed.

(** X12.  The fallback over a destination that holds files.  The
    destination [P/d] is a directory with content, the staging directory
    [P/s] lies next to it, and the platform lets the renames through.
    Neither the atomic move nor a plain rename can replace a directory that
    has entries, so [atomicMoveOrFallback] takes the fallback: it moves the
    destination aside to [d.backup.<uuid>] and the staging directory in,
    and returns [true] with the staged tree at the destination.  The old
    content is then still in the tree under the backup name: [delete] does
    not remove a directory that has entries. *)
Theorem fallback_replaces_and_keeps_backup
    (e : env) (P : File) (d s : string) (fs n : node)
    (k : string * node) (ks : list (string * node)) :
  forallb notDots (P ++ [d]) = true -> plainName d ->
  noSlash (backupUuid e) = true ->
  notDots s = true -> s <> d -> s <> backupName e (P ++ [d]) ->
  lookup (P ++ [s]) fs = Some n ->
  lookup (P ++ [d]) fs = Some (DirN (k :: ks)) ->
  lookup (P ++ [backupName e (P ++ [d])]) fs = None ->
  renamePermitted e BackupAside = true ->
  renamePermitted e StagingIn = true ->
  exists fs',
    atomicMoveOrFallback e (P ++ [s]) (P ++ [d]) fs = (fs', true) /\
    lookup (P ++ [d]) fs' = Some n /\
    lookup (P ++ [s]) fs' = None /\
    lookup (P ++ [backupName e (P ++ [d])]) fs' = Some (DirN (k :: ks)).
Proof.
  intros Hn Hd Hu Hs Nsd Nsb Ls Ld Lb Pb Pm.
  destruct (fallback_places e P d Hn Hd Hu) as [Cd [Cb Nbd]].
  set (b := backupName e (P ++ [d])) in *.
  assert (Cs : canonicalFile (P ++ [s]) = P ++ [s]).
  { unfold canonicalFile. rewrite resolve_names; [reflexivity|].
    rewrite forallb_app in Hn |- *. apply andb_prop in Hn as [Hn _].
    rewrite Hn. cbn [forallb]. now rewrite Hs. }
  assert (Nne : forall z, P ++ [z] <> []) by (intros z; destruct P; discriminate).
  assert (Ra : File_renameTo (P ++ [s]) (P ++ [d]) fs = None).
  { unfold File_renameTo. rewrite Cs, Cd.
    apply (renameAt_refused P s d fs n Ls Nsd). rewrite Ld.
    now destruct n. }
  destruct (renameAt_sibling P d b fs (DirN (k :: ks)) Ld) as
    [fs1 [R1 [L1b [L1d [F1 _]]]]]; [congruence | now rewrite Lb|].
  assert (L1s : lookup (P ++ [s]) fs1 = Some n) by (rewrite F1; assumption).
  destruct (renameAt_sibling P s d fs1 n L1s Nsd) as
    [fs2 [R2 [L2d [L2s [F2 _]]]]]; [now rewrite L1d; destruct n|].
  assert (L2b : lookup (P ++ [b]) fs2 = Some (DirN (k :: ks))).
  { rewrite F2; [exact L1b | congruence | exact Nbd]. }
  exists (File_delete (mkFileIn (parentFile (P ++ [d])) b) fs2).
  assert (Bd : forall q, q <> b ->
            lookup (P ++ [q])
              (File_delete (mkFileIn (parentFile (P ++ [d])) b) fs2)
            = lookup (P ++ [q]) fs2).
  { intros q Hq. unfold File_delete, deleteAt. rewrite Cb.
    destruct (apart_sym P q b Hq) as [B1 B2].
    now apply lookup_alter_apart. }
  split; [|split; [|split]].
  - unfold atomicMoveOrFallback. rewrite Ra.
    replace (if atomicMovePermitted e then None else None)
      with (@None node) by now destruct (atomicMovePermitted e).
    unfold File_exists. rewrite Cd. unfold existsAt. rewrite Ld.
    change (fileName (P ++ [d])%list ++ ".backup." ++ backupUuid e)%string with b.
    unfold tryRename. rewrite Pb, Pm.
    unfold File_renameTo at 1. rewrite Cd, Cb, R1.
    unfold File_renameTo. now rewrite Cs, Cd, R2.
  - rewrite Bd by congruence. exact L2d.
  - rewrite Bd by assumption. exact L2s.
  - unfold File_delete, deleteAt. rewrite Cb.
    now rewrite (lookup_alter_own _ _ _ _ (Nne b) L2b).
Qed.

Lemma fallback_replaces_and_keeps_backup_witness :
  atomicMoveOrFallback (Sample.calm []) (Cases.files ++ ["stage"])
    (Cases.files ++ ["out"]) Cases.staged
  = (Sample.appDir
       [("in.zip", FileN (Sample.b 4));
        ("out.backup.9a2e", DirN [("old.txt", FileN (Sample.b 7))]);
        ("out", DirN [("a.txt", FileN (Sample.b 5))])],
     true) /\
  exists fs',
    atomicMoveOrFallback (Sample.calm []) (Cases.files ++ ["stage"])
      (Cases.files ++ ["out"]) Cases.staged = (fs', true) /\
    lookup (Cases.files ++ ["out"]) fs'
    = Some (DirN [("a.txt", FileN (Sample.b 5))]) /\
    lookup (Cases.files ++ ["stage"]) fs' = None /\
    lookup (Cases.files
              ++ [backupName (Sample.calm []) (Cases.files ++ ["out"])]) fs'
    = Some (DirN [("old.txt", FileN (Sample.b 7))]).
Proof.
  split; [reflexivity|].
  assert (Hd : plainName "out") by (split; [discriminate | reflexivity]).
  assert (N1 : "stage" <> "out") by discriminate.
  assert (N2 : "stage" <> backupName (Sample.calm []) (Cases.files ++ ["out"]))
    by discriminate.
  exact (fallback_replaces_and_keeps_backup (Sample.calm []) Cases.files
           "out" "stage" Cases.staged
           (DirN [("a.txt", FileN (Sample.b 5))])
           ("old.txt", FileN (Sample.b 7)) []
           eq_refl Hd eq_refl eq_refl N1 N2 eq_refl eq_refl eq_refl
           eq_refl eq_refl).
Defined.

(** X13.  The fallback puts the destination back.  The destination [P/d]
    exists, the atomic move is refused, the destination has been moved
    aside to [d.backup.<uuid>], and then the staging directory cannot be
    renamed to the destination.  [atomicMoveOrFallback] renames the backup
    back and returns [false]: every entry of [P] - the destination with
    all it held, and no backup - and everything outside [P] is found as
    before the call. *)
Theorem fallback_restores_destination
    (e : env) (P : File) (d : string) (source : File) (fs old : node) :
  forallb notDots (P ++ [d]) = true -> plainName d ->
  noSlash (backupUuid e) = true ->
  lookup (P ++ [d]) fs = Some old ->
  lookup (P ++ [backupName e (P ++ [d])]) fs = None ->
  atomicMovePermitted e = false ->
  renamePermitted e BackupAside = true ->
  renamePermitted e StagingIn = false ->
  renamePermitted e RestoreBackup = true ->
  exists fs',
    atomicMoveOrFallback e source (P ++ [d]) fs = (fs', false) /\
    (forall z, lookup (P ++ [z]) fs' = lookup (P ++ [z]) fs) /\
    (forall q, isPrefixOf P q = false -> isPrefixOf q P = false ->
       lookup q fs' = lookup q fs).
Proof.
  intros Hn Hd Hu Ld Lb Pa Pb Pm Pr.
  destruct (fallback_places e P d Hn Hd Hu) as [Cd [Cb Nbd]].
  set (b := backupName e (P ++ [d])) in *.
  destruct (renameAt_sibling P d b fs old Ld) as
    [fs1 [R1 [L1b [L1d [F1 O1]]]]]; [congruence | now rewrite Lb; destruct old|].
  destruct (renameAt_sibling P b d fs1 old L1b Nbd) as
    [fs2 [R2 [L2d [L2b [F2 O2]]]]]; [now rewrite L1d; destruct old|].
  exists fs2. split; [|split].
  - unfold atomicMoveOrFallback. rewrite Pa.
    unfold File_exists. rewrite Cd. unfold existsAt. rewrite Ld.
    change (fileName (P ++ [d])%list ++ ".backup." ++ backupUuid e)%string with b.
    unfold tryRename. rewrite Pb, Pm, Pr.
    unfold File_renameTo at 1. rewrite Cd, Cb, R1.
    unfold existsAt. rewrite L1b.
    unfold File_renameTo. now rewrite Cd, Cb, R2.
  - intro z. destruct (String.eqb z d) eqn:Ed.
    + apply String.eqb_eq in Ed. subst z. congruence.
    + apply String.eqb_neq in Ed. destruct (String.eqb z b) eqn:Eb.
      * apply String.eqb_eq in Eb. subst z. congruence.
      * apply String.eqb_neq in Eb. rewrite F2, F1 by assumption. reflexivity.
  - intros q Q1 Q2. now rewrite O2, O1.
Qed.

Lemma fallback_restores_destination_witness :
  atomicMoveOrFallback (Cases.noStagingIn []) (Cases.files ++ ["stage"])
    (Cases.files ++ ["out"]) Cases.staged
  = (Sample.appDir
       [("in.zip", FileN (Sample.b 4));
        ("stage", DirN [("a.txt", FileN (Sample.b 5))]);
        ("out", DirN [("old.txt", FileN (Sample.b 7))])],
     false) /\
  exists fs',
    atomicMoveOrFallback (Cases.noStagingIn []) (Cases.files ++ ["stage"])
      (Cases.files ++ ["out"]) Cases.staged = (fs', false) /\
    (forall z, lookup (Cases.files ++ [z]) fs'
               = lookup (Cases.files ++ [z]) Cases.staged) /\
    (forall q, isPrefixOf Cases.files q = false ->
               isPrefixOf q Cases.files = false ->
               lookup q fs' = lookup q Cases.staged).
Proof.
  split; [reflexivity|].
  assert (Hd : plainName "out") by (split; [discriminate | reflexivity]).
  exact (fallback_restores_destination (Cases.noStagingIn []) Cases.files
           "out" (Cases.files ++ ["stage"]) Cases.staged
           (DirN [("old.txt", FileN (Sample.b 7))])
           eq_refl Hd eq_refl eq_refl eq_refl eq_refl eq_refl eq_refl eq_refl).
Defined.

Lemma staged_entry_holds_last_run_witness :
  stageEntry true ["stage"] Cases.interrupted ["stage"; "a.bin"] []
    (DirN [("stage", DirN [("a.bin", FileN (Sample.b 9))])])
  = (DirN [("stage", DirN [("a.bin", FileN (Sample.b 3))])],
     [{| fi_path := "/stage/a.bin"; fi_name := "a.bin";
         fi_relativePath := "a.bin"; fi_size := 3 |}]) /\
  lookup ["stage"; "a.bin"]
    (fst (stageEntry true ["stage"] Cases.interrupted ["stage"; "a.bin"] []
            (DirN [("stage", DirN [("a.bin", FileN (Sample.b 9))])])))
  = Some (FileN (Sample.b 3)) /\
  stageEntry false ["stage"] Cases.interrupted ["stage"; "a.bin"] []
    (DirN [("stage", DirN [("a.bin", FileN (Sample.b 9))])])
  = (DirN [("stage", DirN [])], []).
Proof.
  split; [reflexivity|]. split; [|reflexivity].
  assert (N : ["stage"; "a.bin"] <> []) by discriminate.
  exact (proj1
    (staged_entry_holds_last_run true ["stage"] Cases.interrupted
       ["stage"; "a.bin"] []
       (DirN [("stage", DirN [("a.bin", FileN (Sample.b 9))])])
       N eq_refl
       (or_intror (or_introl (ex_intro _ (Sample.b 9) eq_refl))))).
Defined.


Lemma committed_destination_is_staged_tree_witness :
  lookup (canonicalFile (mkFile Sample.outputPath)) Sample.used
  = Some (DirN [("old.txt", FileN (Sample.b 7))]) /\
  lookup (canonicalFile (mkFile Sample.outputPath))
    (disk (fst (job (Sample.calm Sample.roundTrip) Sample.archivePath
                  Sample.outputPath (Sample.idle Sample.used))))
  = Some (DirN [("a.txt", FileN (Sample.b 5));
                ("dir", DirN [("b.txt", FileN (Sample.b 10))])]) /\
  exists items fs2 l n,
    openInArchive (Sample.calm Sample.roundTrip) = Some items /\
    stageItems (Sample.calm Sample.roundTrip)
      (tempDirIsAbsolute Sample.outputPath)
      (tempDirOf (Sample.calm Sample.roundTrip) Sample.outputPath) 0 items []
      (fst (File_mkdirs
              (tempDirOf (Sample.calm Sample.roundTrip) Sample.outputPath)
              (disk (Sample.idle Sample.used)))) = Staged fs2 l /\
    lookup (canonicalFile
              (tempDirOf (Sample.calm Sample.roundTrip) Sample.outputPath)) fs2
    = Some n /\
    lookup (canonicalFile (mkFile Sample.outputPath))
      (disk (fst (job (Sample.calm Sample.roundTrip) Sample.archivePath
                    Sample.outputPath (Sample.idle Sample.used)))) = Some n /\
    File_exists (tempDirOf (Sample.calm Sample.roundTrip) Sample.outputPath)
      (disk (fst (job (Sample.calm Sample.roundTrip) Sample.archivePath
                    Sample.outputPath (Sample.idle Sample.used)))) = false /\
    snd (job (Sample.calm Sample.roundTrip) Sample.archivePath
           Sample.outputPath (Sample.idle Sample.used))
    = Resolved
        (enumerateFiles (mkFile Sample.outputPath) (mkFile Sample.outputPath) n)
        Sample.outputPath.
Proof.
  split; [reflexivity|]. split; [reflexivity|].
  destruct (committed_destination_is_staged_tree
              (Sample.calm Sample.roundTrip) Sample.archivePath
              Sample.outputPath (Sample.idle Sample.used)
              (fst (job (Sample.calm Sample.roundTrip) Sample.archivePath
                      Sample.outputPath (Sample.idle Sample.used)))
              [{| fi_path := "/data/user/0/com.app/files/out/a.txt";
                  fi_name := "a.txt"; fi_relativePath := "a.txt";
                  fi_size := 5 |};
               {| fi_path := "/data/user/0/com.app/files/out/dir/b.txt";
                  fi_name := "b.txt"; fi_relativePath := "dir/b.txt";
                  fi_size := 10 |}]
              Sample.outputPath eq_refl eq_refl)
    as [items [fs2 [l [n [H1 [H2 [H3 [H4 [H5 [H6 H7]]]]]]]]]].
  exists items, fs2, l, n. repeat split; trivial. now rewrite <- H6.
Defined.

Lemma resolved_means_never_cancelled_witness :
  isActive (Sample.calm Sample.roundTrip) BeforeMove = true /\
  isActive (Sample.calm Sample.roundTrip) (AtEntry 1) = true.
Proof.
  destruct (resolved_means_never_cancelled
              (Sample.calm Sample.roundTrip) Sample.archivePath
              Sample.outputPath (Sample.idle Sample.fresh)
              (fst (job (Sample.calm Sample.roundTrip) Sample.archivePath
                      Sample.outputPath (Sample.idle Sample.fresh)))
              [{| fi_path := "/data/user/0/com.app/files/out/a.txt";
                  fi_name := "a.txt"; fi_relativePath := "a.txt";
                  fi_size := 5 |};
               {| fi_path := "/data/user/0/com.app/files/out/dir/b.txt";
                  fi_name := "b.txt"; fi_relativePath := "dir/b.txt";
                  fi_size := 10 |}]
              Sample.outputPath eq_refl)
    as [_ [_ [H3 _]]].
  split; [exact H3 | reflexivity].
Defined.














Lemma stageItems_polls_only (e e' : env) (abs : bool) (tempDir : File) (items : list item) :
  (forall i, isActive e' (AtEntry i) = isActive e (AtEntry i)) ->
  (forall f, canonicalizes e' f = canonicalizes e f) ->
  forall index l fs,
    stageItems e' abs tempDir index items l fs
    = stageItems e abs tempDir index items l fs.
Proof.
  intros H K. induction items as [|it rest IH]; intros index l fs;
    [reflexivity|].
  cbn [stageItems]. rewrite H.
  destruct (isActive e (AtEntry index)); cbn [negb]; [|reflexivity].
  destruct (isFolder it); cbn [negb]; [apply IH|].
  assert (E : isSafeEntryPath e' (itemPath index it) tempDir
              = isSafeEntryPath e (itemPath index it) tempDir)
    by (unfold isSafeEntryPath; now rewrite !K).
  rewrite E.
  destruct (isSafeEntryPath e (itemPath index it) tempDir) as [out|];
    [|reflexivity].
  destruct (stageEntry abs tempDir it out l fs) as [fs1 l1]. apply IH.
Qed.

Lemma jobBody_late_cancellation (e : env) (archivePath outputPath : string)
    (fs fs' : node) (t : option File) (files : list ExtractedFileInfo)
    (out : string) :
  jobBody (withDelivery true e) archivePath outputPath fs
  = (fs', t, Resolved files out) ->
  exists info,
    jobBody (withDelivery false e) archivePath outputPath fs
    = (fs', t, Rejected "EXTRACTION_ERROR" info).
Proof.
  unfold jobBody.
  change (tempDirOf (withDelivery true e) outputPath)
    with (tempDirOf e outputPath).
  change (tempDirOf (withDelivery false e) outputPath)
    with (tempDirOf e outputPath).
  cbn [withDelivery isActive mkdirsPermitted openInArchive].
  destruct (File_exists (mkFile archivePath) fs); cbn [negb];
    [|discriminate].
  destruct (isActive e BeforeStaging); cbn [negb]; [|discriminate].
  destruct (if mkdirsPermitted e
            then File_mkdirs (tempDirOf e outputPath) fs
            else (fs, false)) as [fs1 created].
  destruct created; cbn [negb]; [|discriminate].
  destruct (if File_isFile (mkFile archivePath) fs1 then openInArchive e
            else None) as [items|]; [|discriminate].
  destruct (isActive e AfterOpen); cbn [negb]; [|discriminate].
  rewrite (stageItems_polls_only (withDelivery true e) (withDelivery false e))
    by reflexivity.
  destruct (stageItems (withDelivery true e) (tempDirIsAbsolute outputPath)
              (tempDirOf e outputPath) 0 items
              [] fs1) as [fs2 l|code fs2 l]; [|discriminate].
  destruct (isActive e BeforeMove); cbn [negb]; [|discriminate].
  change (atomicMoveOrFallback (withDelivery false e))
    with (atomicMoveOrFallback (withDelivery true e)).
  destruct (atomicMoveOrFallback (withDelivery true e) (tempDirOf e outputPath)
              (mkFile outputPath) _) as [fs4 ok].
  destruct ok; cbn [negb]; [|discriminate].
  intro H. injection H as <- <- _ _. eauto.
Qed.

(** X16.  The cancellation that comes after the commit.  Take a request that
    resolves when the poll at the delivery of the result finds the job
    active.  When instead that last poll finds the job cancelled - all else
    being the same - the request is rejected with [EXTRACTION_ERROR], and
    the module and the tree are left exactly as by the resolved request:
    the archive is extracted at the destination all the same. *)
Theorem late_cancellation_is_reported_as_error
    (e : env) (archivePath outputPath : string) (m m' : module)
    (files : list ExtractedFileInfo) (out : string) :
  job (withDelivery true e) archivePath outputPath m
  = (m', Resolved files out) ->
  exists info,
    job (withDelivery false e) archivePath outputPath m
    = (m', Rejected "EXTRACTION_ERROR" info).
Proof.
  unfold job.
  destruct (jobBody (withDelivery true e) archivePath outputPath (disk m))
    as [[fsb tb] sb] eqn:B.
  intro H. injection H as <- ->.
  destruct (jobBody_late_cancellation _ _ _ _ _ _ _ _ B) as [info ->].
  now exists info.
Qed.

Lemma late_cancellation_is_reported_as_error_witness :
  lookup (canonicalFile (mkFile Sample.outputPath))
    (disk (fst (job (withDelivery false (Sample.calm Sample.roundTrip))
                  Sample.archivePath Sample.outputPath
                  (Sample.idle Sample.fresh))))
  = Some (DirN [("a.txt", FileN (Sample.b 5));
                ("dir", DirN [("b.txt", FileN (Sample.b 10))])]) /\
  exists info,
    job (withDelivery false (Sample.calm Sample.roundTrip))
      Sample.archivePath Sample.outputPath (Sample.idle Sample.fresh)
    = (fst (job (withDelivery true (Sample.calm Sample.roundTrip))
              Sample.archivePath Sample.outputPath (Sample.idle Sample.fresh)),
       Rejected "EXTRACTION_ERROR" info).
Proof.
  split; [reflexivity|].
  exact (late_cancellation_is_reported_as_error
           (Sample.calm Sample.roundTrip) Sample.archivePath Sample.outputPath
           (Sample.idle Sample.fresh)
           (fst (job (withDelivery true (Sample.calm Sample.roundTrip))
                   Sample.archivePath Sample.outputPath
                   (Sample.idle Sample.fresh)))
           [{| fi_path := "/data/user/0/com.app/files/out/a.txt";
               fi_name := "a.txt"; fi_relativePath := "a.txt";
               fi_size := 5 |};
            {| fi_path := "/data/user/0/com.app/files/out/dir/b.txt";
               fi_name := "b.txt"; fi_relativePath := "dir/b.txt";
               fi_size := 10 |}]
           Sample.outputPath eq_refl).
Defined.

(* ------------------------------------------------------------------ *)
(** * Facts about the iOS decoder paths *)

Lemma split_join (r : list string) :
  Forall plainName r ->
  forall s, noSlash s = true -> split (s ++ joinNames r) = (s, r).
Proof.
  induction r as [|a r IH]; intros Hr s Hs.
  - cbn [joinNames fold_right]. rewrite append_empty_r.
    now apply split_noSlash.
  - inversion Hr as [|? ? [Hne Ha] Hr']; subst.
    induction s as [|c s IHs].
    + cbn [String.append joinNames fold_right split].
      change (fold_right (fun s acc => String separatorChar (s ++ acc)) "" r)
        with (joinNames r).
      rewrite (IH Hr' a Ha). rewrite Ascii.eqb_refl.
      destruct a; [now elim Hne | reflexivity].
    + cbn [noSlash] in Hs. apply andb_prop in Hs as [Hc Hs].
      apply negb_true_iff in Hc.
      cbn [String.append split]. rewrite (IHs Hs), Hc. reflexivity.
Qed.

(** Reading back the names of a relative path. *)
Lemma segments_relativeString (rel : list string) :
  Forall plainName rel -> segments (relativeString rel) = rel.
Proof.
  intro H. destruct rel as [|s r]; [reflexivity|].
  inversion H as [|? ? [Hne Hs] Hr]; subst.
  unfold segments, relativeString. rewrite (split_join r Hr s Hs).
  destruct s; [now elim Hne | reflexivity].
Qed.

Lemma properTree_kids (kids : list (string * node)) :
  properTree (DirN kids) = true ->
  forall k c, In (k, c) kids ->
    plainName k /\ notDots k = true /\ properTree c = true /\
    find_kid k kids = Some c.
Proof.
  induction kids as [|[k0 c0] r IH]; intros H k c Hin; [contradiction|].
  cbn [properTree map fst distinctNames forallb] in H.
  apply andb_prop in H as [Hd Hf]. apply andb_prop in Hd as [Hd0 Hdr].
  apply andb_prop in Hf as [Hf0 Hfr].
  assert (Hr : properTree (DirN r) = true).
  { cbn [properTree]. now rewrite Hdr, Hfr. }
  destruct Hin as [E|Hin].
  - injection E as <- <-.
    apply andb_prop in Hf0 as [Hf0 Hc]. apply andb_prop in Hf0 as [Hf0 Hn].
    apply andb_prop in Hf0 as [He Hs]. apply negb_true_iff in He.
    apply String.eqb_neq in He. cbn [fst snd] in *.
    split; [now split|]. split; [exact Hn|]. split; [exact Hc|].
    cbn [find_kid]. now rewrite String.eqb_refl.
  - destruct (IH Hr k c Hin) as [P1 [P2 [P3 P4]]].
    split; [exact P1|]. split; [exact P2|]. split; [exact P3|].
    cbn [find_kid].
    destruct (String.eqb k0 k) eqn:E; [|exact P4].
    exfalso. apply String.eqb_eq in E. subst k0.
    apply negb_true_iff in Hd0.
    assert (X : existsb (String.eqb k) (map fst r) = true).
    { apply existsb_exists. exists k. split; [|apply String.eqb_refl].
      apply in_map_iff. now exists (k, c). }
    congruence.
Qed.

(** The listing of the iOS engine, read under a directory [pre] of the
    staging tree, is the listing of the Android engine. *)
Lemma enumerate_agrees_below (temp out : File) (fs root : node) :
  lookup (canonicalFile temp) fs = Some root ->
  forall n pre,
    properTree n = true ->
    Forall plainName pre -> forallb notDots pre = true ->
    lookup_o pre (Some root) = Some n ->
    flat_map
      (fun rel =>
         match lookup (canonicalFile (mkFileIn temp (relativeString rel))) fs with
         | Some (FileN d) =>
             [{| fi_path := absolutePath (mkFileIn out (relativeString rel));
                 fi_name := fileName (mkFile (relativeString rel));
                 fi_relativePath := relativeString rel;
                 fi_size := Z.of_nat (List.length d) |}]
         | _ => []
         end)
      (map (app pre) (IOSDecode.enumeratorAtPath n))
    = enumerateFiles (out ++ pre) out n.
Proof.
  intros Hroot. induction n as [d|kids IH] using node_induction;
    intros pre Hp Hpl Hnd Hl; [reflexivity|].
  cbn [IOSDecode.enumeratorAtPath enumerateFiles].
  pose proof (properTree_kids kids Hp) as K.
  assert (Sub : forall kc, In kc kids -> In kc kids) by auto.
  revert Sub. generalize kids at 1 3 4 as ks.
  induction ks as [|[k c] r IHr]; intro Sub; [reflexivity|].
  cbn [flat_map map fst snd app].
  destruct (K k c (Sub _ (or_introl eq_refl))) as [Pk [Dk [Pc Fk]]].
  rewrite map_app, flat_map_app, app_assoc. f_equal.
  2:{ apply IHr. intros kc Hin. apply Sub. now right. }
  assert (Hrel : Forall plainName (pre ++ [k]))
    by (apply Forall_app; split; [exact Hpl | now constructor]).
  assert (Hdots : forallb notDots (pre ++ [k]) = true)
    by (rewrite forallb_app, Hnd; cbn [forallb]; now rewrite Dk).
  assert (Lk : lookup_o (pre ++ [k]) (Some root) = Some c).
  { rewrite lookup_o_app, Hl. cbn [lookup_o]. now rewrite Fk. }
  assert (E1 : lookup (canonicalFile (mkFileIn temp (relativeString (pre ++ [k]))))
                 fs = Some c).
  { unfold mkFileIn. rewrite (segments_relativeString _ Hrel).
    rewrite (canonicalFile_app temp _ Hdots).
    unfold lookup in *. now rewrite lookup_o_app, Hroot. }
  rewrite E1.
  rewrite map_map.
  rewrite (map_ext (fun x => pre ++ k :: x) (app (pre ++ [k])))
    by (intro x; now rewrite <- app_assoc).
  rewrite Forall_forall in IH.
  specialize (IH (k, c) (Sub _ (or_introl eq_refl)) (pre ++ [k]) Pc Hrel Hdots Lk).
  cbn [snd] in IH. rewrite IH, app_assoc.
  destruct c as [d|kids']; [|reflexivity].
  cbn [enumerateFiles]. rewrite app_nil_r. f_equal.
  unfold describe, fileName, absolutePath, mkFileIn, mkFile.
  rewrite (segments_relativeString _ Hrel), <- app_assoc, relativize_app.
  f_equal. symmetry. apply last_app_nonempty.
  destruct pre; discriminate.
Qed.

(** On a staging tree as a file system holds it, the listing of the iOS
    engine is the listing of the Android engine for the same tree at the
    destination. *)
Lemma enumerate_agrees (temp out : File) (fs n : node) :
  lookup (canonicalFile temp) fs = Some n ->
  properTree n = true ->
  IOSDecode.enumerateFilesRecursively temp out fs = enumerateFiles out out n.
Proof.
  intros Hl Hp. unfold IOSDecode.enumerateFilesRecursively. rewrite Hl.
  pose proof (enumerate_agrees_below temp out fs n Hl n [] Hp
                (Forall_nil _) eq_refl eq_refl) as E.
  rewrite app_nil_r in E. rewrite <- E. f_equal.
  rewrite (map_ext (app []) (fun x => x)) by reflexivity.
  now rewrite map_id.
Qed.

Lemma ios_destinationNamed_places (e : IOS.env) (outputPath : string) :
  IOSDecode.destinationNamed e outputPath = true ->
  noSlash (IOS.uuid e) = true /\
  canonicalFile (mkFile outputPath)
  = canonicalFile (parentFile (mkFile outputPath))
      ++ [fileName (mkFile outputPath)] /\
  canonicalFile (IOS.tempPathOf e outputPath)
  = canonicalFile (parentFile (mkFile outputPath)) ++ [IOS.tempDirName e] /\
  fileName (mkFile outputPath) <> IOS.tempDirName e.
Proof.
  unfold IOSDecode.destinationNamed. intros H.
  apply andb_prop in H as [H H4]. apply andb_prop in H as [H H3].
  apply andb_prop in H as [H1 H2].
  split; [exact H1|]. split; [|split].
  - assert (Hne : mkFile outputPath <> [])
      by (destruct (mkFile outputPath); [discriminate H2 | discriminate]).
    rewrite (app_removelast_last EmptyString Hne) at 1.
    apply canonicalFile_app. cbn [forallb]. fold (fileName (mkFile outputPath)).
    now rewrite H3.
  - now apply canonical_tempPathOf.
  - apply negb_true_iff in H4. now apply String.eqb_neq.
Qed.

Lemma ios_plainDestination_inv (e : IOS.env) (outputPath : string) (fs : node) :
  IOSDecode.plainDestination e outputPath fs = true ->
  IOSDecode.destinationNamed e outputPath = true /\
  isDirectoryAt (canonicalFile (parentFile (mkFile outputPath))) fs = true /\
  existsAt (canonicalFile (IOS.tempPathOf e outputPath)) fs = false.
Proof.
  unfold IOSDecode.plainDestination. intro H.
  apply andb_prop in H as [H H3]. apply andb_prop in H as [H1 H2].
  apply negb_true_iff in H3. now repeat split.
Qed.

(** The staging directory of the iOS worker: made empty, and gone again
    without trace when removed, whatever the decoder has put into it. *)
Lemma ios_staging (e : IOS.env) (r : IOSDecode.run) (outputPath : string)
    (fs : node) :
  IOSDecode.plainDestination e outputPath fs = true ->
  let t := IOS.tempPathOf e outputPath in
  let fs1 := fst (mkdirsAt (canonicalFile t) fs) in
  canonicalFile t <> [] /\
  createDirectoryAtPath true t fs = (fs1, true) /\
  removeItemAtPath t fs = fs /\
  removeItemAtPath t fs1 = fs /\
  removeItemAtPath t (IOSDecode.decoded r t fs1) = fs /\
  lookup (canonicalFile t) (IOSDecode.decoded r t fs1)
  = Some (DirN (IOSDecode.extracted r)).
Proof.
  intros Hpd t fs1.
  destruct (ios_plainDestination_inv _ _ _ Hpd) as [Hn [Hp Hx]].
  destruct (ios_destinationNamed_places _ _ Hn) as [Hu [_ [Et _]]].
  fold t in Et, Hx.
  set (P := canonicalFile (parentFile (mkFile outputPath))) in *.
  assert (Hne : canonicalFile t <> []) by (rewrite Et; destruct P; discriminate).
  rewrite Et in Hx.
  destruct (fresh_directory P (IOS.tempDirName e) fs Hp Hx) as [L R].
  unfold removeItemAtPath, File_deleteRecursively, createDirectoryAtPath.
  subst fs1. rewrite Et in *.
  split; [exact Hne|]. split; [|split; [|split; [|split]]].
  - unfold isDirectoryAt. now rewrite L.
  - now apply deleteRecursivelyAt_absent.
  - exact R.
  - unfold IOSDecode.decoded. rewrite Et.
    now rewrite delete_after_alter.
  - unfold IOSDecode.decoded. rewrite Et.
    now rewrite (lookup_alter_own _ _ _ _ Hne L).
Qed.

(** What the atomic replacement leaves when it goes through. *)
Lemma ios_commit_shape (e : IOS.env) (r : IOSDecode.run) (outputPath : string)
    (fs fs2 fs' n : node) :
  IOSDecode.destinationNamed e outputPath = true ->
  removeItemAtPath (IOS.tempPathOf e outputPath) fs2 = fs ->
  lookup (canonicalFile (IOS.tempPathOf e outputPath)) fs2 = Some n ->
  IOSDecode.replaceOrMove r (IOS.tempPathOf e outputPath) (mkFile outputPath) fs2
  = Some fs' ->
  lookup (canonicalFile (mkFile outputPath)) fs' = Some n /\
  existsAt (canonicalFile (IOS.tempPathOf e outputPath)) fs' = false /\
  deleteRecursivelyAt (canonicalFile (mkFile outputPath)) fs'
  = deleteRecursivelyAt (canonicalFile (mkFile outputPath)) fs.
Proof.
  intros Hn Hrm Ln Hc.
  destruct (ios_destinationNamed_places _ _ Hn) as [Hu [Ed [Et Nd]]].
  set (P := canonicalFile (parentFile (mkFile outputPath))) in *.
  set (d := fileName (mkFile outputPath)) in *.
  set (s := IOS.tempDirName e) in *.
  assert (Nne : forall z, P ++ [z] <> []) by (intros z; destruct P; discriminate).
  destruct (apart_sym P d s Nd) as [A1 A2].
  unfold removeItemAtPath, File_deleteRecursively in Hrm.
  rewrite Et in Hrm, Ln |- *. rewrite Ed.
  assert (Shape : fs' = alter (P ++ [d]) (fun _ => Some n)
                          (alter (P ++ [s]) (fun _ => None) fs2) /\
                  exists kids, lookup P (alter (P ++ [s]) (fun _ => None) fs2)
                               = Some (DirN kids)).
  { unfold IOSDecode.replaceOrMove in Hc.
    destruct (fileExistsAtPath (mkFile outputPath) fs2).
    - destruct (IOSDecode.replacePermitted r); [|discriminate].
      unfold IOSDecode.replaceItemAt in Hc. rewrite Et, Ed, Ln, A1, A2 in Hc.
      cbn [orb] in Hc.
      destruct (isDirectoryAt (parentFile (P ++ [d])) _) eqn:D; [|discriminate].
      injection Hc as <-. split; [reflexivity|].
      unfold parentFile in D. rewrite removelast_last in D.
      now apply isDirectoryAt_inv.
    - destruct (IOSDecode.movePermitted r); [|discriminate].
      unfold File_renameTo in Hc. rewrite Et, Ed in Hc.
      unfold renameAt in Hc.
      destruct (P ++ [s]) as [|a1 r1] eqn:E1; [now elim (Nne s)|].
      destruct (P ++ [d]) as [|a2 r2] eqn:E2; [now elim (Nne d)|].
      rewrite Ln, A2 in Hc.
      destruct (isDirectoryAt (parentFile (a2 :: r2)) _) eqn:D;
        [|discriminate].
      destruct (replaceable n _); [|discriminate]. cbn [andb] in Hc.
      injection Hc as <-. split; [reflexivity|].
      rewrite <- E2 in D. unfold parentFile in D.
      rewrite removelast_last in D. now apply isDirectoryAt_inv. }
  destruct Shape as [-> [kids Hk]].
  change (alter (P ++ [s]) (fun _ => None) fs2)
    with (deleteRecursivelyAt (P ++ [s]) fs2) in *.
  rewrite Hrm in *.
  split; [|split].
  - rewrite (lookup_alter_child _ _ _ kids); [reflexivity | apply Nne|].
    unfold parentFile. now rewrite removelast_last.
  - unfold existsAt. rewrite lookup_alter_apart by assumption.
    pose proof (deleteRecursivelyAt_gone (P ++ [s]) fs2 (Nne s)) as G.
    rewrite Hrm in G. exact G.
  - now apply delete_after_alter.
Qed.

(** The end of the two decoder paths, from the listing on. *)
Lemma ios_deliver_outcome (e : IOS.env) (r : IOSDecode.run)
    (outputPath : string) (m1 : IOS.module) (fs fs2 : node) :
  IOSDecode.destinationNamed e outputPath = true ->
  removeItemAtPath (IOS.tempPathOf e outputPath) fs2 = fs ->
  lookup (canonicalFile (IOS.tempPathOf e outputPath)) fs2
  = Some (DirN (IOSDecode.extracted r)) ->
  (exists code,
     IOSDecode.deliver r (IOS.tempPathOf e outputPath) outputPath m1 fs2
     = (IOSDecode.settled m1 None fs, Rejected code None))
  \/
  (exists fs',
     IOSDecode.deliver r (IOS.tempPathOf e outputPath) outputPath m1 fs2
     = (IOSDecode.settled m1 None fs',
        Resolved
          (IOSDecode.enumerateFilesRecursively (IOS.tempPathOf e outputPath)
             (mkFile outputPath) fs2)
          outputPath) /\
     (List.length
        (IOSDecode.enumerateFilesRecursively (IOS.tempPathOf e outputPath)
           (mkFile outputPath) fs2) =? 0)%nat = false /\
     lookup (canonicalFile (mkFile outputPath)) fs'
     = Some (DirN (IOSDecode.extracted r)) /\
     existsAt (canonicalFile (IOS.tempPathOf e outputPath)) fs' = false /\
     deleteRecursivelyAt (canonicalFile (mkFile outputPath)) fs'
     = deleteRecursivelyAt (canonicalFile (mkFile outputPath)) fs).
Proof.
  intros Hn Hrm Ln. unfold IOSDecode.deliver, IOSDecode.rejected.
  rewrite Hrm.
  destruct (List.length _ =? 0)%nat eqn:Len; [left; eauto|].
  destruct (IOSDecode.cancellationRequestedAt r IOSDecode.AfterEnumeration);
    [left; eauto|].
  destruct (IOSDecode.replaceOrMove r _ _ fs2) as [fs'|] eqn:C; [|left; eauto].
  right. exists fs'.
  destruct (ios_commit_shape e r outputPath fs fs2 fs' _ Hn Hrm Ln C)
    as [H1 [H2 H3]].
  now repeat split.
Qed.

(** The two ways the worker block can end in the setting it is written
    for: with a rejection, over the tree it found; or resolved, with the
    decoded tree at the destination. *)
Lemma ios_worker_outcome (e : IOS.env) (r : IOSDecode.run)
    (archivePath outputPath : string) (m : IOS.module) :
  IOSDecode.plainDestination e outputPath (IOS.disk m) = true ->
  (exists code temp,
     IOSDecode.worker e r archivePath outputPath m
     = (IOSDecode.settled m temp (IOS.disk m), Rejected code None) /\
     (fileExistsAtPath (mkFile archivePath) (IOS.disk m) = true ->
      temp = None))
  \/
  (exists fs' files,
     IOSDecode.worker e r archivePath outputPath m
     = (IOSDecode.settled m None fs', Resolved files outputPath) /\
     files
     = IOSDecode.enumerateFilesRecursively (IOS.tempPathOf e outputPath)
         (mkFile outputPath)
         (IOSDecode.decoded r (IOS.tempPathOf e outputPath)
            (fst (mkdirsAt (canonicalFile (IOS.tempPathOf e outputPath))
                    (IOS.disk m)))) /\
     (List.length files =? 0)%nat = false /\
     lookup (canonicalFile (mkFile outputPath)) fs'
     = Some (DirN (IOSDecode.extracted r)) /\
     existsAt (canonicalFile (IOS.tempPathOf e outputPath)) fs' = false /\
     deleteRecursivelyAt (canonicalFile (mkFile outputPath)) fs'
     = deleteRecursivelyAt (canonicalFile (mkFile outputPath)) (IOS.disk m)).
Proof.
  intro Hpd.
  destruct (ios_plainDestination_inv _ _ _ Hpd) as [Hn _].
  destruct (ios_staging e r outputPath (IOS.disk m) Hpd)
    as [Hne [Hcr [R0 [R1 [R2 L2]]]]].
  set (t := IOS.tempPathOf e outputPath) in *.
  set (fs1 := fst (mkdirsAt (canonicalFile t) (IOS.disk m))) in *.
  unfold IOSDecode.worker, IOS.worker. fold t.
  destruct (fileExistsAtPath (mkFile archivePath) (IOS.disk m)); cbn [negb].
  2:{ left. exists "FILE_NOT_FOUND", (IOS.currentTempPath m).
      split; [reflexivity | discriminate]. }
  destruct (IOS.createPermitted e).
  2:{ left. exists "DIRECTORY_ERROR", None. cbn. now split. }
  rewrite Hcr. cbn [negb].
  destruct (IOS.cancellationSeen e).
  { left. exists "UNARCHIVE_CANCELLED", None. rewrite R1. now split. }
  set (m1 := {| IOS.activeExtraction := IOS.activeExtraction m;
                IOS.cancellationRequested := IOS.cancellationRequested m;
                IOS.currentTempPath := Some t; IOS.disk := fs1 |}).
  assert (D : forall fs2,
            removeItemAtPath t fs2 = IOS.disk m ->
            lookup (canonicalFile t) fs2 = Some (DirN (IOSDecode.extracted r)) ->
            fs2 = IOSDecode.decoded r t fs1 ->
            (exists code temp,
               IOSDecode.deliver r t outputPath m1 fs2
               = (IOSDecode.settled m temp (IOS.disk m), Rejected code None) /\
               (true = true -> temp = None))
            \/
            (exists fs' files,
               IOSDecode.deliver r t outputPath m1 fs2
               = (IOSDecode.settled m None fs', Resolved files outputPath) /\
               files = IOSDecode.enumerateFilesRecursively t (mkFile outputPath)
                         (IOSDecode.decoded r t fs1) /\
               (List.length files =? 0)%nat = false /\
               lookup (canonicalFile (mkFile outputPath)) fs'
               = Some (DirN (IOSDecode.extracted r)) /\
               existsAt (canonicalFile t) fs' = false /\
               deleteRecursivelyAt (canonicalFile (mkFile outputPath)) fs'
               = deleteRecursivelyAt (canonicalFile (mkFile outputPath))
                   (IOS.disk m))).
  { intros fs2 Hrm Ln ->.
    destruct (ios_deliver_outcome e r outputPath m1 (IOS.disk m) _ Hn Hrm Ln)
      as [[code E]|[fs' [E [H1 [H2 [H3 H4]]]]]].
    - left. exists code, None. now split.
    - right. eexists fs', _. split; [exact E|]. now repeat split. }
  assert (Rj : forall code fs2,
            removeItemAtPath t fs2 = IOS.disk m ->
            exists code' temp,
              IOSDecode.rejected code t m1 fs2
              = (IOSDecode.settled m temp (IOS.disk m), Rejected code' None) /\
              (true = true -> temp = None)).
  { intros code fs2 Hrm. exists code, None. unfold IOSDecode.rejected.
    rewrite Hrm. now split. }
  destruct (formatOf archivePath).
  - (* the RAR path *)
    unfold IOSDecode.extractCBRFile. change (IOS.disk m1) with fs1.
    destruct (IOSDecode.opens r); cbn [negb]; [|left; now apply Rj].
    destruct (IOSDecode.cancellationRequestedAt r IOSDecode.AfterOpening);
      [left; now apply Rj|].
    destruct (IOSDecode.listFilenames r) as [filenames|]; [|left; now apply Rj].
    destruct (IOSDecode.cancellationRequestedAt r IOSDecode.BeforeValidation);
      [left; now apply Rj|].
    destruct (forallb (IOSDecode.isSafePath r) filenames); cbn [negb];
      [|left; now apply Rj].
    destruct (IOSDecode.cancellationRequestedAt r IOSDecode.BeforeExtraction);
      [left; now apply Rj|].
    destruct (IOSDecode.extractionSucceeds r); [|left; now apply Rj].
    now apply D.
  - (* the ZIP path *)
    unfold IOSDecode.extractCBZFile. change (IOS.disk m1) with fs1.
    destruct (IOSDecode.extractionSucceeds r); cbn [negb];
      [|left; now apply Rj].
    destruct (IOSDecode.cancellationRequestedAt r IOSDecode.AfterExtraction);
      [left; now apply Rj|].
    destruct (IOSDecode.escaped t _); [left; now apply Rj|].
    now apply D.
  - left. exists "UNSUPPORTED_FORMAT", None. rewrite R1. now split.
Qed.

(** X17.  The two listings agree.  On a staging tree as a file system
    holds it - proper names, no name twice in a directory - the list that
    the iOS engine builds with [enumerateFilesRecursively], reading the
    staging directory and naming the files under the output path, has the
    entries of the list that the Android engine builds with
    [enumerateFiles] from the same tree at the destination: one entry for
    each regular file, with the same [path], [name], [relativePath] and
    [size].  Neither platform fixes the order in which a directory is
    listed, so the lists agree up to the order of their entries. *)
Theorem listings_agree (tempPath outputDir : File) (fs n : node) :
  lookup (canonicalFile tempPath) fs = Some n ->
  properTree n = true ->
  Permutation
    (IOSDecode.enumerateFilesRecursively tempPath outputDir fs)
    (enumerateFiles outputDir outputDir n).
Proof.
  intros L Hp. rewrite (enumerate_agrees tempPath outputDir fs n L Hp).
  apply Permutation_refl.
Qed.

Lemma listings_agree_witness :
  lookup (canonicalFile ["Documents"; "stage"])
    (DirN [("Documents", DirN [("stage", DirN Cases.pages)])])
  = Some (DirN Cases.pages) /\
  Permutation
    (IOSDecode.enumerateFilesRecursively ["Documents"; "stage"]
       ["Documents"; "out"]
       (DirN [("Documents", DirN [("stage", DirN Cases.pages)])]))
    [{| fi_path := "/Documents/out/dir/b.txt"; fi_name := "b.txt";
        fi_relativePath := "dir/b.txt"; fi_size := 10 |};
     {| fi_path := "/Documents/out/a.txt"; fi_name := "a.txt";
        fi_relativePath := "a.txt"; fi_size := 5 |}].
Proof.
  split; [reflexivity|].
  apply (Permutation_trans
           (listings_agree ["Documents"; "stage"] ["Documents"; "out"]
              (DirN [("Documents", DirN [("stage", DirN Cases.pages)])])
              (DirN Cases.pages) eq_refl eq_refl)).
  apply perm_swap.
Defined.

(** X18.  An iOS request that is rejected leaves no trace.  In the setting
    the engine is written for, whatever the worker block rejects the
    request with - archive missing, format unsupported, archive not opened
    or listed, unsafe path, extraction failed, nothing extracted, cancelled
    at any read of the flag, replacement at the end refused - the tree is
    afterwards exactly the tree it found, the destination with what it
    held, the staging directory gone, and the guard is released. *)
Theorem ios_rejection_leaves_tree
    (e : IOS.env) (r : IOSDecode.run) (archivePath outputPath : string)
    (m m' : IOS.module) (code : string) (info : option errorInfo) :
  IOSDecode.plainDestination e outputPath (IOS.disk m) = true ->
  IOSDecode.worker e r archivePath outputPath m = (m', Rejected code info) ->
  IOS.disk m' = IOS.disk m /\
  IOS.activeExtraction m' = false /\
  fileExistsAtPath (IOS.tempPathOf e outputPath) (IOS.disk m') = false.
Proof.
  intros Hpd H.
  destruct (ios_plainDestination_inv _ _ _ Hpd) as [_ [_ Hx]].
  destruct (ios_worker_outcome e r archivePath outputPath m Hpd)
    as [[code' [temp [E _]]]|[fs' [files [E _]]]]; rewrite E in H;
    [|discriminate].
  injection H as <- _ _. now repeat split.
Qed.

Lemma ios_rejection_leaves_tree_witness :
  IOSDecode.worker Sample.iosEnv Cases.noReplace "/Documents/in.zip"
    "/Documents/out" (Sample.working Cases.documents)
  = (IOSDecode.settled (Sample.working Cases.documents) None Cases.documents,
     Rejected "ATOMIC_REPLACE_ERROR" None) /\
  IOS.disk (fst (IOSDecode.worker Sample.iosEnv Cases.noReplace
                   "/Documents/in.zip" "/Documents/out"
                   (Sample.working Cases.documents)))
  = IOS.disk (Sample.working Cases.documents).
Proof.
  split; [reflexivity|].
  exact (proj1
    (ios_rejection_leaves_tree Sample.iosEnv Cases.noReplace
       "/Documents/in.zip" "/Documents/out" (Sample.working Cases.documents)
       (fst (IOSDecode.worker Sample.iosEnv Cases.noReplace
               "/Documents/in.zip" "/Documents/out"
               (Sample.working Cases.documents)))
       "ATOMIC_REPLACE_ERROR" None eq_refl eq_refl)).
Defined.

(** X19.  What a resolved iOS request leaves.  In the setting the engine is
    written for, a request that the worker block resolves has put exactly
    what the decoder extracted at the destination, in place of what was
    there; nothing else in the tree has changed, the staging directory is
    gone, the guard released and the staging path forgotten.  The result
    names the output path it was given and lists at least one file - an
    extraction that leaves no regular file is never resolved - and on a
    tree as a file system holds it the list has the entries that the
    Android engine gives for the same tree, up to their order. *)
Theorem ios_resolved_is_decoded_tree
    (e : IOS.env) (r : IOSDecode.run) (archivePath outputPath : string)
    (m m' : IOS.module) (files : list ExtractedFileInfo) (out : string) :
  IOSDecode.plainDestination e outputPath (IOS.disk m) = true ->
  IOSDecode.worker e r archivePath outputPath m = (m', Resolved files out) ->
  out = outputPath /\
  (List.length files =? 0)%nat = false /\
  IOS.activeExtraction m' = false /\
  IOS.currentTempPath m' = None /\
  lookup (canonicalFile (mkFile outputPath)) (IOS.disk m')
  = Some (DirN (IOSDecode.extracted r)) /\
  fileExistsAtPath (IOS.tempPathOf e outputPath) (IOS.disk m') = false /\
  deleteRecursivelyAt (canonicalFile (mkFile outputPath)) (IOS.disk m')
  = deleteRecursivelyAt (canonicalFile (mkFile outputPath)) (IOS.disk m) /\
  (properTree (DirN (IOSDecode.extracted r)) = true ->
   Permutation files
     (enumerateFiles (mkFile outputPath) (mkFile outputPath)
        (DirN (IOSDecode.extracted r)))).
Proof.
  intros Hpd H.
  destruct (ios_staging e r outputPath (IOS.disk m) Hpd)
    as [_ [_ [_ [_ [_ L2]]]]].
  destruct (ios_worker_outcome e r archivePath outputPath m Hpd)
    as [[code' [temp [E _]]]|[fs' [files' [E [Hf [Hl [Ld [Hx Hd]]]]]]]];
    rewrite E in H; [discriminate|].
  injection H as <- <- <-. repeat split; trivial.
  intro Hp. rewrite Hf.
  rewrite (enumerate_agrees _ _ _ _ L2 Hp). apply Permutation_refl.
Qed.

Lemma ios_resolved_is_decoded_tree_witness :
  IOSDecode.worker Sample.iosEnv Cases.smooth "/Documents/in.zip"
    "/Documents/out" (Sample.working Cases.documents)
  = (IOSDecode.settled (Sample.working Cases.documents) None
       (DirN [("Documents",
               DirN [("in.zip", FileN (Sample.b 4));
                     ("out", DirN Cases.pages)])]),
     Resolved
       [{| fi_path := "/Documents/out/a.txt"; fi_name := "a.txt";
           fi_relativePath := "a.txt"; fi_size := 5 |};
        {| fi_path := "/Documents/out/dir/b.txt"; fi_name := "b.txt";
           fi_relativePath := "dir/b.txt"; fi_size := 10 |}]
       "/Documents/out") /\
  lookup (canonicalFile (mkFile "/Documents/out"))
    (IOS.disk (fst (IOSDecode.worker Sample.iosEnv Cases.smooth
                      "/Documents/in.zip" "/Documents/out"
                      (Sample.working Cases.documents))))
  = Some (DirN (IOSDecode.extracted Cases.smooth)).
Proof.
  split; [reflexivity|].
  exact (proj1 (proj2 (proj2 (proj2 (proj2
    (ios_resolved_is_decoded_tree Sample.iosEnv Cases.smooth
       "/Documents/in.zip" "/Documents/out" (Sample.working Cases.documents)
       (fst (IOSDecode.worker Sample.iosEnv Cases.smooth
               "/Documents/in.zip" "/Documents/out"
               (Sample.working Cases.documents)))
       [{| fi_path := "/Documents/out/a.txt"; fi_name := "a.txt";
           fi_relativePath := "a.txt"; fi_size := 5 |};
        {| fi_path := "/Documents/out/dir/b.txt"; fi_name := "b.txt";
           fi_relativePath := "dir/b.txt"; fi_size := 10 |}]
       "/Documents/out" eq_refl eq_refl)))))).
Defined.

(** X20.  Cancelling on iOS.  [cancelUnarchive] raises the cancellation flag
    and, half a second later, answers [cancelled: YES] - always, also when
    no extraction runs.  With no staging path on record the tree is left
    alone; a staging directory on record is removed by then.  The raised
    flag does not outlive the call: the next request that gets past the
    guard and the sandbox check starts with the flag lowered. *)
Theorem ios_cancel_raises_flag_and_sweeps
    (sb : IOS.sandbox) (archivePath outputPath : string) (m : IOS.module) :
  snd (IOSDecode.cancelUnarchiveLater (IOSDecode.cancelUnarchive m)) = true /\
  (IOS.currentTempPath m = None ->
   fst (IOSDecode.cancelUnarchiveLater (IOSDecode.cancelUnarchive m))
   = {| IOS.activeExtraction := IOS.activeExtraction m;
        IOS.cancellationRequested := true;
        IOS.currentTempPath := None;
        IOS.disk := IOS.disk m |}) /\
  (forall t, IOS.currentTempPath m = Some t -> canonicalFile t <> [] ->
     fileExistsAtPath t
       (IOS.disk
          (fst (IOSDecode.cancelUnarchiveLater (IOSDecode.cancelUnarchive m))))
     = false) /\
  (IOS.activeExtraction m = false ->
   IOS.isOutputPathInSandbox sb outputPath = true ->
   IOS.unarchive sb archivePath outputPath
     (fst (IOSDecode.cancelUnarchiveLater (IOSDecode.cancelUnarchive m)))
   = ({| IOS.activeExtraction := true;
         IOS.cancellationRequested := false;
         IOS.currentTempPath := IOS.currentTempPath m;
         IOS.disk :=
           IOS.disk
             (fst (IOSDecode.cancelUnarchiveLater
                     (IOSDecode.cancelUnarchive m))) |},
      [SetBusy true; Launch])).
Proof.
  split; [reflexivity|]. split; [|split].
  - intro H. unfold IOSDecode.cancelUnarchiveLater, IOSDecode.cancelUnarchive.
    cbn [fst IOS.currentTempPath IOS.disk IOS.activeExtraction
         IOS.cancellationRequested]. now rewrite H.
  - intros t H Hne.
    unfold IOSDecode.cancelUnarchiveLater, IOSDecode.cancelUnarchive.
    cbn [fst IOS.currentTempPath IOS.disk]. rewrite H.
    destruct (fileExistsAtPath t (IOS.disk m)) eqn:E; [|exact E].
    unfold fileExistsAtPath, removeItemAtPath, File_exists,
      File_deleteRecursively.
    now apply deleteRecursivelyAt_gone.
  - intros Hb Hs. unfold IOS.unarchive.
    cbn [fst IOSDecode.cancelUnarchiveLater IOSDecode.cancelUnarchive
         IOS.activeExtraction IOS.currentTempPath].
    now rewrite Hb, Hs.
Qed.

Lemma ios_cancel_raises_flag_and_sweeps_witness :
  fileExistsAtPath (Cases.files ++ ["stage"]) Cases.staged = true /\
  fileExistsAtPath (Cases.files ++ ["stage"])
    (IOS.disk
       (fst (IOSDecode.cancelUnarchiveLater
               (IOSDecode.cancelUnarchive
                  {| IOS.activeExtraction := true;
                     IOS.cancellationRequested := false;
                     IOS.currentTempPath := Some (Cases.files ++ ["stage"]);
                     IOS.disk := Cases.staged |}))))
  = false.
Proof.
  split; [reflexivity|].
  apply (proj1 (proj2 (proj2
           (ios_cancel_raises_flag_and_sweeps
              {| IOS.documentsPath := "/Documents"; IOS.cachesPath := "/Caches";
                 IOS.tmpPath := "/tmp" |}
              "/Documents/in.zip" "/Documents/out"
              {| IOS.activeExtraction := true;
                 IOS.cancellationRequested := false;
                 IOS.currentTempPath := Some (Cases.files ++ ["stage"]);
                 IOS.disk := Cases.staged |})))
         (Cases.files ++ ["stage"]) eq_refl).
  discriminate.
Defined.

Lemma fileIn_proper (n : node) (rel : list string) (d : bytes) :
  fileIn n rel d -> properTree n = true -> Forall plainName rel.
Proof.
  induction 1 as [kids s d Hin|kids s kids' rel d Hin F IH]; intro Hp.
  - destruct (properTree_kids kids Hp s _ Hin) as [P _]. now constructor.
  - destruct (properTree_kids kids Hp s _ Hin) as [P [_ [Pc _]]].
    constructor; [exact P | now apply IH].
Qed.

(** X21.  The relative path leads to the path.  For every file that
    [enumerateFiles] lists from a tree as a file system holds it, the
    [relativePath] of the entry, read as a path and taken below the output
    directory, is the [path] of the entry, and its last name is the [name]
    of the entry. *)
Theorem relativePath_leads_to_path
    (outputDir : File) (n : node) (fi : ExtractedFileInfo) :
  properTree n = true ->
  In fi (enumerateFiles outputDir outputDir n) ->
  absolutePath (mkFileIn outputDir (fi_relativePath fi)) = fi_path fi /\
  fileName (mkFile (fi_relativePath fi)) = fi_name fi.
Proof.
  intros Hp Hin.
  destruct (enumerateFiles_sound _ _ _ _ Hin) as [rel [d [F ->]]].
  pose proof (fileIn_proper _ _ _ F Hp) as Hrel.
  pose proof (fileIn_nonempty _ _ _ F) as Hne.
  rewrite (describe_below _ _ _ Hne). cbn [fi_relativePath fi_path fi_name].
  unfold mkFileIn, mkFile. now rewrite (segments_relativeString _ Hrel).
Qed.

Lemma relativePath_leads_to_path_witness :
  absolutePath
    (mkFileIn ["Documents"; "out"]
       (fi_relativePath
          {| fi_path := "/Documents/out/dir/b.txt"; fi_name := "b.txt";
             fi_relativePath := "dir/b.txt"; fi_size := 10 |}))
  = "/Documents/out/dir/b.txt" /\
  fileName (mkFile "dir/b.txt") = "b.txt".
Proof.
  exact (relativePath_leads_to_path ["Documents"; "out"] (DirN Cases.pages)
           {| fi_path := "/Documents/out/dir/b.txt"; fi_name := "b.txt";
              fi_relativePath := "dir/b.txt"; fi_size := 10 |}
           eq_refl (or_intror (or_introl eq_refl))).
Defined.



(* ================================================================== *)
(** * The properties of the specification *)

(** C1.  The commit step on the code, where the claim fails.  [unarchive]
    deletes the destination before it calls [atomicMoveOrFallback], so the
    backup-and-restore of the fallback never has anything to restore: every
    request whose commit step fails, that is every request that ends with
    [ATOMIC_MOVE_FAILED], leaves no destination at all, whatever was there
    before the call. *)
Theorem commit_failure_leaves_no_destination
    (e : env) (archivePath outputPath : string) (m m' : module)
    (info : option errorInfo) :
  canonicalFile (mkFile outputPath) <> [] ->
  job e archivePath outputPath m = (m', Rejected "ATOMIC_MOVE_FAILED" info) ->
  File_exists (mkFile outputPath) (disk m') = false.
Proof.
  intros Hne. unfold job.
  destruct (jobBody e archivePath outputPath (disk m)) as [[fsb tb] sb] eqn:B.
  intro H. injection H as <- ->. revert B. unfold jobBody.
  destruct (File_exists (mkFile archivePath) (disk m)); cbn [negb];
    [|discriminate].
  destruct (isActive e BeforeStaging); cbn [negb]; [|discriminate].
  destruct (if mkdirsPermitted e
            then File_mkdirs (tempDirOf e outputPath) (disk m)
            else (disk m, false)) as [fs1 created].
  destruct created; cbn [negb]; [|discriminate].
  destruct (if File_isFile (mkFile archivePath) fs1 then openInArchive e else None)
    as [items|]; [|discriminate].
  destruct (isActive e AfterOpen); cbn [negb]; [|discriminate].
  destruct (stageItems e (tempDirIsAbsolute outputPath) (tempDirOf e outputPath) 0 items [] fs1)
    as [fs2 l|code fs2 l] eqn:S.
  2:{ intro B. injection B as _ _ -> _.
      destruct (stageItems_codes _ _ _ _ _ _ _ _ _ _ S); discriminate. }
  destruct (isActive e BeforeMove); cbn [negb]; [|discriminate].
  set (fs3 := if File_exists (mkFile outputPath) fs2
              then File_deleteRecursively (mkFile outputPath) fs2 else fs2).
  assert (Hx3 : File_exists (mkFile outputPath) fs3 = false).
  { unfold fs3. destruct (File_exists (mkFile outputPath) fs2) eqn:X;
      [|exact X].
    unfold File_exists, File_deleteRecursively.
    now apply deleteRecursivelyAt_gone. }
  destruct (atomicMoveOrFallback e (tempDirOf e outputPath) (mkFile outputPath) fs3)
    as [fs4 ok] eqn:M.
  destruct ok; cbn [negb].
  - destruct (isActive e AtDelivery); discriminate.
  - intro B. injection B as <- <- _.
    apply move_failure in M; [|exact Hx3]. subst fs4.
    change (File_exists (mkFile outputPath)
              (disk (jobFinally (Some (tempDirOf e outputPath)) fs3)) = false).
    rewrite jobFinally_disk. unfold File_exists, existsAt in *.
    destruct (canonicalFile (tempDirOf e outputPath)) as [|a tc];
      [exact Hx3|].
    unfold deleteRecursivelyAt, lookup.
    rewrite <- alter_some by discriminate.
    rewrite remove_keeps_absent; [reflexivity|].
    unfold lookup in Hx3.
    now destruct (lookup_o (canonicalFile (mkFile outputPath)) (Some fs3)).
Qed.

(** C1 at work: the destination holds an earlier result, the archive is
    staged, and the platform refuses both the atomic move and the rename.
    The request ends with [ATOMIC_MOVE_FAILED] in the tree that has no
    destination. *)
Lemma failed_commit_loses_destination :
  lookup (canonicalFile (mkFile Sample.outputPath)) Sample.used
  = Some (DirN [("old.txt", FileN (Sample.b 7))]) /\
  job (Sample.stuck Sample.roundTrip) Sample.archivePath Sample.outputPath
    (Sample.idle Sample.used)
  = (Sample.idle Sample.fresh,
     Rejected "ATOMIC_MOVE_FAILED"
       (Some {| partialFilesCount := 2;
                tempPath :=
                  Some "/data/user/0/com.app/files/unarchive_temp_6f1c_1700" |})) /\
  File_exists (mkFile Sample.outputPath) (disk (Sample.idle Sample.fresh))
  = false.
Proof.
  assert (N : canonicalFile (mkFile Sample.outputPath) <> []) by discriminate.
  split; [reflexivity|]. split; [reflexivity|].
  exact (commit_failure_leaves_no_destination
           (Sample.stuck Sample.roundTrip) Sample.archivePath
           Sample.outputPath (Sample.idle Sample.used)
           (Sample.idle Sample.fresh) _ N eq_refl).
Defined.

(** The same loss with a platform that refuses nothing: for a destination
    written with a closing dot name the staging directory is made inside
    the destination, and the delete before the move takes both. *)
Lemma dotted_destination_is_wiped :
  isPathAllowed Sample.ctx Sample.dottedPath = true /\
  job (Sample.calm Sample.roundTrip) Sample.archivePath Sample.dottedPath
    (Sample.idle Sample.used)
  = (Sample.idle Sample.fresh,
     Rejected "ATOMIC_MOVE_FAILED"
       (Some {| partialFilesCount := 2;
                tempPath :=
                  Some "/data/user/0/com.app/files/out/unarchive_temp_6f1c_1700" |})).
Proof. split; reflexivity. Qed.




(** An output path that ends in a dot name.  The staging directory is
    then made inside the destination: a destination that was not there
    comes into being on the way, and stays, empty, when the request is
    rejected. *)
Lemma dot_destination_is_made :
  lookup (canonicalFile (mkFile "/data/user/0/com.app/files/new/."))
    Sample.used = None /\
  job (Sample.calm [Sample.fileItem "a.txt" (Sample.b 5);
                    Sample.fileItem "../../evil" (Sample.b 3)])
    Sample.archivePath "/data/user/0/com.app/files/new/."
    (Sample.idle Sample.used)
  = (Sample.idle
       (Sample.appDir
          [("in.zip", FileN (Sample.b 4));
           ("out", DirN [("old.txt", FileN (Sample.b 7))]);
           ("new", DirN [])]),
     Rejected "UNARCHIVE_ENTRY_INVALID" None).
Proof. split; reflexivity. Qed.

(** C3.  The sandbox validator on the code, where the claim fails: a
    destination in a directory next to the application's files directory,
    whose name merely starts with the name of that directory.  No allowed
    root is a directory prefix of its canonical form, yet [isPathAllowed]
    accepts it: [unarchive] takes the guard and launches the job, and the
    request extracts the archive there. *)
Theorem sibling_of_allowed_root_is_accepted :
  validate Sample.ctx Sample.siblingPath = false /\
  isPathAllowed Sample.ctx Sample.siblingPath = true /\
  snd (unarchive Sample.ctx Sample.archivePath Sample.siblingPath
         (Sample.idle Sample.fresh))
  = [SetBusy true; Launch] /\
  snd (request Sample.ctx (Sample.calm Sample.roundTrip) Sample.archivePath
         Sample.siblingPath (Sample.idle Sample.fresh))
  = Some (Resolved
            [{| fi_path := "/data/user/0/com.app/files_evil/out/a.txt";
                fi_name := "a.txt";
                fi_relativePath := "a.txt";
                fi_size := 5 |};
             {| fi_path := "/data/user/0/com.app/files_evil/out/dir/b.txt";
                fi_name := "b.txt";
                fi_relativePath := "dir/b.txt";
                fi_size := 10 |}]
            Sample.siblingPath).
Proof. repeat split; reflexivity. Qed.

(** However the worker block of the hardened iOS engine ends, it has
    released the guard. *)
Lemma ios_worker_releases (e : IOS.env) (r : IOSDecode.run)
    (archivePath outputPath : string) (m : IOS.module) :
  IOS.activeExtraction (fst (IOSDecode.worker e r archivePath outputPath m))
  = false.
Proof.
  assert (D : forall t o m1 fs,
            IOS.activeExtraction (fst (IOSDecode.deliver r t o m1 fs)) = false).
  { intros t o m1 fs. unfold IOSDecode.deliver, IOSDecode.rejected.
    destruct (_ =? 0)%nat; [reflexivity|].
    destruct (IOSDecode.cancellationRequestedAt r IOSDecode.AfterEnumeration);
      [reflexivity|].
    now destruct (IOSDecode.replaceOrMove r t (mkFile o) fs). }
  unfold IOSDecode.worker, IOS.worker.
  destruct (fileExistsAtPath (mkFile archivePath) (IOS.disk m)); cbn [negb];
    [|reflexivity].
  destruct (createDirectoryAtPath _ _ _) as [fs1 created].
  destruct created; cbn [negb]; [|reflexivity].
  destruct (IOS.cancellationSeen e); [reflexivity|].
  destruct (formatOf archivePath); [| |reflexivity].
  - unfold IOSDecode.extractCBRFile, IOSDecode.rejected.
    destruct (IOSDecode.opens r); cbn [negb]; [|reflexivity].
    destruct (IOSDecode.cancellationRequestedAt r IOSDecode.AfterOpening);
      [reflexivity|].
    destruct (IOSDecode.listFilenames r) as [names|]; [|reflexivity].
    destruct (IOSDecode.cancellationRequestedAt r IOSDecode.BeforeValidation);
      [reflexivity|].
    destruct (forallb (IOSDecode.isSafePath r) names); cbn [negb];
      [|reflexivity].
    destruct (IOSDecode.cancellationRequestedAt r IOSDecode.BeforeExtraction);
      [reflexivity|].
    destruct (IOSDecode.extractionSucceeds r); [apply D | reflexivity].
  - unfold IOSDecode.extractCBZFile, IOSDecode.rejected.
    destruct (IOSDecode.extractionSucceeds r); cbn [negb]; [|reflexivity].
    destruct (IOSDecode.cancellationRequestedAt r IOSDecode.AfterExtraction);
      [reflexivity|].
    destruct (IOSDecode.escaped _ _); [reflexivity | apply D].
Qed.

(** C4 (as amended).  Single flight.  With the guard taken, a call of
    [unarchive] is rejected at once with [UNARCHIVE_BUSY]: it launches no
    job and leaves the module and the tree as they were, in the Android
    engine and in the hardened iOS engine.  In both, a call that launches
    leaves the guard taken.  Once the job in flight has run - the Android
    coroutine body with its [finally], the worker block of the hardened
    iOS engine, through any of their ends, resolved, rejected or cancelled,
    for every environment - the guard is free, and the next call with an
    admissible output path takes the guard and launches.  The first iOS
    engine keeps no guard: every call whose archive exists and whose output
    directory can be made goes on to the decoder of its format, whatever
    else is in flight. *)
Theorem single_flight
    (ctx : context) (e : env)
    (archivePath outputPath nextArchive next : string)
    (jobRef : bool) (fs : node)
    (sb : IOS.sandbox) (ie : IOS.env) (r : IOSDecode.run)
    (cancel : bool) (temp : option File) :
  unarchive ctx nextArchive next
    {| activeExtraction := true; currentJobRef := jobRef; disk := fs |}
  = ({| activeExtraction := true; currentJobRef := jobRef; disk := fs |},
     [Reject "UNARCHIVE_BUSY"])
  /\
  IOS.unarchive sb nextArchive next
    {| IOS.activeExtraction := true; IOS.cancellationRequested := cancel;
       IOS.currentTempPath := temp; IOS.disk := fs |}
  = ({| IOS.activeExtraction := true; IOS.cancellationRequested := cancel;
        IOS.currentTempPath := temp; IOS.disk := fs |},
     [Reject "UNARCHIVE_BUSY"])
  /\
  (forall m,
     launched (snd (unarchive ctx archivePath outputPath m)) = true ->
     activeExtraction (fst (unarchive ctx archivePath outputPath m)) = true)
  /\
  (forall m,
     launched (snd (IOS.unarchive sb archivePath outputPath m)) = true ->
     IOS.activeExtraction (fst (IOS.unarchive sb archivePath outputPath m))
     = true)
  /\
  (activeExtraction
     (fst (job e archivePath outputPath
             {| activeExtraction := true; currentJobRef := jobRef;
                disk := fs |})) = false /\
   (isPathAllowed ctx next = true ->
    unarchive ctx nextArchive next
      (fst (job e archivePath outputPath
              {| activeExtraction := true; currentJobRef := jobRef;
                 disk := fs |}))
    = ({| activeExtraction := true; currentJobRef := true;
          disk :=
            disk (fst (job e archivePath outputPath
                         {| activeExtraction := true; currentJobRef := jobRef;
                            disk := fs |})) |},
       [SetBusy true; Launch])))
  /\
  (IOS.activeExtraction
     (fst (IOSDecode.worker ie r archivePath outputPath
             {| IOS.activeExtraction := true;
                IOS.cancellationRequested := cancel;
                IOS.currentTempPath := temp; IOS.disk := fs |})) = false /\
   (IOS.isOutputPathInSandbox sb next = true ->
    snd (IOS.unarchive sb nextArchive next
           (fst (IOSDecode.worker ie r archivePath outputPath
                   {| IOS.activeExtraction := true;
                      IOS.cancellationRequested := cancel;
                      IOS.currentTempPath := temp; IOS.disk := fs |})))
    = [SetBusy true; Launch] /\
    IOS.activeExtraction
      (fst (IOS.unarchive sb nextArchive next
              (fst (IOSDecode.worker ie r archivePath outputPath
                      {| IOS.activeExtraction := true;
                         IOS.cancellationRequested := cancel;
                         IOS.currentTempPath := temp; IOS.disk := fs |}))))
    = true))
  /\
  (forall cbr cbz permitted a o fs0,
     fileExistsAtPath (mkFile a) fs0 = true ->
     snd (createDirectoryAtPath permitted (mkFile o) fs0) = true ->
     IOS1.unarchive cbr cbz permitted a o fs0
     = match formatOf a with
       | RarFamily =>
           cbr a o (fst (createDirectoryAtPath permitted (mkFile o) fs0))
       | ZipFamily =>
           cbz a o (fst (createDirectoryAtPath permitted (mkFile o) fs0))
       | Unsupported =>
           (fst (createDirectoryAtPath permitted (mkFile o) fs0),
            Rejected "UNSUPPORTED_FORMAT" None)
       end).
Proof.
  split; [reflexivity|]. split; [reflexivity|]. split.
  { intro m0. unfold unarchive. destruct (activeExtraction m0); [discriminate|].
    now destruct (isPathAllowed ctx outputPath). }
  split.
  { intro m0. unfold IOS.unarchive.
    destruct (IOS.activeExtraction m0); [discriminate|].
    now destruct (IOS.isOutputPathInSandbox sb outputPath). }
  split; [|split].
  - destruct (job_releases e archivePath outputPath
                {| activeExtraction := true; currentJobRef := jobRef;
                   disk := fs |}) as [Hb _].
    split; [exact Hb|]. intro Hp. unfold unarchive. now rewrite Hb, Hp.
  - pose proof (ios_worker_releases ie r archivePath outputPath
                  {| IOS.activeExtraction := true;
                     IOS.cancellationRequested := cancel;
                     IOS.currentTempPath := temp; IOS.disk := fs |}) as Hb.
    split; [exact Hb|]. intro Hp. unfold IOS.unarchive. now rewrite Hb, Hp.
  - intros cbr cbz permitted a o fs0 Ha Hc. unfold IOS1.unarchive.
    rewrite Ha. cbn [negb].
    destruct (createDirectoryAtPath permitted (mkFile o) fs0) as [fs1 created].
    cbn [fst snd] in *. now rewrite Hc.
Qed.

(** C4, the claim as first stated fails: the first iOS engine keeps no
    guard.  What it does for a call does not depend on another call being
    in flight: with the extraction of an earlier call under way in [out],
    the next call makes its output directory and goes to the decoder. *)
Lemma first_engine_runs_every_call :
  IOS1.unarchive Sample.noDecoder1 Sample.noDecoder1 true
    "/Documents/in.zip" "/Documents/next" Cases.documents
  = (DirN [("Documents",
            DirN [("in.zip", FileN (Sample.b 4));
                  ("out", DirN [("old.txt", FileN (Sample.b 7))]);
                  ("next", DirN [])])],
     Rejected "EXTRACTION_ERROR" None).
Proof. reflexivity. Qed.

(** C5.  The cancellation that comes before the job has started, on the
    code, where the claim fails.  Take a call that launches.  The coroutine
    body, with its [try] and [finally], has not yet begun when
    [cancelUnarchive] cancels the job: the body then never runs.
    [cancelUnarchive] answers [cancelled: true], the promise of the request
    is not settled, and the module is left as the launch left it, with the
    guard taken, so that every later call of [unarchive], whatever its
    paths, is rejected with [UNARCHIVE_BUSY].  A job that had begun when it
    was cancelled does release the guard. *)
Theorem cancelled_before_start_keeps_guard
    (ctx : context) (e : env) (archivePath outputPath : string) (m : module) :
  launched (snd (unarchive ctx archivePath outputPath m)) = true ->
  cancelUnarchive Pending e archivePath outputPath
    (fst (unarchive ctx archivePath outputPath m))
  = (fst (unarchive ctx archivePath outputPath m), None, true) /\
  activeExtraction (fst (unarchive ctx archivePath outputPath m)) = true /\
  (forall a o,
     unarchive ctx a o (fst (unarchive ctx archivePath outputPath m))
     = (fst (unarchive ctx archivePath outputPath m),
        [Reject "UNARCHIVE_BUSY"])) /\
  activeExtraction
    (fst (fst (cancelUnarchive Running e archivePath outputPath
                 (fst (unarchive ctx archivePath outputPath m))))) = false.
Proof.
  intro Hl. unfold unarchive in *.
  destruct (activeExtraction m); [discriminate|].
  destruct (isPathAllowed ctx outputPath); [|discriminate].
  cbn [fst negb]. split; [reflexivity|]. split; [reflexivity|].
  split; [reflexivity|].
  unfold cancelUnarchive. cbn [currentJobRef].
  pose proof (job_releases e archivePath outputPath
                {| activeExtraction := true; currentJobRef := true;
                   disk := disk m |}) as [R _].
  now destruct (job e archivePath outputPath _).
Qed.

(** C5 at work: the sample request is launched and cancelled before its
    body begins; the same call is then refused as busy. *)
Lemma cancelled_before_start_keeps_guard_witness :
  unarchive Sample.ctx Sample.archivePath Sample.outputPath
    (Sample.idle Sample.used)
  = (Cases.busy Sample.used, [SetBusy true; Launch]) /\
  cancelUnarchive Pending (Cases.cancelled Sample.roundTrip)
    Sample.archivePath Sample.outputPath (Cases.busy Sample.used)
  = (Cases.busy Sample.used, None, true) /\
  unarchive Sample.ctx Sample.archivePath Sample.outputPath
    (Cases.busy Sample.used)
  = (Cases.busy Sample.used, [Reject "UNARCHIVE_BUSY"]).
Proof.
  split; [reflexivity|].
  destruct (cancelled_before_start_keeps_guard Sample.ctx
              (Cases.cancelled Sample.roundTrip) Sample.archivePath
              Sample.outputPath (Sample.idle Sample.used) eq_refl)
    as [H1 [_ [H3 _]]].
  split; [exact H1 | exact (H3 Sample.archivePath Sample.outputPath)].
Defined.



(** C7 (as amended).  A request rejected with [FILE_NOT_FOUND] leaves the
    tree as it was, in the Android engine and in both iOS engines: the
    archive is looked for before anything is made.  [UNSUPPORTED_FORMAT]
    is an iOS rejection and comes after a directory has been made.  In the
    hardened engine that is the staging directory, which is removed again
    before the rejection without a decoder being run: no staging directory
    is left, the guard is free, and when the destination's parent
    directory was there the tree is as it was.  In the first engine it is
    the output directory, which stays. *)
Theorem precondition_rejections :
  (forall e archivePath outputPath m,
     File_exists (mkFile archivePath) (disk m) = false ->
     job e archivePath outputPath m
     = ({| activeExtraction := false; currentJobRef := false;
           disk := disk m |},
        Rejected "FILE_NOT_FOUND" None)) /\
  (forall cbr cbz e archivePath outputPath m,
     fileExistsAtPath (mkFile archivePath) (IOS.disk m) = false ->
     IOS.worker cbr cbz e archivePath outputPath m
     = ({| IOS.activeExtraction := false;
           IOS.cancellationRequested := IOS.cancellationRequested m;
           IOS.currentTempPath := IOS.currentTempPath m;
           IOS.disk := IOS.disk m |},
        Rejected "FILE_NOT_FOUND" None)) /\
  (forall cbr cbz permitted archivePath outputPath fs,
     fileExistsAtPath (mkFile archivePath) fs = false ->
     IOS1.unarchive cbr cbz permitted archivePath outputPath fs
     = (fs, Rejected "FILE_NOT_FOUND" None)) /\
  (forall cbr cbz e archivePath outputPath m,
     noSlash (IOS.uuid e) = true ->
     fileExistsAtPath (mkFile archivePath) (IOS.disk m) = true ->
     snd (createDirectoryAtPath (IOS.createPermitted e)
            (IOS.tempPathOf e outputPath) (IOS.disk m)) = true ->
     IOS.cancellationSeen e = false ->
     formatOf archivePath = Unsupported ->
     IOS.worker cbr cbz e archivePath outputPath m
     = ({| IOS.activeExtraction := false;
           IOS.cancellationRequested := IOS.cancellationRequested m;
           IOS.currentTempPath := None;
           IOS.disk :=
             removeItemAtPath (IOS.tempPathOf e outputPath)
               (fst (createDirectoryAtPath (IOS.createPermitted e)
                       (IOS.tempPathOf e outputPath) (IOS.disk m))) |},
        Rejected "UNSUPPORTED_FORMAT" None) /\
     fileExistsAtPath (IOS.tempPathOf e outputPath)
       (IOS.disk (fst (IOS.worker cbr cbz e archivePath outputPath m)))
     = false /\
     (isDirectoryAt (canonicalFile (parentFile (mkFile outputPath)))
        (IOS.disk m) = true ->
      fileExistsAtPath (IOS.tempPathOf e outputPath) (IOS.disk m) = false ->
      IOS.disk (fst (IOS.worker cbr cbz e archivePath outputPath m))
      = IOS.disk m)) /\
  (forall cbr cbz permitted archivePath outputPath fs,
     fileExistsAtPath (mkFile archivePath) fs = true ->
     snd (createDirectoryAtPath permitted (mkFile outputPath) fs) = true ->
     formatOf archivePath = Unsupported ->
     IOS1.unarchive cbr cbz permitted archivePath outputPath fs
     = (fst (createDirectoryAtPath permitted (mkFile outputPath) fs),
        Rejected "UNSUPPORTED_FORMAT" None) /\
     isDirectoryAt (canonicalFile (mkFile outputPath))
       (fst (createDirectoryAtPath permitted (mkFile outputPath) fs)) = true).
Proof.
  split; [|split; [|split; [|split]]].
  - intros e a o m H. unfold job, jobBody. now rewrite H.
  - intros cbr cbz e a o m H. unfold IOS.worker. now rewrite H.
  - intros cbr cbz permitted a o fs H. unfold IOS1.unarchive. now rewrite H.
  - intros cbr cbz e a o m Hu Hx Hcr Hcan Hfmt.
    assert (W : IOS.worker cbr cbz e a o m
                = ({| IOS.activeExtraction := false;
                      IOS.cancellationRequested := IOS.cancellationRequested m;
                      IOS.currentTempPath := None;
                      IOS.disk :=
                        removeItemAtPath (IOS.tempPathOf e o)
                          (fst (createDirectoryAtPath (IOS.createPermitted e)
                                  (IOS.tempPathOf e o) (IOS.disk m))) |},
                   Rejected "UNSUPPORTED_FORMAT" None)).
    { unfold IOS.worker. rewrite Hx. cbn [negb].
      destruct (createDirectoryAtPath _ _ _) as [fs1 created].
      cbn [snd] in Hcr. subst created. cbn [negb fst].
      now rewrite Hcan, Hfmt. }
    rewrite W. cbn [fst IOS.disk]. split; [reflexivity|].
    unfold fileExistsAtPath, removeItemAtPath, File_exists,
      File_deleteRecursively in *.
    rewrite (canonical_tempPathOf _ _ Hu) in *. split.
    + apply deleteRecursivelyAt_gone.
      now destruct (canonicalFile (parentFile (mkFile o))).
    + intros Hp Hfresh. unfold createDirectoryAtPath in *.
      destruct (IOS.createPermitted e); [|discriminate].
      cbn [fst]. rewrite (canonical_tempPathOf _ _ Hu).
      now apply fresh_directory.
  - intros cbr cbz permitted a o fs Hx Hcr Hfmt. unfold IOS1.unarchive.
    rewrite Hx. cbn [negb]. unfold createDirectoryAtPath in *.
    destruct permitted; [|discriminate]. cbn [fst snd] in *.
    rewrite Hcr. cbn [negb]. now rewrite Hfmt.
Qed.

(** C7, the claim as first stated fails: on iOS the format is only looked
    at after a directory has been made.  In the hardened engine the
    staging directory is made with its missing parents, and the parent
    stays when the request is rejected with [UNSUPPORTED_FORMAT]; in the
    first engine the output directory itself is made and stays. *)
Lemma unsupported_format_after_mkdir :
  IOS.worker Sample.noDecoder Sample.noDecoder Sample.iosEnv
    "/Documents/in.tar" "/Documents/comics/out"
    (Sample.working Sample.documents)
  = ({| IOS.activeExtraction := false; IOS.cancellationRequested := false;
        IOS.currentTempPath := None;
        IOS.disk :=
          DirN [("Documents", DirN [("in.tar", FileN (Sample.b 4));
                                    ("comics", DirN [])])] |},
     Rejected "UNSUPPORTED_FORMAT" None) /\
  IOS1.unarchive Sample.noDecoder1 Sample.noDecoder1 true
    "/Documents/in.tar" "/Documents/out" Sample.documents
  = (DirN [("Documents", DirN [("in.tar", FileN (Sample.b 4));
                               ("out", DirN [])])],
     Rejected "UNSUPPORTED_FORMAT" None).
Proof. split; reflexivity. Qed.

(** C8.  The staging pass on the code, where the claim fails: the decoder
    reports a CRC error for an entry after it has fed three bytes.  The
    entry is left out of the collected list and the pass goes on, but its
    partial file is not deleted: it stays in the staging directory, is
    committed with it, and is listed in the result of the request. *)
Theorem failed_entry_with_data_is_kept :
  stageItems
    (Sample.calm [Sample.failedItem "a.bin" (Sample.b 3);
                  Sample.fileItem "b.txt" (Sample.b 5)])
    true ["stage"] 0
    [Sample.failedItem "a.bin" (Sample.b 3);
     Sample.fileItem "b.txt" (Sample.b 5)]
    [] (DirN [("stage", DirN [])])
  = Staged
      (DirN [("stage", DirN [("a.bin", FileN (Sample.b 3));
                             ("b.txt", FileN (Sample.b 5))])])
      [{| fi_path := "/stage/b.txt"; fi_name := "b.txt";
          fi_relativePath := "b.txt"; fi_size := 5 |}] /\
  snd (request Sample.ctx
         (Sample.calm [Sample.failedItem "a.bin" (Sample.b 3);
                       Sample.fileItem "b.txt" (Sample.b 5)])
         Sample.archivePath Sample.outputPath (Sample.idle Sample.fresh))
  = Some (Resolved
            [{| fi_path := "/data/user/0/com.app/files/out/a.bin";
                fi_name := "a.bin";
                fi_relativePath := "a.bin";
                fi_size := 3 |};
             {| fi_path := "/data/user/0/com.app/files/out/b.txt";
                fi_name := "b.txt";
                fi_relativePath := "b.txt";
                fi_size := 5 |}]
            Sample.outputPath).
Proof. split; reflexivity. Qed.

(** C9. The admission checks are ordered busy-first.  A call that finds the
    guard taken is rejected with [UNARCHIVE_BUSY] whatever its output path,
    allowed or not, and changes nothing.  The path check is only reached
    with the guard free: the call takes the guard, and on a path outside
    the allowed roots it releases the guard and then rejects with
    [UNARCHIVE_INVALID_PATH], in that order, leaving the tree alone.  An
    invalid-path rejection never comes from a call that found the guard
    taken. *)
Theorem busy_checked_before_path
    (ctx : context) (archivePath outputPath : string) (jobRef : bool)
    (fs : node) :
  unarchive ctx archivePath outputPath
    {| activeExtraction := true; currentJobRef := jobRef; disk := fs |}
  = ({| activeExtraction := true; currentJobRef := jobRef; disk := fs |},
     [Reject "UNARCHIVE_BUSY"])
  /\
  unarchive ctx archivePath outputPath
    {| activeExtraction := false; currentJobRef := jobRef; disk := fs |}
  = (if isPathAllowed ctx outputPath
     then ({| activeExtraction := true; currentJobRef := true; disk := fs |},
           [SetBusy true; Launch])
     else ({| activeExtraction := false; currentJobRef := jobRef; disk := fs |},
           [SetBusy true; SetBusy false; Reject "UNARCHIVE_INVALID_PATH"]))
  /\
  (forall m,
     In (Reject "UNARCHIVE_INVALID_PATH") (snd (unarchive ctx archivePath outputPath m)) ->
     activeExtraction m = false /\ isPathAllowed ctx outputPath = false).
Proof.
  split; [reflexivity|]. split.
  - unfold unarchive. simpl. now destruct (isPathAllowed ctx outputPath).
  - intros m H. unfold unarchive in H.
    destruct (activeExtraction m); simpl in H.
    + destruct H as [H|[]]. discriminate.
    + destruct (isPathAllowed ctx outputPath); simpl in H; [|now split].
      destruct H as [H|[H|[]]]; discriminate.
Qed.

(** C10.  An entry without a declared path, on the code.  Take a request
    that resolves, to a destination whose last name is not a dot name, and
    in its archive a non-folder item with no path (position [length pre])
    whose data, not empty, is delivered whole, no other item being
    extracted to the place of this one or below it.  The item gets the
    name ["unknown_file_<index>"] with its position as index; the
    sanitiser accepts that name, as the file of that name right under the
    staging root; and the staging pass writes the data there.  When the
    output path is an absolute path, the pass collects the file under that
    name, and the result of the request lists it under that name, with the
    size of its data, at the destination, where the file is.  When the
    output path is a relative path, the claim fails: [relativize] throws,
    the file is deleted again, it is not at the destination, and the
    result lists no entry of that name. *)
Theorem nameless_entry_named_by_index
    (e : env) (archivePath outputPath : string) (m m' : module)
    (pre post : list item) (it : item)
    (files : list ExtractedFileInfo) (out : string) :
  noSlash (uuid e) = true ->
  notDots (fileName (mkFile outputPath)) = true ->
  mkFile outputPath <> [] ->
  fileName (mkFile outputPath) <> tempDirName e ->
  openInArchive e = Some (pre ++ it :: post) ->
  isFolder it = false -> path it = None ->
  extractThrows it = false -> extractResult it = OK ->
  allAccepted it = true -> fedData it <> [] ->
  clearOf e
    (canonicalFile (tempDirOf e outputPath)
       ++ [("unknown_file_" ++ showIndex (List.length pre))%string])
    (tempDirOf e outputPath) 0 pre = true ->
  clearOf e
    (canonicalFile (tempDirOf e outputPath)
       ++ [("unknown_file_" ++ showIndex (List.length pre))%string])
    (tempDirOf e outputPath) (S (List.length pre)) post = true ->
  job e archivePath outputPath m = (m', Resolved files out) ->
  itemPath (List.length pre) it
  = ("unknown_file_" ++ showIndex (List.length pre))%string /\
  isSafeEntryPath e (itemPath (List.length pre) it) (tempDirOf e outputPath)
  = Some (canonicalFile (tempDirOf e outputPath)
            ++ [("unknown_file_" ++ showIndex (List.length pre))%string]) /\
  (exists fs_a l_a fs_b,
     stageItems e (tempDirIsAbsolute outputPath) (tempDirOf e outputPath) 0
       pre []
       (fst (File_mkdirs (tempDirOf e outputPath) (disk m)))
     = Staged fs_a l_a /\
     stageEntry (tempDirIsAbsolute outputPath) (tempDirOf e outputPath) it
       (canonicalFile (tempDirOf e outputPath)
          ++ [("unknown_file_" ++ showIndex (List.length pre))%string])
       l_a fs_a
     = (fs_b,
        if tempDirIsAbsolute outputPath
        then l_a ++ [describe
                       (canonicalFile (tempDirOf e outputPath)
                          ++ [("unknown_file_"
                               ++ showIndex (List.length pre))%string])
                       (tempDirOf e outputPath)
                       (Z.of_nat (List.length (fedData it)))]
        else l_a) /\
     lookup
       (canonicalFile (tempDirOf e outputPath)
          ++ [("unknown_file_" ++ showIndex (List.length pre))%string]) fs_b
     = if tempDirIsAbsolute outputPath then Some (FileN (fedData it))
       else None) /\
  lookup
    (canonicalFile (mkFile outputPath)
       ++ [("unknown_file_" ++ showIndex (List.length pre))%string]) (disk m')
  = (if tempDirIsAbsolute outputPath then Some (FileN (fedData it))
     else None) /\
  (if tempDirIsAbsolute outputPath
   then In {| fi_path :=
                absolutePath
                  (mkFile outputPath
                     ++ [("unknown_file_"
                          ++ showIndex (List.length pre))%string]);
              fi_name := "unknown_file_" ++ showIndex (List.length pre);
              fi_relativePath :=
                "unknown_file_" ++ showIndex (List.length pre);
              fi_size := Z.of_nat (List.length (fedData it)) |} files
   else forall fi, In fi files ->
          fi_relativePath fi
          <> ("unknown_file_" ++ showIndex (List.length pre))%string).
Proof.
  intros Hu Hdots Hdne Hfresh Ho Hfolder Hpath Hthrows Hres Hacc Hdata Hpre Hpost Hjob.
  set (name := ("unknown_file_" ++ showIndex (List.length pre))%string) in *.
  set (dest := mkFile outputPath) in *.
  set (t := tempDirOf e outputPath) in *.
  set (abs := tempDirIsAbsolute outputPath) in *.
  set (P := canonicalFile (parentFile dest)).
  (* the places *)
  assert (Edest : canonicalFile dest = P ++ [fileName dest]).
  { rewrite (app_removelast_last EmptyString Hdne) at 1.
    apply canonicalFile_app. cbn [forallb]. now rewrite Hdots. }
  assert (Etc : canonicalFile t = P ++ [tempDirName e]).
  { unfold t. now rewrite (canonical_tempDirOf _ _ Hu). }
  assert (Hne : canonicalFile t <> []).
  { rewrite Etc. destruct P; discriminate. }
  pose proof (tempDirOf_plain e outputPath) as Ht. fold t in Ht.
  assert (Nft : String.eqb (fileName dest) (tempDirName e) = false)
    by now apply String.eqb_neq.
  assert (Ntf : String.eqb (tempDirName e) (fileName dest) = false)
    by (rewrite String.eqb_sym; exact Nft).
  set (target := canonicalFile t ++ [name]) in *.
  assert (Hip : itemPath (List.length pre) it = name).
  { unfold itemPath. now rewrite Hpath. }
  assert (C : canonicalFile (mkFileIn t name) = target).
  { unfold mkFileIn, name.
    rewrite (segments_plain _ (unknown_name_plain _)).
    now apply canonicalFile_app. }
  (* what the job went through *)
  unfold job in Hjob.
  destruct (jobBody e archivePath outputPath (disk m)) as [[fsb tb] sb] eqn:B.
  injection Hjob as <- ->.
  destruct (jobBody_resolved _ _ _ _ _ _ _ _ B) as [-> ->].
  destruct (jobBody_resolved_inv _ _ _ _ _ _ _ _ B)
    as [fs1 [items [fs2 [l [Em [Ho' [Hs [Hmv ->]]]]]]]].
  fold t dest abs in Em, Hs, Hmv. rewrite Ho in Ho'. injection Ho' as <-.
  (* the staging directory is new and empty *)
  assert (Efs1 : fs1 = fst (File_mkdirs t (disk m))) by now rewrite Em.
  unfold File_mkdirs, mkdirsAt in Em. injection Em as _ Ecr.
  apply andb_prop in Ecr as [Hx Hd1]. apply negb_true_iff in Hx.
  change (unwrap (disk m) (mkdirs_o (canonicalFile t) (Some (disk m))))
    with (fst (File_mkdirs t (disk m))) in Hd1. rewrite <- Efs1 in Hd1.
  assert (L1 : lookup target fs1 = None).
  { rewrite Efs1. unfold File_mkdirs, lookup. rewrite <- mkdirs_some.
    apply mkdirs_fresh_child. unfold existsAt, lookup in Hx.
    now destruct (lookup_o (canonicalFile t) (Some (disk m))). }
  (* the items before, the item, the items after *)
  rewrite stageItems_app in Hs.
  destruct (stageItems e abs t 0 pre [] fs1) as [fs_a l_a|? ? ?] eqn:Spre;
    [|discriminate].
  cbn [stageItems Nat.add] in Hs.
  destruct (isActive e (AtEntry (List.length pre))); cbn [negb] in Hs;
    [|discriminate].
  rewrite Hfolder, Hip in Hs. cbn [negb] in Hs.
  destruct (isSafeEntryPath e name t) as [o1|] eqn:S0; [|discriminate].
  assert (S1 : isSafeEntryPath e name t = Some target).
  { destruct (isSafeEntryPath_inv _ _ _ _ Ht S0) as [-> _].
    now rewrite <- C. }
  rewrite S1 in S0. injection S0 as <-.
  pose proof (stageItems_confined e abs t pre Ht Hne 0 [] fs1 Hd1) as [Hda _].
  pose proof (stageItems_frame e abs t target pre Ht 0 [] fs1 Hpre) as La.
  rewrite Spre in Hda, La. cbn [stagingTree] in Hda, La. rewrite L1 in La.
  assert (Ho1 : target <> []) by (unfold target; destruct (canonicalFile t); discriminate).
  assert (Hpt : parentFile target = canonicalFile t)
    by apply removelast_last.
  set (content := if abs then Some (FileN (fedData it)) else None).
  assert (SEx : exists fs_b,
            stageEntry abs t it target l_a fs_a
            = (fs_b,
               if abs
               then l_a ++ [describe target t
                              (Z.of_nat (List.length (fedData it)))]
               else l_a) /\
            lookup target fs_b = content).
  { assert (Hdir : isDirectoryAt (parentFile target) fs_a = true)
      by now rewrite Hpt.
    unfold content. destruct abs.
    - destruct (stageEntry_materializes t it target l_a fs_a Ho1 Hdir La
                  Hthrows Hres Hacc Hdata) as [fs_b [SE Lb]]. eauto.
    - destruct (stageEntry_relative t it target l_a fs_a Ho1 Hdir La
                  Hthrows Hres Hacc Hdata) as [fs_b [SE Lb]]. eauto. }
  destruct SEx as [fs_b [SE Lb]].
  rewrite SE in Hs.
  pose proof (stageItems_frame e abs t target post Ht (S (List.length pre))
                (if abs
                 then l_a ++ [describe target t
                                (Z.of_nat (List.length (fedData it)))]
                 else l_a)
                fs_b Hpost) as L2.
  rewrite Hs in L2. cbn [stagingTree] in L2. rewrite Lb in L2.
  (* the commit *)
  set (fs3 := if File_exists dest fs2 then File_deleteRecursively dest fs2
              else fs2) in *.
  assert (Hx3 : File_exists dest fs3 = false).
  { unfold fs3. destruct (File_exists dest fs2) eqn:X; [|exact X].
    unfold File_exists, File_deleteRecursively.
    apply deleteRecursivelyAt_gone. rewrite Edest. destruct P; discriminate. }
  assert (L3 : lookup target fs3 = content).
  { unfold fs3. destruct (File_exists dest fs2); [|exact L2].
    unfold File_deleteRecursively, deleteRecursivelyAt.
    rewrite lookup_alter_apart; [exact L2| |];
      unfold target; rewrite Edest, Etc;
      rewrite <- ?app_assoc, isPrefixOf_app_both; cbn [app isPrefixOf];
      rewrite ?Nft, ?Ntf; reflexivity. }
  apply move_success in Hmv; [|exact Hx3].
  destruct (renameAt_lookup _ _ _ _ Hmv) as [n [Ln Ld]].
  assert (Lin : lookup_o [name] (Some n) = content).
  { rewrite <- Ln, <- L3. unfold target, lookup. now rewrite lookup_o_app. }
  assert (Rel : relativeString [name] = name) by apply append_empty_r.
  assert (Lfin : lookup (canonicalFile dest ++ [name])
                   (disk (jobFinally (Some t) fsb)) = content).
  { rewrite jobFinally_disk. unfold deleteRecursivelyAt.
    rewrite lookup_alter_apart.
    + unfold lookup. rewrite lookup_o_app. unfold lookup in Ld. now rewrite Ld.
    + rewrite Edest, Etc.
      rewrite <- app_assoc, isPrefixOf_app_both. cbn [app isPrefixOf].
      now rewrite Nft.
    + rewrite Edest, Etc.
      rewrite <- app_assoc, isPrefixOf_app_both. cbn [app isPrefixOf].
      now rewrite Ntf. }
  split; [exact Hip|]. split; [now rewrite Hip|].
  split; [exists fs_a, l_a, fs_b; rewrite <- Efs1; now repeat split|].
  split; [exact Lfin|].
  unfold content in Lin. unfold enumerateFrom. fold dest. rewrite Ld.
  destruct abs.
  - assert (Fin : fileIn n [name] (fedData it)).
    { cbn [lookup_o] in Lin. destruct n as [d|kids]; [discriminate|].
      constructor. now apply find_kid_In. }
    assert (Ed : describe (dest ++ [name]) dest
                   (Z.of_nat (List.length (fedData it)))
                 = {| fi_path := absolutePath (dest ++ [name]);
                      fi_name := name;
                      fi_relativePath := name;
                      fi_size := Z.of_nat (List.length (fedData it)) |}).
    { rewrite describe_below by discriminate. now rewrite Rel. }
    rewrite <- Ed. now apply enumerateFiles_complete.
  - intros fi Hin Hrel.
    destruct (enumerateFiles_sound _ _ _ _ Hin) as [rel [d [F ->]]].
    rewrite (describe_below _ _ _ (fileIn_nonempty _ _ _ F)) in Hrel.
    cbn [fi_relativePath] in Hrel.
    assert (Er : rel = [name]).
    { apply relativeString_one;
        [apply (proj2 (unknown_name_plain (List.length pre)))
        | exact Hrel
        | exact (fileIn_nonempty _ _ _ F)]. }
    subst rel. inversion F as [kids s d0 Hk|kids s kids' r0 d0 Hk F0]; subst.
    + cbn [lookup_o] in Lin. apply (In_find_kid _ _ _ Hk). exact Lin.
    + inversion F0.
Qed.

(** C10 at work: the second of three items declares no path.  With the
    output path written as an absolute path the entry is in the result
    and at the destination.  With the same destination written as a
    relative path, which [isPathAllowed] accepts as well, the request
    resolves with no file at all, and the destination holds none. *)
Lemma nameless_entry_named_by_index_witness :
  isPathAllowed Sample.ctx "data/user/0/com.app/files/out" = true /\
  request Sample.ctx (Sample.calm Sample.withNameless) Sample.archivePath
    "data/user/0/com.app/files/out" (Sample.idle Sample.fresh)
  = (Sample.idle (Sample.appDir [("in.zip", FileN (Sample.b 4));
                                 ("out", DirN [])]),
     [SetBusy true; Launch],
     Some (Resolved [] "data/user/0/com.app/files/out")) /\
  lookup ["data"; "user"; "0"; "com.app"; "files"; "out"; "unknown_file_1"]
    (disk (fst (job (Sample.calm Sample.withNameless) Sample.archivePath
                  "data/user/0/com.app/files/out"
                  (Sample.idle Sample.fresh))))
  = None /\
  lookup ["data"; "user"; "0"; "com.app"; "files"; "out"; "unknown_file_1"]
    (disk (fst (job (Sample.calm Sample.withNameless) Sample.archivePath
                  Sample.outputPath (Sample.idle Sample.fresh))))
  = Some (FileN (Sample.b 6)).
Proof.
  assert (N1 : mkFile Sample.outputPath <> []) by discriminate.
  assert (N2 : fileName (mkFile Sample.outputPath)
               <> tempDirName (Sample.calm Sample.withNameless))
    by discriminate.
  assert (N3 : fedData (Sample.namelessItem (Sample.b 6)) <> [])
    by discriminate.
  split; [reflexivity|]. split; [reflexivity|]. split.
  - exact (proj1 (proj2 (proj2 (proj2
      (nameless_entry_named_by_index
         (Sample.calm Sample.withNameless) Sample.archivePath
         "data/user/0/com.app/files/out"
         (Sample.idle Sample.fresh)
         (fst (job (Sample.calm Sample.withNameless) Sample.archivePath
                 "data/user/0/com.app/files/out"
                 (Sample.idle Sample.fresh)))
         [Sample.fileItem "a.txt" (Sample.b 5)]
         [Sample.fileItem "c.txt" (Sample.b 2)]
         (Sample.namelessItem (Sample.b 6))
         [] "data/user/0/com.app/files/out"
         eq_refl eq_refl N1 N2 eq_refl eq_refl eq_refl eq_refl eq_refl
         eq_refl N3 eq_refl eq_refl eq_refl))))).
  - exact (proj1 (proj2 (proj2 (proj2
      (nameless_entry_named_by_index
         (Sample.calm Sample.withNameless) Sample.archivePath
         Sample.outputPath
         (Sample.idle Sample.fresh)
         (fst (job (Sample.calm Sample.withNameless) Sample.archivePath
                 Sample.outputPath (Sample.idle Sample.fresh)))
         [Sample.fileItem "a.txt" (Sample.b 5)]
         [Sample.fileItem "c.txt" (Sample.b 2)]
         (Sample.namelessItem (Sample.b 6))
         [{| fi_path := "/data/user/0/com.app/files/out/a.txt";
             fi_name := "a.txt"; fi_relativePath := "a.txt"; fi_size := 5 |};
          {| fi_path := "/data/user/0/com.app/files/out/unknown_file_1";
             fi_name := "unknown_file_1";
             fi_relativePath := "unknown_file_1"; fi_size := 6 |};
          {| fi_path := "/data/user/0/com.app/files/out/c.txt";
             fi_name := "c.txt"; fi_relativePath := "c.txt"; fi_size := 2 |}]
         Sample.outputPath
         eq_refl eq_refl N1 N2 eq_refl eq_refl eq_refl eq_refl eq_refl
         eq_refl N3 eq_refl eq_refl eq_refl))))).
Defined.
